(** * The shared HTTP access layer of flow_researcher

    A shallow embedding of [src/flow_researcher/tools/sec_http_client.py]:
    the sliding-window [RateLimiter], the file based [SimpleCache] and the
    [SECHttpClient] built from them, followed by the properties that the
    specification states about them.

    Conventions of the embedding.
    - Time. [time.time()] returns a float; timestamps and durations are
      exact rationals ([Q]) here, so [1.0] is [1] and no rounding happens.
    - Effects. Python code runs in the monad [M]: a state transformer over
      [state] (clock, limiter deque, file system, pending server replies,
      effect trace) that either returns a value or raises an [exn].
    - Library code. What the Python standard library, [requests] and
      [urllib3] contribute is either written out where the source configures
      it (the retry loop, the case-insensitive header dictionary,
      [json.dumps]) or taken from the [Runtime] interface (MD5, the text of
      a float, absolute paths). *)

From Stdlib Require Import Ascii String QArith Lqa.
From stdpp Require Import gmap strings list sorting pretty.

Set Warnings "-register-all".

Local Open Scope string_scope.

(** ** Python values *)

(** The values [json.load] and [Response.json] produce, and [json.dump]
    accepts.  [JNull] is Python's [None].  A [JObj] is a [dict] in insertion
    order; its keys are pairwise distinct. *)
Inductive json : Type :=
  | JNull
  | JBool (b : bool)
  | JInt (z : Z)
  | JFloat (q : Q)
  | JStr (s : string)
  | JArr (items : list json)
  | JObj (members : list (string * json)).

(** Exceptions of [requests.exceptions.RequestException]. *)
Inductive request_exception : Type :=
  | HTTPError (status : Z)      (* [raise_for_status] on a 4xx/5xx reply *)
  | RetryError                  (* retries used up on a forced status *)
  | ConnectionError             (* retries used up on connection failures *)
  | InvalidHeader               (* a [Retry-After] header urllib3 cannot read *)
  | TooManyRedirects.           (* a redirect after [max_redirects] redirects *)

(** Everything the modelled code can raise.  [RequestFailed] is
    [Exception("HTTP request failed: ...")], [DownloadFailed] is
    [Exception("Download failed: ...")]. *)
Inductive exn : Type :=
  | ZeroDivisionError
  | IndexError
  | AttributeError
  | TypeError
  | JSONDecodeError
  | UnicodeDecodeError
  | IOError
  | RequestException (e : request_exception)
  | RequestFailed (cause : request_exception)
  | DownloadFailed (cause : request_exception).

Inductive result (A : Type) : Type :=
  | Ok (a : A)
  | Raise (e : exn).
Arguments Ok {A} a.
Arguments Raise {A} e.

(** What urllib3 reads from a [Retry-After] header: a number of seconds, or
    a date, given here as seconds since the epoch. *)
Inductive retry_after : Type :=
  | Seconds (n : N)
  | HttpDate (t : Q).

(** ** What the run-time environment provides *)

Class Runtime : Type := {
  (** [hashlib.md5(key.encode()).hexdigest()] *)
  md5_hexdigest : string → string;
  (** [float.__repr__], the text [json.dumps] writes for a float *)
  float_repr : Q → string;
  (** [os.path.join(os.path.expanduser("~"), ".sec_tools_cache")] *)
  cache_dir : string;
  (** [str(Path(p).absolute())] *)
  path_absolute : string → string;
  (** the headers a fresh [requests.Session] starts with *)
  default_headers : list (string * string);
  (** [Retry.parse_retry_after] up to the clock reading: [None] where it
      raises [InvalidHeader] *)
  parse_retry_after : string → option retry_after;
  (** whether [open(path, 'r')] can decode the bytes of a file as text *)
  decodes_as_text : string → bool;
  (** [str(Path(p).parent)] *)
  path_parent : string → string;
  (** [Path(p).parents], nearest first *)
  path_parents : string → list string;
  (** the URL [Session.resolve_redirects] makes of a [Location] header, for
      the URL and the parameters of the request that was answered *)
  redirect_url : string → option (list (string * json)) → string → string;
  (** [Session.should_strip_auth] for the request that was answered and the
      URL it is redirected to *)
  should_strip_auth : string → option (list (string * json)) → string → bool
}.

(** ** Text and bytes *)

Definition dquote : ascii := "034"%char.
Definition backslash : ascii := "092"%char.

Definition str1 (c : ascii) : string := String c EmptyString.

Definition hex_digit (n : N) : ascii :=
  match String.get (N.to_nat n) "0123456789abcdef" with
  | Some c => c
  | None => "0"%char
  end.

(** One character of [py_encode_basestring_ascii]: the short escapes, the
    printable range [' '..'~'] unchanged, [\u00xx] for the rest. *)
Definition escape_char (c : ascii) : string :=
  let n := N_of_ascii c in
  if (n =? 34)%N then String backslash (str1 dquote)
  else if (n =? 92)%N then String backslash (str1 backslash)
  else if (n =? 8)%N then String backslash "b"
  else if (n =? 12)%N then String backslash "f"
  else if (n =? 10)%N then String backslash "n"
  else if (n =? 13)%N then String backslash "r"
  else if (n =? 9)%N then String backslash "t"
  else if ((32 <=? n) && (n <=? 126))%N then str1 c
  else String backslash "u00" +:+ String (hex_digit (n / 16)) (str1 (hex_digit (n mod 16))).

Fixpoint escape (s : string) : string :=
  match s with
  | EmptyString => EmptyString
  | String c rest => escape_char c +:+ escape rest
  end.

Definition encode_string (s : string) : string :=
  str1 dquote +:+ escape s +:+ str1 dquote.

(** [sorted(dct.items())] compares the items by key: the keys of a dict are
    distinct, so the values are never looked at. *)
Definition item_le (x y : string * string) : Prop := String.le x.1 y.1.

#[global] Instance item_le_dec : RelDecision item_le.
Proof. intros x y. unfold item_le. apply _. Defined.

Definition render_member (kv : string * string) : string :=
  encode_string kv.1 +:+ ": " +:+ kv.2.

(** [json.dumps(j, sort_keys=sort_keys)] with the default separators and
    [ensure_ascii].  With [sort_keys] the members of every object are written
    in the order of their keys. *)
Fixpoint json_dumps `{Runtime} (sort_keys : bool) (j : json) : string :=
  match j with
  | JNull => "null"
  | JBool true => "true"
  | JBool false => "false"
  | JInt z => pretty z
  | JFloat q => float_repr q
  | JStr s => encode_string s
  | JArr items =>
      "[" +:+ String.concat ", " (map (json_dumps sort_keys) items) +:+ "]"
  | JObj members =>
      let items :=
        map (λ kv, match kv with (k, v) => (k, json_dumps sort_keys v) end)
            members in
      let items := if sort_keys then merge_sort item_le items else items in
      "{" +:+ String.concat ", " (map render_member items) +:+ "}"
  end.

(** [d.get(key, default)] on a value read from JSON: only a dict has [get]. *)
Fixpoint assoc (key : string) (members : list (string * json)) : option json :=
  match members with
  | [] => None
  | (k, v) :: rest => if String.eqb k key then Some v else assoc key rest
  end.

Definition dict_get (d : json) (key : string) (dflt : json) : result json :=
  match d with
  | JObj members => Ok (default dflt (assoc key members))
  | _ => Raise AttributeError
  end.

(** A byte string together with what Python's JSON parser makes of it
    ([None]: reading it as JSON raises).  Text produced by [json.dump] reads
    back as the value that was written. *)
Record blob : Type := Blob {
  bytes : string;
  as_json : option json
}.

Definition blob_of_json `{Runtime} (j : json) : blob :=
  Blob (json_dumps false j) (Some j).

(** ** The world the client runs in *)

Record file : Type := File {
  readable : bool;       (* [open(path, 'r')] succeeds *)
  mtime : Q;             (* time of the last write *)
  data : blob
}.

Record Response : Type := mkResponse {
  status_code : Z;
  headers : list (string * string);
  content : blob
}.

Record request : Type := mkRequest {
  req_method : string;
  req_url : string;
  req_headers : list (string * string);
  req_params : option (list (string * json));
  req_timeout : Z;
  req_stream : bool
}.

(** What the origin does with one attempt on the wire. *)
Inductive reply : Type :=
  | Answer (r : Response)
  | Unreachable.          (* connection refused, reset or timed out *)

(** The effects a run leaves behind, oldest first. *)
Inductive event : Type :=
  | Admission (t : Q)            (* [request_times.append(t)] *)
  | Slept (d : Q)               (* [time.sleep(d)] *)
  | Sent (r : request)          (* one attempt put on the wire *)
  | CacheGet (key : string)     (* [SimpleCache.get(key)] entered *)
  | CacheSet (key : string).    (* [SimpleCache.set(key, ...)] entered *)

Record state : Type := State {
  clock : Q;                        (* what [time.time()] returns now *)
  request_times : list Q;           (* the limiter's deque, oldest first *)
  files : gmap string file;         (* the regular files, by path *)
  disk_writable : bool;             (* the file system takes writes:
                                       [open(path, 'w')], [mkdir] and
                                       [unlink] succeed *)
  pending : list reply;             (* the origin's next replies *)
  trace : list event;
  dirs : gset string                (* the directories that are there *)
}.

Definition with_clock (t : Q) (s : state) : state :=
  State t (request_times s) (files s) (disk_writable s) (pending s) (trace s)
    (dirs s).
Definition with_request_times (l : list Q) (s : state) : state :=
  State (clock s) l (files s) (disk_writable s) (pending s) (trace s) (dirs s).
Definition with_files (fs : gmap string file) (s : state) : state :=
  State (clock s) (request_times s) fs (disk_writable s) (pending s) (trace s)
    (dirs s).
Definition with_pending (l : list reply) (s : state) : state :=
  State (clock s) (request_times s) (files s) (disk_writable s) l (trace s)
    (dirs s).
Definition with_trace (l : list event) (s : state) : state :=
  State (clock s) (request_times s) (files s) (disk_writable s) (pending s) l
    (dirs s).
Definition with_dirs (ds : gset string) (s : state) : state :=
  State (clock s) (request_times s) (files s) (disk_writable s) (pending s)
    (trace s) ds.

(** ** The monad of Python code: state and exceptions *)

Definition M (A : Type) : Type := state → result A * state.

#[global] Instance M_ret : MRet M := λ A a s, (Ok a, s).

#[global] Instance M_bind : MBind M := λ A B f m s,
  match m s with
  | (Ok a, s') => f a s'
  | (Raise e, s') => (Raise e, s')
  end.

Definition raise {A : Type} (e : exn) : M A := λ s, (Raise e, s).

Definition lift {A : Type} (r : result A) : M A := λ s, (r, s).

Definition gets {A : Type} (f : state → A) : M A := λ s, (Ok (f s), s).

Definition modify (f : state → state) : M unit := λ s, (Ok tt, f s).

(** [try: body except ...: handler]; [handler e = None] when no clause
    catches [e]. *)
Definition try_except {A : Type} (body : M A) (handler : exn → option (M A)) : M A :=
  λ s, match body s with
       | (Ok a, s') => (Ok a, s')
       | (Raise e, s') =>
           match handler e with
           | Some h => h s'
           | None => (Raise e, s')
           end
       end.

Definition emit (e : event) : M unit :=
  modify (λ s, with_trace (trace s ++ [e]) s).

Definition Qltb (x y : Q) : bool := negb (Qle_bool y x).

(** [time.time()] *)
Definition time_time : M Q := gets clock.

(** [time.sleep(d)]: the clock moves on by [d] and by whatever the scheduler
    adds on top ([over], never negative). *)
Definition time_sleep (over d : Q) : M unit :=
  emit (Slept d);;
  modify (λ s, with_clock (clock s + d + over)%Q s).

(** Time passing between two calls of the client. *)
Definition elapse (d : Q) : M unit :=
  modify (λ s, with_clock (clock s + d)%Q s).

(** [Path(p).exists()] *)
Definition path_exists (p : string) : M bool :=
  gets (λ s, bool_decide (is_Some (files s !! p))).

(** [with open(p, 'r') as f: json.load(f)]: bytes that are no text raise
    [UnicodeDecodeError], text that is no JSON raises [JSONDecodeError]. *)
Definition load_json `{Runtime} (p : string) : M json :=
  fs ← gets files;
  match fs !! p with
  | None => raise IOError
  | Some f =>
      if readable f then
        match as_json (data f) with
        | Some j => mret j
        | None =>
            if decodes_as_text (bytes (data f)) then raise JSONDecodeError
            else raise UnicodeDecodeError
        end
      else raise IOError
  end.

(** [Path(p).unlink()] *)
Definition unlink (p : string) : M unit :=
  fs ← gets files;
  ok ← gets disk_writable;
  match fs !! p with
  | None => raise IOError
  | Some _ => if ok : bool then modify (with_files (delete p fs)) else raise IOError
  end.

(** [Path(d).mkdir(parents=True, exist_ok=True)]: nothing to do for a
    directory that is there; otherwise the directory and those above it
    are made, or [OSError] is raised where they cannot be. *)
Definition mkdir_parents `{Runtime} (d : string) : M unit :=
  ds ← gets dirs;
  if bool_decide (d ∈ ds) then mret tt
  else
    ok ← gets disk_writable;
    if ok : bool then
      modify (with_dirs (ds ∪ {[d]} ∪ list_to_set (path_parents d)))
    else raise IOError.

(** [with open(p, 'w') as f: f.write(b)] *)
Definition write_file (p : string) (b : blob) : M unit :=
  ok ← gets disk_writable;
  if ok : bool then
    modify (λ s, with_files (<[p := File true (clock s) b]> (files s)) s)
  else raise IOError.

(** ** RateLimiter *)

Module RateLimiter.

Record t : Type := mk {
  max_rps : Q;
  min_interval : Q
}.

(** [__init__]: [1.0 / max_requests_per_second] divides by zero for a
    ceiling of [0]. *)
Definition init (max_requests_per_second : Q) : result t :=
  if Qeq_bool max_requests_per_second 0 then Raise ZeroDivisionError
  else Ok (mk max_requests_per_second (1 / max_requests_per_second)%Q).

(** [while request_times and now - request_times[0] > 1.0: popleft()] *)
Fixpoint purge (now : Q) (times : list Q) : list Q :=
  match times with
  | [] => []
  | t0 :: rest => if Qltb 1 (now - t0) then purge now rest else times
  end.

Definition drop_old (now : Q) : M unit :=
  modify (λ s, with_request_times (purge now (request_times s)) s).

(** [request_times[0]] *)
Definition front : M Q :=
  times ← gets request_times;
  match times with
  | [] => raise IndexError
  | t0 :: _ => mret t0
  end.

Definition append (now : Q) : M unit :=
  modify (λ s, with_request_times (request_times s ++ [now]) s);;
  emit (Admission now).

Definition wait_if_needed (self : t) (over : Q) : M unit :=
  now ← time_time;
  drop_old now;;
  times ← gets request_times;
  now ← (if Qle_bool (max_rps self) (inject_Z (Z.of_nat (length times))) then
           t0 ← front;
           let sleep_time := (1 - (now - t0))%Q in
           if Qltb 0 sleep_time then
             time_sleep over sleep_time;;
             now ← time_time;
             drop_old now;;
             mret now
           else mret now
         else mret now);
  append now.

End RateLimiter.

(** ** SimpleCache *)

(** [x > y] for a float [x] and a value [y] read from JSON: numbers and
    booleans compare, anything else raises [TypeError]. *)
Definition float_gt (x : Q) (y : json) : result bool :=
  match y with
  | JInt z => Ok (Qltb (inject_Z z) x)
  | JFloat q => Ok (Qltb q x)
  | JBool b => Ok (Qltb (if b then 1 else 0) x)
  | _ => Raise TypeError
  end.

Module SimpleCache.
Section WithRuntime.
Context `{Runtime}.

(** [__init__] with no argument: the cache directory is made. *)
Definition __init__ : M unit := mkdir_parents cache_dir.

Definition _get_cache_path (key : string) : string :=
  cache_dir +:+ "/" +:+ md5_hexdigest key +:+ ".json".

(** The record [set] stores. *)
Definition entry (value : json) (expires_at : Q) : json :=
  JObj [("value", value); ("expires_at", JFloat expires_at)].

(** [get]: [JNull] is the [None] of a miss. *)
Definition get (key : string) : M json :=
  emit (CacheGet key);;
  let cache_path := _get_cache_path key in
  found ← path_exists cache_path;
  if negb found then mret JNull
  else
    try_except
      (cached ← load_json cache_path;
       now ← time_time;
       expires_at ← lift (dict_get cached "expires_at" (JInt 0));
       expired ← lift (float_gt now expires_at);
       if expired : bool then
         unlink cache_path;;
         mret JNull
       else lift (dict_get cached "value" JNull))
      (λ e, match e with
            | JSONDecodeError | IOError => Some (unlink cache_path;; mret JNull)
            | _ => None
            end).

Definition set (key : string) (value : json) (ttl_seconds : Q) : M unit :=
  emit (CacheSet key);;
  let cache_path := _get_cache_path key in
  try_except
    (now ← time_time;
     let cached := entry value (now + ttl_seconds)%Q in
     write_file cache_path (blob_of_json cached))
    (λ e, match e with
          | IOError => Some (mret tt)
          | _ => None
          end).

End WithRuntime.
End SimpleCache.

(** ** Headers: [requests.structures.CaseInsensitiveDict] *)

Definition lower_char (c : ascii) : ascii :=
  let n := N_of_ascii c in
  if ((65 <=? n) && (n <=? 90))%N then ascii_of_N (n + 32) else c.

Fixpoint lower (s : string) : string :=
  match s with
  | EmptyString => EmptyString
  | String c rest => String (lower_char c) (lower rest)
  end.

(** [d[k] = v]: an entry whose key matches without regard to case is
    replaced where it stands, taking the new spelling of the key. *)
Fixpoint ci_set (k v : string) (d : list (string * string)) : list (string * string) :=
  match d with
  | [] => [(k, v)]
  | (k', v') :: rest =>
      if String.eqb (lower k') (lower k) then (k, v) :: rest
      else (k', v') :: ci_set k v rest
  end.

(** [d.update(new)] *)
Definition ci_update (d new : list (string * string)) : list (string * string) :=
  fold_left (λ acc kv, ci_set kv.1 kv.2 acc) new d.

(** [d.get(k)] *)
Fixpoint ci_get (k : string) (d : list (string * string)) : option string :=
  match d with
  | [] => None
  | (k', v') :: rest =>
      if String.eqb (lower k') (lower k) then Some v' else ci_get k rest
  end.

(** ** The retry policy: [urllib3.util.retry.Retry] *)

Record Retry : Type := mkRetry {
  total : nat;                       (* retries allowed after the first attempt *)
  backoff_factor : Q;
  status_forcelist : list Z;
  allowed_methods : list string
}.

Definition RETRY_AFTER_STATUS_CODES : list Z := [413; 429; 503]%Z.
Definition BACKOFF_MAX : Q := 120.

Definition mem_Z (x : Z) (l : list Z) : bool := existsb (Z.eqb x) l.
Definition mem_string (x : string) (l : list string) : bool := existsb (String.eqb x) l.

(** [bool(response.headers.get("Retry-After"))] *)
Definition has_retry_after (r : Response) : bool :=
  match ci_get "Retry-After" (headers r) with
  | Some v => negb (String.eqb v EmptyString)
  | None => false
  end.

(** [Retry.is_retry], with [left] the retries still allowed. *)
Definition is_retry (policy : Retry) (left : nat) (method : string) (r : Response) : bool :=
  mem_string method (allowed_methods policy)
  && (mem_Z (status_code r) (status_forcelist policy)
      || (negb (Nat.eqb left 0) && has_retry_after r
          && mem_Z (status_code r) RETRY_AFTER_STATUS_CODES)).

(** [Retry.get_backoff_time] after [errors] consecutive failed attempts. *)
Definition get_backoff_time (policy : Retry) (errors : nat) : Q :=
  match errors with
  | O | S O => 0
  | S n =>
      let backoff_value := (backoff_factor policy * inject_Z (2 ^ Z.of_nat n))%Q in
      if Qle_bool BACKOFF_MAX backoff_value then BACKOFF_MAX else backoff_value
  end.

(** [Retry.parse_retry_after]: the seconds a header asks for at the clock
    reading [now], never less than none. *)
Definition retry_after_seconds (r : retry_after) (now : Q) : Q :=
  match r with
  | Seconds n => inject_Z (Z.of_N n)
  | HttpDate t => if Qltb (t - now) 0 then 0 else (t - now)%Q
  end.

(** ** Redirects: [requests.sessions.SessionRedirectMixin] *)

Definition REDIRECT_STATI : list Z := [301; 302; 303; 307; 308]%Z.
Definition DEFAULT_REDIRECT_LIMIT : nat := 30.

(** [Session.get_redirect_target]: the [Location] of a redirect, [None]
    for a reply that is not followed. *)
Definition redirect_target (r : Response) : option string :=
  if mem_Z (status_code r) REDIRECT_STATI then
    match ci_get "location" (headers r) with
    | Some location => if String.eqb location EmptyString then None else Some location
    | None => None
    end
  else None.

(** [headers.pop(k, None)] *)
Fixpoint ci_pop (k : string) (d : list (string * string)) : list (string * string) :=
  match d with
  | [] => []
  | (k', v') :: rest =>
      if String.eqb (lower k') (lower k) then ci_pop k rest
      else (k', v') :: ci_pop k rest
  end.

(** The headers of the request that follows a redirect: the headers of a
    body go unless the status is 307 or 308; [Cookie] and
    [Proxy-Authorization] go; [Authorization] goes where the redirect
    leaves the host. *)
Definition redirect_headers (strip_auth : bool) (status : Z)
    (d : list (string * string)) : list (string * string) :=
  let d := if mem_Z status [307; 308]%Z then d
           else ci_pop "Transfer-Encoding"
                  (ci_pop "Content-Type" (ci_pop "Content-Length" d)) in
  let d := ci_pop "Proxy-Authorization" (ci_pop "Cookie" d) in
  if strip_auth then ci_pop "Authorization" d else d.

Section Network.
Context `{Runtime}.

Definition sleep_backoff (policy : Retry) (over : Q) (errors : nat) : M unit :=
  let backoff := get_backoff_time policy errors in
  if Qle_bool backoff 0 then mret tt else time_sleep over backoff.

(** [Retry.sleep(response)]: a [Retry-After] header that asks for a pause
    decides it, otherwise the backoff does.  A header that cannot be read
    raises [InvalidHeader], which [requests] hands on as its own. *)
Definition retry_sleep (policy : Retry) (over : Q) (errors : nat)
    (r : option Response) : M unit :=
  match r ≫= (λ r, ci_get "Retry-After" (headers r)) with
  | Some v =>
      match parse_retry_after v with
      | None => raise (RequestException InvalidHeader)
      | Some retry_after =>
          now ← time_time;
          let seconds := retry_after_seconds retry_after now in
          if Qeq_bool seconds 0 then sleep_backoff policy over errors
          else time_sleep over seconds
      end
  | None => sleep_backoff policy over errors
  end.

(** One attempt on the wire: the origin's next reply, none when it has
    stopped answering. *)
Definition transmit (req : request) : M reply :=
  emit (Sent req);;
  rs ← gets pending;
  match rs with
  | [] => mret Unreachable
  | r :: rest => modify (with_pending rest);; mret r
  end.

(** [HTTPConnectionPool.urlopen] as [HTTPAdapter.send] drives it: an
    attempt, then [Retry.increment] and another attempt while the policy
    allows.  [left] is the policy's current [total], [errors] the length
    of its history.  Exhaustion surfaces as the exceptions [requests]
    makes of [MaxRetryError]. *)
Fixpoint urlopen (policy : Retry) (over : Q) (left errors : nat)
    (req : request) : M Response :=
  rep ← transmit req;
  match rep with
  | Unreachable =>
      match left with
      | O => raise (RequestException ConnectionError)
      | S left' =>
          retry_sleep policy over (S errors) None;;
          urlopen policy over left' (S errors) req
      end
  | Answer response =>
      if is_retry policy left (req_method req) response then
        match left with
        | O => raise (RequestException RetryError)
        | S left' =>
            retry_sleep policy over (S errors) (Some response);;
            urlopen policy over left' (S errors) req
        end
      else mret response
  end.

(** The request [Session.resolve_redirects] makes of a request and the
    redirect that answered it: a [GET] stays a [GET], the URL is that of the
    [Location], the parameters are spent. *)
Definition redirect_request (req : request) (r : Response) (location : string) :
    request :=
  let url := redirect_url (req_url req) (req_params req) location in
  mkRequest (req_method req) url
    (redirect_headers (should_strip_auth (req_url req) (req_params req) url)
       (status_code r) (req_headers req))
    None (req_timeout req) (req_stream req).

(** [Session.send] with [allow_redirects]: the request goes through the
    adapter, and so does the request made of each redirect, every one with
    the whole retry policy; [redirects] is the number of redirects that may
    still be followed. *)
Fixpoint send (policy : Retry) (over : Q) (redirects : nat) (req : request) :
    M Response :=
  response ← urlopen policy over (total policy) 0 req;
  match redirect_target response with
  | None => mret response
  | Some location =>
      match redirects with
      | O => raise (RequestException TooManyRedirects)
      | S redirects' =>
          send policy over redirects' (redirect_request req response location)
      end
  end.

(** [Response.raise_for_status] *)
Definition raise_for_status (r : Response) : M unit :=
  if ((400 <=? status_code r) && (status_code r <? 600))%Z
  then raise (RequestException (HTTPError (status_code r)))
  else mret tt.

(** [Response.json] *)
Definition response_json (r : Response) : M json :=
  match as_json (content r) with
  | Some j => mret j
  | None => raise JSONDecodeError
  end.

End Network.

(** ** SECHttpClient *)

Module SECHttpClient.

Record t : Type := mk {
  user_agent : string;
  timeout : Z;
  cache_ttl : Q;
  enable_cache : bool;                  (* [self.cache] is not [None] *)
  rate_limiter : RateLimiter.t;
  retry_strategy : Retry;               (* of the adapter mounted on the session *)
  session_headers : list (string * string)
}.

Section WithRuntime.
Context `{Runtime}.

(** The object [__init__] builds: its attributes, the retry policy mounted
    on its session and the headers of the session. *)
Definition init (user_agent : string) (max_requests_per_second : Q)
    (timeout : Z) (cache_ttl_seconds : Q) (enable_cache : bool) : result t :=
  match RateLimiter.init max_requests_per_second with
  | Raise e => Raise e
  | Ok limiter =>
      Ok (mk user_agent timeout cache_ttl_seconds enable_cache limiter
            (mkRetry 3 1 [429; 500; 502; 503; 504]%Z ["GET"; "HEAD"])
            (ci_update default_headers
               [("User-Agent", user_agent);
                ("Accept", "application/json, text/html, */*");
                ("Accept-Encoding", "gzip, deflate")]))
  end.

(** [__init__]: the limiter is built, then the cache, whose directory is
    made, then the session. *)
Definition __init__ (user_agent : string) (max_requests_per_second : Q)
    (timeout : Z) (cache_ttl_seconds : Q) (enable_cache : bool) : M t :=
  self ← lift (init user_agent max_requests_per_second timeout cache_ttl_seconds
                 enable_cache);
  (if enable_cache then SimpleCache.__init__ else mret tt);;
  mret self.

(** [f"{url}?{json.dumps(params or {}, sort_keys=True)}"] *)
Definition cache_key (url : string) (params : option (list (string * json))) : string :=
  url +:+ "?" +:+ json_dumps true (JObj (default [] params)).

(** [Session.prepare_request]: the request's headers are merged over the
    session's. *)
Definition prepare_request (self : t) (url : string)
    (headers : option (list (string * string)))
    (params : option (list (string * json))) (stream : bool) : request :=
  mkRequest "GET" url (ci_update (session_headers self) (default [] headers))
    params (timeout self) stream.

(** [self.session.get(url, headers=..., params=..., timeout=..., stream=...)]:
    the prepared request goes through the mounted adapter, and redirects
    are followed. *)
Definition session_get (self : t) (over : Q) (url : string)
    (headers : option (list (string * string)))
    (params : option (list (string * json))) (stream : bool) : M Response :=
  send (retry_strategy self) over DEFAULT_REDIRECT_LIMIT
    (prepare_request self url headers params stream).

(** The response made up for a cache hit. *)
Definition mock_response (cached_response : json) : Response :=
  mkResponse 200 [("Content-Type", "application/json")]
    (blob_of_json cached_response).

(** The first half of [get]: with [use_cache] and a cache, look the request
    up; a value other than [None] is served as a made-up response. *)
Definition cache_lookup (self : t) (url : string)
    (params : option (list (string * json))) (use_cache : bool) : M (option Response) :=
  if use_cache && enable_cache self then
    cached_response ← SimpleCache.get (cache_key url params);
    match cached_response with
    | JNull => mret None
    | _ => mret (Some (mock_response cached_response))
    end
  else mret None.

(** The second half of [get], after the limiter: send the request, fail on
    an error status, store a JSON body of a [200] reply in the cache. *)
Definition request_and_store (self : t) (over : Q) (url : string)
    (headers : option (list (string * string)))
    (params : option (list (string * json))) (use_cache : bool) : M Response :=
  let request_headers :=
    ci_update (session_headers self) (default [] headers) in
  try_except
    (response ← session_get self over url (Some request_headers) params false;
     raise_for_status response;;
     (if use_cache && enable_cache self && (status_code response =? 200)%Z then
        try_except
          (json_data ← response_json response;
           SimpleCache.set (cache_key url params) json_data (cache_ttl self))
          (λ e, match e with
                | JSONDecodeError | UnicodeDecodeError => Some (mret tt)
                | _ => None
                end)
      else mret tt);;
     mret response)
    (λ e, match e with
          | RequestException cause => Some (raise (RequestFailed cause))
          | _ => None
          end).

Definition get (self : t) (over : Q) (url : string)
    (headers : option (list (string * string)))
    (params : option (list (string * json))) (use_cache : bool) : M Response :=
  hit ← cache_lookup self url params use_cache;
  match hit with
  | Some response => mret response
  | None =>
      RateLimiter.wait_if_needed (rate_limiter self) over;;
      request_and_store self over url headers params use_cache
  end.

Definition download (self : t) (over : Q) (url dest_path : string)
    (use_cache : bool) : M string :=
  found ← path_exists dest_path;
  if use_cache && found then mret (path_absolute dest_path)
  else
    mkdir_parents (path_parent dest_path);;
    RateLimiter.wait_if_needed (rate_limiter self) over;;
    try_except
      (response ← session_get self over url None None true;
       raise_for_status response;;
       write_file dest_path (content response);;
       mret (path_absolute dest_path))
      (λ e, match e with
            | RequestException cause => Some (raise (DownloadFailed cause))
            | _ => None
            end).

End WithRuntime.
End SECHttpClient.

(** ** Runs and observations *)

(** A series of [wait_if_needed] calls on one limiter.  Before each call the
    clock moves on by [gap]; [over] is what its sleep, if any, overshoots.
    The result lists the completion times: the clock as each call returns,
    which is the timestamp the call recorded. *)
Fixpoint admits (self : RateLimiter.t) (calls : list (Q * Q)) : M (list Q) :=
  match calls with
  | [] => mret []
  | (gap, over) :: rest =>
      elapse gap;;
      RateLimiter.wait_if_needed self over;;
      done ← time_time;
      later ← admits self rest;
      mret (done :: later)
  end.

(** The trailing second [(c - 1, c]] that ends at [c], and the wider
    [[c - 1, c]] that also holds what is exactly one second old. *)
Definition in_window (c t : Q) : bool := Qltb (c - 1) t && Qle_bool t c.
Definition in_closed_window (c t : Q) : bool := Qle_bool (c - 1) t && Qle_bool t c.

Definition window_count (c : Q) (done : list Q) : nat :=
  length (List.filter (in_window c) done).
Definition closed_window_count (c : Q) (done : list Q) : nat :=
  length (List.filter (in_closed_window c) done).

Definition is_sent (e : event) : bool :=
  match e with Sent _ => true | _ => false end.
Definition is_cache_event (e : event) : bool :=
  match e with CacheGet _ | CacheSet _ => true | _ => false end.
Definition is_admission (e : event) : bool :=
  match e with Admission _ => true | _ => false end.

(** The attempts put on the wire so far. *)
Definition sent (s : state) : list event := List.filter is_sent (trace s).
Definition attempts (s : state) : nat := length (sent s).
Definition cache_events (s : state) : list event := List.filter is_cache_event (trace s).
Definition admissions (s : state) : nat := length (List.filter is_admission (trace s)).

(** The value of a header in what was put on the wire. *)
Definition sent_header (name : string) (e : event) : option string :=
  match e with
  | Sent r => ci_get name (req_headers r)
  | _ => None
  end.


(** ** Python text: the [str] methods the tools use

    A [str] is a [string] whose characters are the code points below 256. *)

(** [c.isspace()] *)
Definition isspace (c : ascii) : bool :=
  let n := N_of_ascii c in
  (((9 <=? n) && (n <=? 13)) || ((28 <=? n) && (n <=? 32))
   || (n =? 133) || (n =? 160))%N.

(** [s.lstrip(chars)] and [s.rstrip(chars)], the characters to strip being
    those that satisfy [drop]. *)
Fixpoint lstrip_of (drop : ascii → bool) (s : string) : string :=
  match s with
  | EmptyString => EmptyString
  | String c rest => if drop c then lstrip_of drop rest else s
  end.

Fixpoint rstrip_of (drop : ascii → bool) (s : string) : string :=
  match s with
  | EmptyString => EmptyString
  | String c rest =>
      match rstrip_of drop rest with
      | EmptyString => if drop c then EmptyString else str1 c
      | kept => String c kept
      end
  end.

(** [s.strip()] *)
Definition strip (s : string) : string := lstrip_of isspace (rstrip_of isspace s).

(** ["0" * n] *)
Fixpoint zeros (n : nat) : string :=
  match n with
  | O => EmptyString
  | S n => String "0" (zeros n)
  end.

Definition is_sign (c : ascii) : bool := Ascii.eqb c "+" || Ascii.eqb c "-".

(** [s.zfill(width)]: zeros on the left up to [width] characters, after the
    sign when [s] starts with one. *)
Definition zfill (width : nat) (s : string) : string :=
  let fill := zeros (width - String.length s) in
  match s with
  | EmptyString => fill
  | String c rest => if is_sign c then String c (fill +:+ rest) else fill +:+ s
  end.

(** [s.replace(old, new)] for an [old] of one character. *)
Fixpoint replace_char (old : ascii) (new : string) (s : string) : string :=
  match s with
  | EmptyString => EmptyString
  | String c rest =>
      (if Ascii.eqb c old then new else str1 c) +:+ replace_char old new rest
  end.

(** [s[n:]] *)
Fixpoint drop_chars (n : nat) (s : string) : string :=
  match n, s with
  | S n, String _ rest => drop_chars n rest
  | _, _ => s
  end.

(** [f"{n:02d}"] *)
Definition format_02d (n : Z) : string :=
  if ((0 <=? n) && (n <? 10))%Z then "0" +:+ pretty n else pretty n.

(** [range(a, b)] *)
Definition range (a b : Z) : list Z := seqZ a (b - a).

(** [bool(s)] of a [str] *)
Definition nonempty (s : string) : bool := negb (String.eqb s EmptyString).

(** Every character of [s] satisfies [f]. *)
Fixpoint all_chars (f : ascii → bool) (s : string) : bool :=
  match s with
  | EmptyString => true
  | String c rest => f c && all_chars f rest
  end.

(** [c] is one of [0] to [9]. *)
Definition is_digit (c : ascii) : bool :=
  let n := N_of_ascii c in ((48 <=? n) && (n <=? 57))%N.
(** ** A run-time to evaluate examples in

    Cache files are named by the key itself in place of its digest, floats
    are written as a fraction, and a fresh session carries the headers
    [requests] gives it.  A [Retry-After] header is read as a number of
    seconds only, a file is text when its bytes are ASCII, paths are split
    at their slashes, and a redirect goes where its [Location] says. *)

(** The value of a decimal digit. *)
Definition digit_value (c : ascii) : option Z :=
  if is_digit c then Some (Z.of_N (N_of_ascii c) - 48)%Z else None.

(** The number a text of decimal digits writes, after [acc]. *)
Fixpoint number (acc : Z) (s : string) : option Z :=
  match s with
  | EmptyString => Some acc
  | String c rest =>
      match digit_value c with
      | Some d => number (10 * acc + d) rest
      | None => None
      end
  end.

Definition plain_parse_retry_after (v : string) : option retry_after :=
  if nonempty (strip v) then
    match number 0 (strip v) with
    | Some n => Some (Seconds (Z.to_N n))
    | None => None
    end
  else None.

Definition is_ascii (c : ascii) : bool := (N_of_ascii c <? 128)%N.

(** The text before the last [/] of [p], [None] when [p] has none. *)
Fixpoint before_last_slash (p : string) : option string :=
  match p with
  | EmptyString => None
  | String c rest =>
      match before_last_slash rest with
      | Some d => Some (String c d)
      | None => if Ascii.eqb c "/" then Some EmptyString else None
      end
  end.

Definition plain_parent (p : string) : string :=
  match before_last_slash p with
  | Some EmptyString => "/"
  | Some d => d
  | None => "."
  end.

Fixpoint plain_parents_upto (n : nat) (p : string) : list string :=
  match n with
  | O => []
  | S n =>
      match before_last_slash p with
      | Some EmptyString => ["/"]
      | Some d => d :: plain_parents_upto n d
      | None => ["."]
      end
  end.

Definition plain_parents (p : string) : list string :=
  plain_parents_upto (String.length p) p.

#[global] Instance plain_runtime : Runtime := {|
  md5_hexdigest := λ key, key;
  float_repr := λ q, pretty (Qnum q) +:+ "/" +:+ pretty (Z.pos (Qden q));
  cache_dir := "/home/user/.sec_tools_cache";
  path_absolute := λ p, "/work/" +:+ p;
  default_headers :=
    [("User-Agent", "python-requests/2.31.0");
     ("Accept-Encoding", "gzip, deflate");
     ("Accept", "*/*");
     ("Connection", "keep-alive")];
  parse_retry_after := plain_parse_retry_after;
  decodes_as_text := all_chars is_ascii;
  path_parent := plain_parent;
  path_parents := plain_parents;
  redirect_url := λ _ _ location, location;
  should_strip_auth := λ _ _ _, false
|}.

(** A fresh process on an empty disk at time [0]. *)
Definition fresh : state := State 0%Q [] ∅ true [] [] ∅.

(** [SECHttpClient()] with its default arguments. *)
Definition default_client : SECHttpClient.t :=
  SECHttpClient.mk "flow_researcher bryan@example.com" 30 3600%Q true
    (RateLimiter.mk 10%Q (1 / 10)%Q)
    (mkRetry 3 1%Q [429; 500; 502; 503; 504]%Z ["GET"; "HEAD"])
    (ci_update default_headers
       [("User-Agent", "flow_researcher bryan@example.com");
        ("Accept", "application/json, text/html, */*");
        ("Accept-Encoding", "gzip, deflate")]).



Definition tickers : json := JObj [("AAPL", JInt 320193)].

Definition fine_response : Response :=
  mkResponse 200
    [("Content-Type", "application/json; charset=utf-8"); ("ETag", "abc")]
    (blob_of_json tickers).

Definition fine : reply := Answer fine_response.

(** The request a fetch puts on the wire: the caller's headers are laid over
    the session's, and the session lays the result over its own once more. *)
Definition wire_request (self : SECHttpClient.t) (url : string)
    (headers : option (list (string * string)))
    (params : option (list (string * json))) : request :=
  SECHttpClient.prepare_request self url
    (Some (ci_update (SECHttpClient.session_headers self) (default [] headers)))
    params false.

(** ** States to evaluate examples in *)

Definition ticker_url : string :=
  "https://www.sec.gov/files/company_tickers_exchange.json".

Definition ticker_key : string := SECHttpClient.cache_key ticker_url None.

Definition ticker_path : string := SimpleCache._get_cache_path ticker_key.

(** A disk whose only file is the cache file of [ticker_url], holding [b],
    at time [0] with [fine] as the origin's next reply. *)
Definition cached_as (b : blob) : state :=
  State 0%Q [] {[ticker_path := File true 0%Q b]} true [fine] [] ∅.

(** The entry [set] would have written for [tickers], good until [100]. *)
Definition warm : state :=
  cached_as (blob_of_json (SimpleCache.entry tickers 100%Q)).

(** The entry a reply whose body is [null] leaves behind. *)
Definition warm_null : state :=
  cached_as (blob_of_json (SimpleCache.entry JNull 100%Q)).

(** Cache files that are valid JSON of the wrong shape. *)
Definition holds_list : state := cached_as (Blob "[]" (Some (JArr []))).

Definition soon : json :=
  JObj [("value", JInt 1); ("expires_at", JStr "soon")].

Definition holds_text_expiry : state := cached_as (blob_of_json soon).

(** A disk that holds one downloaded filing, fetched long ago. *)
Definition filing_path : string := "filings/aapl-10k.htm".

Definition filing_url : string :=
  "https://www.sec.gov/Archives/edgar/data/320193/aapl-10k.htm".

Definition old_filing : file := File true 0%Q (Blob "<html>10-K</html>" None).

Definition with_filing : state :=
  State 86400%Q [] {[filing_path := old_filing]} true [fine] [] ∅.

(** A header list is a case-insensitive dictionary when no two of its keys
    agree up to case. *)
Definition ci_wf (d : list (string * string)) : Prop :=
  NoDup (map (λ kv, lower kv.1) d).

(** The [User-Agent] that goes on the wire: the caller's, under any
    capitalisation (the last one given, should the caller spell it twice),
    and the client's own otherwise. *)
Definition user_agent_sent (user_agent : string)
    (headers : option (list (string * string))) : string :=
  default user_agent (ci_get "User-Agent" (rev (default [] headers))).

(** ** Vocabulary of the retry properties *)

(** The network side of the state: the replies still to come and the
    attempts made so far. *)
Definition net (s : state) : list reply * list event := (pending s, sent s).

(** From [s] to [s'] at most [k] more attempts went on the wire. *)
Definition sends_at_most (k : nat) : relation state :=
  λ s s', (attempts s ≤ attempts s' ≤ attempts s + k)%nat.

(** The fetch does not find its answer in the cache: the cache is not in use
    for it, or holds no file for the request. *)
Definition bypasses_cache `{Runtime} (self : SECHttpClient.t) (url : string)
    (params : option (list (string * json))) (use_cache : bool) (s : state) : Prop :=
  use_cache && SECHttpClient.enable_cache self = false
  ∨ files s !! SimpleCache._get_cache_path (SECHttpClient.cache_key url params) = None.

(** The status codes the client's retry policy forces a retry on. *)
Definition transient : list Z := [429; 500; 502; 503; 504]%Z.

(** The policy [__init__] mounts on the session. *)
Definition mounted_policy : Retry := mkRetry 3 1%Q transient ["GET"; "HEAD"].

(** The requests a request leads to when redirects are followed. *)
Inductive follows `{Runtime} (req : request) : request → Prop :=
  | follows_refl : follows req req
  | follows_step req' r location :
      follows req req' → follows req (redirect_request req' r location).

(** The reply is handed back as it is: it is no redirect that [requests]
    follows. *)
Definition final (r : Response) : Prop := redirect_target r = None.





(** ** Vocabulary of the frame properties *)

(** [preserves R m]: whatever [m] does, returning or raising, the states
    before and after are related by [R]. *)
Definition preserves {A : Type} (R : relation state) (m : M A) : Prop :=
  ∀ s r s', m s = (r, s') → R s s'.

(** A component of the state that stays as it is. *)
Definition keeps {X : Type} (proj : state → X) : relation state :=
  λ s s', proj s' = proj s.

(** The trace only grows, by events that satisfy [P]. *)
Definition logs (P : event → Prop) : relation state :=
  λ s s', ∃ new, trace s' = (trace s ++ new)%list ∧ Forall P new.

(** What a relation [R] between the states before and after tolerates: a
    change of the clock, of the limiter's deque, of the pending replies, of
    the files, of the directories, and one more event [e] in the trace. *)
Definition ignores_clock (R : relation state) : Prop :=
  ∀ s t, R s (with_clock t s).
Definition ignores_request_times (R : relation state) : Prop :=
  ∀ s l, R s (with_request_times l s).
Definition ignores_pending (R : relation state) : Prop :=
  ∀ s l, R s (with_pending l s).
Definition ignores_files (R : relation state) : Prop :=
  ∀ s fs, R s (with_files fs s).
Definition ignores_dirs (R : relation state) : Prop :=
  ∀ s ds, R s (with_dirs ds s).
Definition accepts (R : relation state) (e : event) : Prop :=
  ∀ s, R s (with_trace (trace s ++ [e]) s).

(** The state once [SimpleCache.get key], or [SimpleCache.set key], has
    been entered. *)
Definition after_get (key : string) (s : state) : state :=
  with_trace (trace s ++ [CacheGet key]) s.

Definition after_set (key : string) (s : state) : state :=
  with_trace (trace s ++ [CacheSet key]) s.

(** ** Vocabulary of the limiter properties *)

(** The timestamps of [l] later than [x]. *)
Definition later_than (x : Q) (l : list Q) : nat :=
  length (List.filter (Qltb x) l).

(** What one [wait_if_needed] does to the clock and the deque, as a function
    of the ceiling [C], the overshoot of its sleep, the clock reading [now]
    and the deque [times]. *)
Definition admit_step (C over now : Q) (times : list Q) : Q * list Q :=
  let times1 := RateLimiter.purge now times in
  if Qle_bool C (inject_Z (Z.of_nat (length times1))) then
    match times1 with
    | [] => (now, (times1 ++ [now])%list)
    | t0 :: _ =>
        let sleep_time := (1 - (now - t0))%Q in
        if Qltb 0 sleep_time then
          let now' := (now + sleep_time + over)%Q in
          (now', (RateLimiter.purge now' times1 ++ [now'])%list)
        else (now, (times1 ++ [now])%list)
    end
  else (now, (times1 ++ [now])%list).

(** What holds between two calls, [hist] being the completions so far: the
    deque is the tail of [hist] and what it dropped is more than a second
    old; it is in time order and holds nothing from the future; and fewer
    than [C + 1] of its timestamps are less than a second old. *)
Record limiter_inv (C : Q) (hist : list Q) (clk : Q) (times : list Q) : Prop := {
  inv_tail : ∃ old, hist = (old ++ times)%list ∧ Forall (λ t, (t < clk - 1)%Q) old;
  inv_sorted : StronglySorted Qle times;
  inv_past : Forall (λ t, (t <= clk)%Q) times;
  inv_room : (inject_Z (Z.of_nat (later_than (clk - 1) times)) < C + 1)%Q
}.

(** ** Vocabulary of the pacing properties *)

Definition is_slept (e : event) : bool :=
  match e with Slept _ => true | _ => false end.

(** The sleeps taken so far. *)
Definition sleeps (s : state) : list event := List.filter is_slept (trace s).

(** The clock readings at which calls made [gaps] apart start when none of
    them is held up, the first one [gap] after [clk]. *)
Fixpoint arrivals (clk : Q) (gaps : list Q) : list Q :=
  match gaps with
  | [] => []
  | gap :: rest => (clk + gap)%Q :: arrivals (clk + gap) rest
  end.

(** ** Vocabulary of the file properties *)

(** Every file but the one at [p] stays as it is. *)
Definition keeps_files_but (p : string) : relation state :=
  λ s s', delete p (files s') = delete p (files s).


(** The directory [d] is there or can be made. *)
Definition can_mkdir (d : string) (s : state) : bool :=
  bool_decide (d ∈ dirs s) || disk_writable s.

(** The state once [d] has been made, with the directories above it. *)
Definition after_mkdir `{Runtime} (d : string) (s : state) : state :=
  if bool_decide (d ∈ dirs s) then s
  else with_dirs (dirs s ∪ {[d]} ∪ list_to_set (path_parents d)) s.


(** No directory is lost, and none is made but those of [ds]. *)
Definition makes_dirs_within (ds : gset string) : relation state :=
  λ s s', dirs s ⊆ dirs s' ∧ dirs s' ⊆ dirs s ∪ ds.

(** The files are as they were, or the one at [p] is gone and the others
    are as they were. *)
Definition drops_at_most (p : string) : relation state :=
  λ s s', files s' = files s ∨ files s' = delete p (files s).

(** ** What the tools take from the Python library *)

Class Builtins : Type := {
  (** [str(e)], the message of an exception *)
  exception_str : exn → string;
  (** [datetime.strptime(date, "%Y-%m-%d")]: the year, the month and the
      day, [None] where it raises [ValueError] *)
  strptime_ymd : string → option (Z * Z * Z)
}.

(** ** The default client of the module

    [_default_client] is a module global: the functions that read or write
    it take its value and return the new one.  The first call builds
    [SECHttpClient()], which makes the cache directory. *)

Definition get_default_client `{Runtime} (_default_client : option SECHttpClient.t) :
    M (SECHttpClient.t * option SECHttpClient.t) :=
  match _default_client with
  | Some client => mret (client, _default_client)
  | None =>
      client ← SECHttpClient.__init__ "flow_researcher bryan@example.com" 10 30 3600
                 true;
      mret (client, Some client)
  end.

(** The default client is there, or can be built: its cache directory is
    there or can be made. *)
Definition client_ready `{Runtime} (_default_client : option SECHttpClient.t)
    (s : state) : bool :=
  match _default_client with
  | Some _ => true
  | None => can_mkdir cache_dir s
  end.

(** The state once the default client has been asked for. *)
Definition after_default_client `{Runtime}
    (_default_client : option SECHttpClient.t) (s : state) : state :=
  match _default_client with
  | Some _ => s
  | None => after_mkdir cache_dir s
  end.

(** ** The tools

    Every tool answers with [json.dumps] of a dict with the keys [data],
    [source_urls] and [warnings]. *)

Definition tool_result (data : json) (source_urls warnings : list string) : json :=
  JObj [("data", data);
        ("source_urls", JArr (map JStr source_urls));
        ("warnings", JArr (map JStr warnings))].

(** [cik.strip().zfill(10)] *)
Definition cik_padded (cik : string) : string := zfill 10 (strip cik).

(** [accession_with_dashes.replace] of the dash by the empty text *)
Definition accession_no_dashes (accession_with_dashes : string) : string :=
  replace_char "-" EmptyString accession_with_dashes.

(** *** edgar_url_tools.py *)

Module AccessionToNodashesTool.
Definition _run `{Runtime} (accession_with_dashes : string) : string :=
  json_dumps false
    (tool_result
       (JObj [("accession_with_dashes", JStr accession_with_dashes);
              ("accession_no_dashes",
               JStr (accession_no_dashes accession_with_dashes))])
       [] []).
End AccessionToNodashesTool.

Module BuildFilingIndexUrlTool.
Definition url (cik accession_with_dashes : string) : string :=
  "https://www.sec.gov/Archives/edgar/data/" +:+ cik_padded cik +:+ "/"
  +:+ accession_with_dashes +:+ "-index.html".

Definition _run `{Runtime} (cik accession_with_dashes : string) : string :=
  json_dumps false
    (tool_result
       (JObj [("url", JStr (url cik accession_with_dashes));
              ("cik", JStr (cik_padded cik));
              ("accession", JStr accession_with_dashes)])
       [] []).
End BuildFilingIndexUrlTool.

Module BuildCompleteSubmissionTxtUrlTool.
Definition url (cik accession_with_dashes : string) : string :=
  "https://www.sec.gov/Archives/edgar/data/" +:+ cik_padded cik +:+ "/"
  +:+ accession_with_dashes +:+ ".txt".

Definition _run `{Runtime} (cik accession_with_dashes : string) : string :=
  json_dumps false
    (tool_result
       (JObj [("url", JStr (url cik accession_with_dashes));
              ("cik", JStr (cik_padded cik));
              ("accession", JStr accession_with_dashes)])
       [] []).
End BuildCompleteSubmissionTxtUrlTool.

Module BuildFilingFolderUrlTool.
Definition url (cik accession_with_dashes : string) : string :=
  "https://www.sec.gov/Archives/edgar/data/" +:+ cik_padded cik +:+ "/"
  +:+ accession_no_dashes accession_with_dashes +:+ "/".

Definition _run `{Runtime} (cik accession_with_dashes : string) : string :=
  json_dumps false
    (tool_result
       (JObj [("url", JStr (url cik accession_with_dashes));
              ("cik", JStr (cik_padded cik));
              ("accession_with_dashes", JStr accession_with_dashes);
              ("accession_no_dashes",
               JStr (accession_no_dashes accession_with_dashes))])
       [] []).
End BuildFilingFolderUrlTool.

(** *** edgar_index_tools.py *)

Definition base_url : string := "https://www.sec.gov/Archives/edgar/daily-index".

(** The two index files of a month: [master.MM.idx] and [master.MM.idx.gz]
    under the directory of the year and the quarter. *)
Definition month_paths (year quarter month : Z) : list string :=
  let month_str := format_02d month in
  [base_url +:+ "/" +:+ pretty year +:+ "/QTR" +:+ pretty quarter
     +:+ "/master." +:+ month_str +:+ ".idx";
   base_url +:+ "/" +:+ pretty year +:+ "/QTR" +:+ pretty quarter
     +:+ "/master." +:+ month_str +:+ ".idx.gz"].

Module ListDailyIndexPathsTool.

(** [for month in range((q - 1) * 3 + 1, q * 3 + 1): paths.extend([...])] *)
Definition quarter_paths (year q : Z) : list string :=
  flat_map (month_paths year q) (range ((q - 1) * 3 + 1) (q * 3 + 1)).

(** [if quarter:] takes [None] and [0] for no quarter. *)
Definition paths (year : Z) (quarter : option Z) : list string :=
  match quarter with
  | Some q => if (q =? 0)%Z then flat_map (quarter_paths year) (range 1 5)
              else quarter_paths year q
  | None => flat_map (quarter_paths year) (range 1 5)
  end.

Definition _run `{Runtime} (year : Z) (quarter : option Z) : string :=
  json_dumps false
    (JObj [("data",
            JObj [("year", JInt year);
                  ("quarter", from_option JInt JNull quarter);
                  ("paths", JArr (map JStr (paths year quarter)));
                  ("count", JInt (Z.of_nat (length (paths year quarter))))]);
           ("source_urls", JArr [JStr base_url]);
           ("warnings", JArr [])]).

End ListDailyIndexPathsTool.

Module EdgarPathToDocUrlTool.

Definition path (edgar_path : string) : string :=
  let path := lstrip_of (Ascii.eqb "/") edgar_path in
  if String.prefix "edgar/data/" path then drop_chars 11 path
  else if String.prefix "edgar/" path then drop_chars 6 path
  else path.

Definition url (edgar_path : string) : string :=
  "https://www.sec.gov/Archives/edgar/data/" +:+ path edgar_path.

Definition _run `{Runtime} (edgar_path : string) : string :=
  json_dumps false
    (tool_result
       (JObj [("url", JStr (url edgar_path)); ("edgar_path", JStr edgar_path)])
       [] []).

End EdgarPathToDocUrlTool.

Module DownloadDailyMasterIndexTool.
Section WithRuntime.
Context `{Runtime} `{Builtins}.

Definition urls_to_try (year month : Z) : list string :=
  let quarter := ((month - 1) / 3 + 1)%Z in
  month_paths year quarter month.

(** [for url in urls_to_try]: the first download that returns ends the
    loop with its path and its URL; a download that raises, whatever it
    raises, is passed over. *)
Fixpoint try_urls (client : SECHttpClient.t) (over : Q) (dest_path : string)
    (urls : list string) : M (option string * option string) :=
  match urls with
  | [] => mret (None, None)
  | url :: rest =>
      got ← try_except
              (downloaded_path ← SECHttpClient.download client over url dest_path true;
               mret (Some downloaded_path))
              (λ _, Some (mret None));
      match got with
      | Some downloaded_path => mret (Some downloaded_path, Some url)
      | None => try_urls client over dest_path rest
      end
  end.

Definition downloaded (downloaded_path source_url date : string) : json :=
  tool_result
    (JObj [("downloaded_path", JStr downloaded_path);
           ("url", JStr source_url);
           ("date", JStr date)])
    [source_url] [].

Definition not_downloaded (urls : list string) (date : string) : json :=
  tool_result JNull urls
    ["Failed to download master index for " +:+ date +:+ " from any URL"].

Definition invalid_date : json :=
  tool_result JNull [] ["Invalid date format. Use YYYY-MM-DD format."].

Definition failed (e : exn) : json :=
  tool_result JNull []
    ["Failed to download daily master index: " +:+ exception_str e].

(** [_run]: [strptime] is the one place of the body that raises
    [ValueError], so the [except ValueError] clause is the branch of a date
    that does not parse.  The loop catches what a download raises, so the
    last clause is reached only where the default client cannot be built,
    and the global then stays as it was. *)
Definition _run (date dest_path : string) (over : Q)
    (_default_client : option SECHttpClient.t) :
    M (string * option SECHttpClient.t) :=
  match strptime_ymd date with
  | None => mret (json_dumps false invalid_date, _default_client)
  | Some (year, month, _) =>
      try_except
        ('(client, _default_client) ← get_default_client _default_client;
         found ← try_urls client over dest_path (urls_to_try year month);
         match found with
         | (Some downloaded_path, Some source_url) =>
             if nonempty downloaded_path
             then mret (json_dumps false
                          (downloaded downloaded_path source_url date),
                        _default_client)
             else mret (json_dumps false
                          (not_downloaded (urls_to_try year month) date),
                        _default_client)
         | _ => mret (json_dumps false
                        (not_downloaded (urls_to_try year month) date),
                      _default_client)
         end)
        (λ e, Some (mret (json_dumps false (failed e), _default_client)))
  end.

End WithRuntime.
End DownloadDailyMasterIndexTool.

(** *** company_tools.py *)

Module GetCompanySubmissionsTool.
Section WithRuntime.
Context `{Runtime} `{Builtins}.

Definition url (cik : string) : string :=
  "https://data.sec.gov/submissions/CIK" +:+ cik_padded cik +:+ ".json".

Definition fetched (cik : string) (data : json) : json :=
  tool_result data [url cik] [].

Definition failed (cik : string) (e : exn) : json :=
  tool_result JNull [url cik]
    ["Failed to fetch company submissions: " +:+ exception_str e].

Definition _run (cik : string) (over : Q)
    (_default_client : option SECHttpClient.t) :
    M (string * option SECHttpClient.t) :=
  '(client, _default_client) ← get_default_client _default_client;
  out ← try_except
          (response ← SECHttpClient.get client over (url cik) None None true;
           data ← response_json response;
           mret (json_dumps false (fetched cik data)))
          (λ e, Some (mret (json_dumps false (failed cik e))));
  mret (out, _default_client).

End WithRuntime.
End GetCompanySubmissionsTool.

(** ** Values at run time

    What a reply holds is any JSON value; the operations the tools apply to
    it are those of Python, which raise where the value is of the wrong
    kind. *)

(** What the code that reads a reply can raise: the exceptions of the
    client layer and the [KeyError] of [d[i]] on a dict. *)
Inductive py_exn : Type :=
  | Lib (e : exn)
  | KeyError (key : nat).

Inductive attempt (A : Type) : Type :=
  | Got (a : A)
  | Threw (e : py_exn).
Arguments Got {A} a.
Arguments Threw {A} e.

#[global] Instance attempt_ret : MRet attempt := λ A a, Got a.

#[global] Instance attempt_bind : MBind attempt := λ A B f m,
  match m with
  | Got a => f a
  | Threw e => Threw e
  end.

(** [str(e)] *)
Definition py_exception_str `{Builtins} (e : py_exn) : string :=
  match e with
  | Lib e => exception_str e
  | KeyError key => pretty key
  end.

(** [bool(v)] *)
Definition truthy (v : json) : bool :=
  match v with
  | JNull => false
  | JBool b => b
  | JInt z => negb (z =? 0)%Z
  | JFloat q => negb (Qeq_bool q 0)
  | JStr s => nonempty s
  | JArr items => match items with [] => false | _ => true end
  | JObj members => match members with [] => false | _ => true end
  end.

(** [key in s] for two [str] *)
Fixpoint is_substring (key s : string) : bool :=
  String.prefix key s
  || match s with
     | EmptyString => false
     | String _ rest => is_substring key rest
     end.

Definition is_str (key : string) (v : json) : bool :=
  match v with
  | JStr s => String.eqb s key
  | _ => false
  end.

(** [key in v] for a [str] key: a key of a dict, an item of a list, a part
    of a [str]. *)
Definition py_in (key : string) (v : json) : attempt bool :=
  match v with
  | JObj members => Got (bool_decide (is_Some (assoc key members)))
  | JArr items => Got (existsb (is_str key) items)
  | JStr s => Got (is_substring key s)
  | _ => Threw (Lib TypeError)
  end.

(** [v.get(key, dflt)] *)
Definition py_get (v : json) (key : string) (dflt : json) : attempt json :=
  match dict_get v key dflt with
  | Ok x => Got x
  | Raise e => Threw (Lib e)
  end.

(** [len(v)] *)
Definition py_len (v : json) : attempt nat :=
  match v with
  | JStr s => Got (String.length s)
  | JArr items => Got (length items)
  | JObj members => Got (length members)
  | _ => Threw (Lib TypeError)
  end.

(** [v[i]] for an [i] that is not negative.  The keys of a dict read from
    JSON are text, so no dict has the key [i]. *)
Definition py_index (v : json) (i : nat) : attempt json :=
  match v with
  | JStr s =>
      match String.get i s with
      | Some c => Got (JStr (str1 c))
      | None => Threw (Lib IndexError)
      end
  | JArr items =>
      match items !! i with
      | Some x => Got x
      | None => Threw (Lib IndexError)
      end
  | JObj _ => Threw (KeyError i)
  | _ => Threw (Lib TypeError)
  end.

(** [v[i] if i < len(v) else None] *)
Definition py_index_or_none (v : json) (i : nat) : attempt json :=
  n ← py_len v;
  if (i <? n)%nat then py_index v i else Got JNull.

(** *** filing_tools.py *)

Module ListRecentFilingsTool.

(** The columns of [filings.recent] that the tool reads. *)
Record columns : Type := Columns {
  accession_numbers : json;
  form_types : json;
  filing_dates : json;
  report_dates : json;
  acceptance_dates : json;
  primary_docs : json
}.

(** [forms and form not in forms] *)
Definition filtered_out (forms : option (list string)) (form : json) : bool :=
  match forms with
  | None | Some [] => false
  | Some forms => negb (existsb (λ f, is_str f form) forms)
  end.

Definition filing_meta (form filing_date report_date acceptance accession primary : json)
    : json :=
  JObj [("form", form);
        ("filingDate", filing_date);
        ("reportDate", report_date);
        ("acceptanceDateTime", acceptance);
        ("accessionNumber", accession);
        ("primaryDocument", primary)].

(** The body of the loop for the index [i]: [None] where it goes on to
    the next index without a row. *)
Definition row (c : columns) (forms : option (list string)) (i : nat) :
    attempt (option json) :=
  form ← py_index_or_none (form_types c) i;
  if filtered_out forms form then Got None
  else
    filing_date ← py_index_or_none (filing_dates c) i;
    report_date ← py_index_or_none (report_dates c) i;
    acceptance ← py_index_or_none (acceptance_dates c) i;
    accession ← py_index (accession_numbers c) i;
    primary ← py_index_or_none (primary_docs c) i;
    Got (Some (filing_meta form filing_date report_date acceptance accession primary)).

(** [for i in range(len(accession_numbers))], from the indices still to
    come and the rows gathered so far; the loop breaks once there are
    [limit] rows. *)
Fixpoint loop (c : columns) (forms : option (list string)) (limit : Z)
    (indices : list nat) (normalized : list json) : attempt (list json) :=
  match indices with
  | [] => Got normalized
  | i :: rest =>
      r ← row c forms i;
      match r with
      | None => loop c forms limit rest normalized
      | Some meta =>
          let normalized := (normalized ++ [meta])%list in
          if (limit <=? Z.of_nat (length normalized))%Z then Got normalized
          else loop c forms limit rest normalized
      end
  end.

(** What the tool makes of the body of the reply: [None] where it finds no
    filings in it. *)
Definition normalize (submissions : json) (forms : option (list string)) (limit : Z) :
    attempt (option (list json)) :=
  all_filings ← py_get submissions "filings" (JObj []);
  filings ← py_get all_filings "recent" (JObj []);
  if negb (truthy filings) then Got None
  else
    present ← py_in "accessionNumber" filings;
    if negb present then Got None
    else
      accession_numbers ← py_get filings "accessionNumber" (JArr []);
      form_types ← py_get filings "form" (JArr []);
      filing_dates ← py_get filings "filingDate" (JArr []);
      report_dates ← py_get filings "reportDate" (JArr []);
      acceptance_dates ← py_get filings "acceptanceDateTime" (JArr []);
      primary_docs ← py_get filings "primaryDocument" (JArr []);
      n ← py_len accession_numbers;
      normalized ← loop (Columns accession_numbers form_types filing_dates
                           report_dates acceptance_dates primary_docs)
                      forms limit (seq 0 n) [];
      Got (Some normalized).

Section WithRuntime.
Context `{Runtime} `{Builtins}.

Definition url (cik : string) : string :=
  "https://data.sec.gov/submissions/CIK" +:+ cik_padded cik +:+ ".json".

Definition failed (cik : string) (message : string) : json :=
  tool_result (JArr []) [url cik] ["Failed to list filings: " +:+ message].

(** The dict the tool answers with once the reply has been read. *)
Definition listed (cik : string) (forms : option (list string)) (limit : Z)
    (submissions : json) : json :=
  match normalize submissions forms limit with
  | Got (Some normalized) => tool_result (JArr normalized) [url cik] []
  | Got None =>
      tool_result (JArr []) [url cik] ["No filings found in submissions data"]
  | Threw e => failed cik (py_exception_str e)
  end.

(** [_run]: what reading the reply raises is caught by the same clause that
    catches what the fetch raises. *)
Definition _run (cik : string) (forms : option (list string)) (limit : Z) (over : Q)
    (_default_client : option SECHttpClient.t) :
    M (string * option SECHttpClient.t) :=
  '(client, _default_client) ← get_default_client _default_client;
  out ← try_except
          (response ← SECHttpClient.get client over (url cik) None None true;
           submissions ← response_json response;
           mret (json_dumps false (listed cik forms limit submissions)))
          (λ e, Some (mret (json_dumps false (failed cik (exception_str e)))));
  mret (out, _default_client).

End WithRuntime.
End ListRecentFilingsTool.

(** ** Vocabulary of the filing list properties *)

(** The entry of a column at [i], [None] where the column is too short. *)
Definition cell (column : list json) (i : nat) : json := default JNull (column !! i).

(** The columns of a submission read row by row: one row for each
    accession number. *)
Definition table (accessions forms dates reports acceptances documents : list json) :
    list json :=
  imap (λ i accession,
          ListRecentFilingsTool.filing_meta (cell forms i) (cell dates i)
            (cell reports i) (cell acceptances i) accession (cell documents i))
       accessions.

(** The [form] of a row. *)
Definition form_of (row : json) : json :=
  match row with
  | JObj members => default JNull (assoc "form" members)
  | _ => JNull
  end.

(** The row is of one of the [forms] asked for, if any were. *)
Definition wanted (forms : option (list string)) (row : json) : bool :=
  negb (ListRecentFilingsTool.filtered_out forms (form_of row)).

(** The number of rows at which the loop stops: [limit], and one for a
    [limit] below one. *)
Definition row_limit (limit : Z) : nat := Z.to_nat (Z.max 1 limit).


(** ** Vocabulary of the backoff properties *)


(** ** A library and replies to evaluate the tools in *)

(** A library for the examples.  Dates are read in the one spelling
    [YYYY-MM-DD], with a month from 1 to 12 and a day from 1 to 31; an
    exception prints as the name of its class, after the prefix the client
    gives it. *)
Definition plain_strptime (date : string) : option (Z * Z * Z) :=
  match date with
  | String y1 (String y2 (String y3 (String y4 (String "-"
      (String m1 (String m2 (String "-" (String d1 (String d2 EmptyString))))))))) =>
      match number 0 (String y1 (String y2 (String y3 (String y4 EmptyString)))),
            number 0 (String m1 (String m2 EmptyString)),
            number 0 (String d1 (String d2 EmptyString)) with
      | Some year, Some month, Some day =>
          if ((1 <=? month) && (month <=? 12) && (1 <=? day) && (day <=? 31))%Z
          then Some (year, month, day)
          else None
      | _, _, _ => None
      end
  | _ => None
  end.

Definition plain_request_exception_str (e : request_exception) : string :=
  match e with
  | HTTPError status => pretty status +:+ " Error"
  | RetryError => "Max retries exceeded"
  | ConnectionError => "Connection refused"
  | InvalidHeader => "Invalid Retry-After header"
  | TooManyRedirects => "Exceeded 30 redirects."
  end.

Definition plain_exception_str (e : exn) : string :=
  match e with
  | ZeroDivisionError => "float division by zero"
  | IndexError => "deque index out of range"
  | AttributeError => "AttributeError"
  | TypeError => "TypeError"
  | JSONDecodeError => "Expecting value: line 1 column 1 (char 0)"
  | UnicodeDecodeError => "'utf-8' codec can't decode bytes"
  | IOError => "IOError"
  | RequestException e => plain_request_exception_str e
  | RequestFailed cause => "HTTP request failed: " +:+ plain_request_exception_str cause
  | DownloadFailed cause => "Download failed: " +:+ plain_request_exception_str cause
  end.

#[global] Instance plain_builtins : Builtins := {|
  exception_str := plain_exception_str;
  strptime_ymd := plain_strptime
|}.

Definition not_found_response : Response :=
  mkResponse 404 [] (Blob "Not Found" None).

Definition not_found : reply := Answer not_found_response.


Definition index_path : string := "index/master.idx".

(** The submissions of a company with three filings; the column of the
    report dates is one entry short. *)
Definition apple_recent : list (string * json) :=
  [("accessionNumber",
    JArr [JStr "0000320193-24-000123"; JStr "0000320193-24-000101";
          JStr "0000320193-24-000081"]);
   ("form", JArr [JStr "10-K"; JStr "8-K"; JStr "10-Q"]);
   ("filingDate", JArr [JStr "2024-11-01"; JStr "2024-08-01"; JStr "2024-08-02"]);
   ("reportDate", JArr [JStr "2024-09-28"; JStr "2024-08-01"]);
   ("primaryDocument", JArr [JStr "aapl-10k.htm"; JStr "aapl-8k.htm"; JStr "aapl-10q.htm"])].

Definition apple : json :=
  JObj [("cik", JStr "320193");
        ("name", JStr "Apple Inc.");
        ("filings", JObj [("recent", JObj apple_recent)])].

Definition apple_response : Response :=
  mkResponse 200 [("Content-Type", "application/json")] (blob_of_json apple).


(** A limiter whose one call of the last second was made half a second
    ago. *)
Definition half_second_on : state := State (1 # 2)%Q [0%Q] ∅ true [] [] ∅.

Definition index_url : string :=
  "https://www.sec.gov/Archives/edgar/daily-index/2024/QTR2/master.05.idx".



(** * Properties *)

Local Open Scope nat_scope.
Local Open Scope list_scope.

#[local] Arguments Qplus : simpl never.
#[local] Arguments Qminus : simpl never.
#[local] Arguments Qle_bool : simpl never.
#[local] Arguments Qeq_bool : simpl never.
#[local] Arguments Qltb : simpl never.
#[local] Arguments inject_Z : simpl never.

(** ** Stepping through monadic code *)

Lemma bind_ok {A B : Type} (m : M A) (f : A → M B) s a s1 :
  m s = (Ok a, s1) → (m ≫= f) s = f a s1.
Proof. intros E. unfold mbind, M_bind. by rewrite E. Qed.

Lemma bind_raise {A B : Type} (m : M A) (f : A → M B) s e s1 :
  m s = (Raise e, s1) → (m ≫= f) s = (Raise e, s1).
Proof. intros E. unfold mbind, M_bind. by rewrite E. Qed.

Lemma bind_inv {A B : Type} (m : M A) (f : A → M B) s r s' :
  (m ≫= f) s = (r, s') →
  (∃ a s1, m s = (Ok a, s1) ∧ f a s1 = (r, s'))
  ∨ (∃ e, m s = (Raise e, s') ∧ r = Raise e).
Proof.
  unfold mbind, M_bind. destruct (m s) as [[a|e] s1]; intros E.
  - left. eauto.
  - right. exists e. by inversion E.
Qed.

Lemma try_except_inv {A : Type} (body : M A) handler s r s' :
  try_except body handler s = (r, s') →
  (∃ a, body s = (Ok a, s') ∧ r = Ok a)
  ∨ (∃ e, body s = (Raise e, s') ∧ handler e = None ∧ r = Raise e)
  ∨ (∃ e s1 h, body s = (Raise e, s1) ∧ handler e = Some h ∧ h s1 = (r, s')).
Proof.
  unfold try_except. destruct (body s) as [[a|e] s1]; intros E.
  - left. exists a. by inversion E.
  - right. destruct (handler e) as [h|] eqn:Hh.
    + right. eauto 6.
    + left. exists e. by inversion E.
Qed.


(** ** Frame conditions *)

Section Preserves.
Context (R : relation state) `{!PreOrder R}.

Lemma preserves_mret {A : Type} (a : A) : preserves R (mret a).
Proof. intros s r s' E. inversion E. reflexivity. Qed.

Lemma preserves_raise {A : Type} (e : exn) : preserves R (raise (A:=A) e).
Proof. intros s r s' E. inversion E. reflexivity. Qed.

Lemma preserves_lift {A : Type} (x : result A) : preserves R (lift x).
Proof. intros s r s' E. inversion E. reflexivity. Qed.

Lemma preserves_gets {A : Type} (f : state → A) : preserves R (gets f).
Proof. intros s r s' E. inversion E. reflexivity. Qed.

Lemma preserves_modify (f : state → state) :
  (∀ s, R s (f s)) → preserves R (modify f).
Proof. intros Hf s r s' E. inversion E. apply Hf. Qed.

Lemma preserves_bind {A B : Type} (m : M A) (f : A → M B) :
  preserves R m → (∀ a, preserves R (f a)) → preserves R (m ≫= f).
Proof.
  intros Hm Hf s r s' E.
  destruct (bind_inv _ _ _ _ _ E) as [(a & s1 & E1 & E2)|(e & E1 & _)].
  - transitivity s1; [by eapply Hm | by eapply Hf].
  - by eapply Hm.
Qed.

Lemma preserves_try_except {A : Type} (body : M A) handler :
  preserves R body →
  (∀ e h, handler e = Some h → preserves R h) →
  preserves R (try_except body handler).
Proof.
  intros Hb Hh s r s' E.
  destruct (try_except_inv _ _ _ _ _ E)
    as [(a & E1 & _)|[(e & E1 & _)|(e & s1 & h & E1 & E2 & E3)]].
  - by eapply Hb.
  - by eapply Hb.
  - transitivity s1; [by eapply Hb | by eapply Hh].
Qed.
End Preserves.


#[global] Instance keeps_preorder {X : Type} (proj : state → X) : PreOrder (keeps proj).
Proof. split; unfold keeps; [by intros s | intros s1 s2 s3 E1 E2; congruence]. Qed.


#[global] Instance logs_preorder (P : event → Prop) : PreOrder (logs P).
Proof.
  split.
  - intros s. exists []. by rewrite app_nil_r.
  - intros s1 s2 s3 (n1 & E1 & F1) (n2 & E2 & F2). exists (n1 ++ n2).
    split; [by rewrite E2, E1, app_assoc | by apply Forall_app].
Qed.

Lemma preserves_emit_logs (P : event → Prop) e : P e → preserves (logs P) (emit e).
Proof.
  intros He. apply preserves_modify. intros s. exists [e].
  split; [done | by constructor].
Qed.


(** ** Footprints

    What each operation may touch, stated once for any relation [R] between
    the states before and after that tolerates those changes. *)
Ltac frame_bind := refine (preserves_bind _ _ _ _ _).
Ltac frame_ret := refine (preserves_mret _ _).
Ltac frame_raise := refine (preserves_raise _ _).
Ltac frame_lift := refine (preserves_lift _ _).
Ltac frame_gets := refine (preserves_gets _ _).
Ltac frame_try := refine (preserves_try_except _ _ _ _ _).

Section Footprints.
Context `{Runtime} (R : relation state) `{!PreOrder R}.

Lemma preserves_emit e : accepts R e → preserves R (emit e).
Proof. intros He. apply preserves_modify. apply He. Qed.

Lemma preserves_time_sleep over d :
  ignores_clock R → accepts R (Slept d) → preserves R (time_sleep over d).
Proof.
  intros Hc He. unfold time_sleep. frame_bind.
  - by apply preserves_emit.
  - intros _. apply preserves_modify. intros s. apply Hc.
Qed.

Lemma preserves_elapse d : ignores_clock R → preserves R (elapse d).
Proof. intros Hc. apply preserves_modify. intros s. apply Hc. Qed.

Lemma preserves_wait_if_needed self over :
  ignores_clock R → ignores_request_times R →
  (∀ d, accepts R (Slept d)) → (∀ t, accepts R (Admission t)) →
  preserves R (RateLimiter.wait_if_needed self over).
Proof.
  intros Hc Ht Hs Ha.
  assert (Hdrop : ∀ now, preserves R (RateLimiter.drop_old now)).
  { intros now. apply preserves_modify. intros s. apply Ht. }
  unfold RateLimiter.wait_if_needed, time_time.
  frame_bind; [frame_gets | intros now].
  frame_bind; [apply Hdrop | intros _].
  frame_bind; [frame_gets | intros times].
  frame_bind.
  - destruct (Qle_bool _ _); [|frame_ret].
    frame_bind.
    + unfold RateLimiter.front. frame_bind; [frame_gets|].
      intros [|t0 l]; [frame_raise | frame_ret].
    + intros t0. destruct (Qltb _ _); [|frame_ret].
      frame_bind; [by apply preserves_time_sleep | intros _].
      frame_bind; [frame_gets | intros now'].
      frame_bind; [apply Hdrop | intros _; frame_ret].
  - intros now'. unfold RateLimiter.append. frame_bind.
    + apply preserves_modify. intros s. apply Ht.
    + intros _. by apply preserves_emit.
Qed.

Lemma preserves_sleep_backoff policy over errors :
  ignores_clock R → (∀ d, accepts R (Slept d)) →
  preserves R (sleep_backoff policy over errors).
Proof.
  intros Hc Hs. unfold sleep_backoff.
  destruct (Qle_bool _ _); [frame_ret | by apply preserves_time_sleep].
Qed.

Lemma preserves_retry_sleep policy over errors r :
  ignores_clock R → (∀ d, accepts R (Slept d)) →
  preserves R (retry_sleep policy over errors r).
Proof.
  intros Hc Hs. unfold retry_sleep.
  destruct (r ≫= _) as [v|]; [|by apply preserves_sleep_backoff].
  destruct (parse_retry_after v); [|frame_raise].
  frame_bind; [frame_gets | intros now].
  destruct (Qeq_bool _ _);
    [by apply preserves_sleep_backoff | by apply preserves_time_sleep].
Qed.

Lemma preserves_transmit req :
  ignores_pending R → accepts R (Sent req) → preserves R (transmit req).
Proof.
  intros Hp He. unfold transmit.
  frame_bind; [by apply preserves_emit | intros _].
  frame_bind; [frame_gets | intros [|r rest]].
  - frame_ret.
  - frame_bind; [|intros _; frame_ret].
    apply preserves_modify. intros s. apply Hp.
Qed.

Lemma preserves_urlopen policy over left errors req :
  ignores_clock R → ignores_pending R →
  (∀ d, accepts R (Slept d)) → accepts R (Sent req) →
  preserves R (urlopen policy over left errors req).
Proof.
  intros Hc Hp Hs He. revert errors.
  induction left as [|left IH]; intros errors; simpl;
    (frame_bind; [by apply preserves_transmit | intros [r|]]).
  - destruct (is_retry _ _ _ _); [frame_raise | frame_ret].
  - frame_raise.
  - destruct (is_retry _ _ _ _); [|frame_ret].
    frame_bind; [by apply preserves_retry_sleep | intros _; apply IH].
  - frame_bind; [by apply preserves_retry_sleep | intros _; apply IH].
Qed.

Lemma preserves_send policy over redirects req :
  ignores_clock R → ignores_pending R →
  (∀ d, accepts R (Slept d)) →
  (∀ req', follows req req' → accepts R (Sent req')) →
  preserves R (send policy over redirects req).
Proof.
  intros Hc Hp Hs He. revert req He.
  induction redirects as [|redirects IH]; intros req He; simpl.
  - frame_bind.
    + apply preserves_urlopen; try done. apply He. constructor.
    + intros response. destruct (redirect_target response); [frame_raise | frame_ret].
  - frame_bind.
    + apply preserves_urlopen; try done. apply He. constructor.
    + intros response. destruct (redirect_target response) as [location|];
        [|frame_ret].
      apply IH. intros req' Hreq'. apply He.
      clear -Hreq'. induction Hreq' as [|req' r' l' _ IH'].
      * apply follows_step. constructor.
      * by apply follows_step.
Qed.

Lemma preserves_raise_for_status r : preserves R (raise_for_status r).
Proof.
  unfold raise_for_status.
  destruct (_ && _); [frame_raise | frame_ret].
Qed.

Lemma preserves_response_json r : preserves R (response_json r).
Proof.
  unfold response_json.
  destruct (as_json _); [frame_ret | frame_raise].
Qed.

Lemma preserves_load_json p : preserves R (load_json p).
Proof.
  unfold load_json. frame_bind; [frame_gets | intros fs].
  destruct (fs !! p) as [f|]; [|frame_raise].
  destruct (readable f); [|frame_raise].
  destruct (as_json _); [frame_ret|].
  destruct (decodes_as_text _); frame_raise.
Qed.

Lemma preserves_unlink p : ignores_files R → preserves R (unlink p).
Proof.
  intros Hf. unfold unlink.
  frame_bind; [frame_gets | intros fs].
  frame_bind; [frame_gets | intros ok].
  destruct (fs !! p); [|frame_raise].
  destruct ok; [|frame_raise].
  apply preserves_modify. intros s. apply Hf.
Qed.

Lemma preserves_mkdir_parents d : ignores_dirs R → preserves R (mkdir_parents d).
Proof.
  intros Hd. unfold mkdir_parents.
  frame_bind; [frame_gets | intros ds].
  destruct (bool_decide _); [frame_ret|].
  frame_bind; [frame_gets | intros [|]]; [|frame_raise].
  apply preserves_modify. intros s. apply Hd.
Qed.

Lemma preserves_write_file p b : ignores_files R → preserves R (write_file p b).
Proof.
  intros Hf. unfold write_file.
  frame_bind; [frame_gets | intros [|]].
  - apply preserves_modify. intros s. apply Hf.
  - frame_raise.
Qed.

Lemma preserves_cache_get key :
  ignores_files R → accepts R (CacheGet key) → preserves R (SimpleCache.get key).
Proof.
  intros Hf He. unfold SimpleCache.get.
  frame_bind; [by apply preserves_emit | intros _].
  frame_bind; [frame_gets | intros found].
  destruct (negb found); [frame_ret|].
  frame_try.
  - frame_bind; [apply preserves_load_json | intros cached].
    frame_bind; [frame_gets | intros now].
    frame_bind; [frame_lift | intros expires_at].
    frame_bind; [frame_lift | intros [|]].
    + frame_bind; [by apply preserves_unlink | intros _; frame_ret].
    + frame_lift.
  - intros e h Hh. destruct e; simplify_eq;
      (frame_bind; [by apply preserves_unlink | intros _; frame_ret]).
Qed.

Lemma preserves_cache_set key value ttl :
  ignores_files R → accepts R (CacheSet key) → preserves R (SimpleCache.set key value ttl).
Proof.
  intros Hf He. unfold SimpleCache.set.
  frame_bind; [by apply preserves_emit | intros _].
  frame_try.
  - frame_bind; [frame_gets | intros now].
    by apply preserves_write_file.
  - intros e h Hh. destruct e; simplify_eq. frame_ret.
Qed.

End Footprints.

Section ClientFootprints.
Context `{Runtime} (R : relation state) `{!PreOrder R}.

Lemma preserves_session_get self over url hdrs params stream :
  ignores_clock R → ignores_pending R →
  (∀ d, accepts R (Slept d)) →
  (∀ req, follows (SECHttpClient.prepare_request self url hdrs params stream) req →
          accepts R (Sent req)) →
  preserves R (SECHttpClient.session_get self over url hdrs params stream).
Proof. intros Hc Hp Hs He. by apply preserves_send. Qed.

Lemma preserves_cache_lookup self url params use_cache :
  (use_cache && SECHttpClient.enable_cache self = true →
   ignores_files R ∧ accepts R (CacheGet (SECHttpClient.cache_key url params))) →
  preserves R (SECHttpClient.cache_lookup self url params use_cache).
Proof.
  intros Hc. unfold SECHttpClient.cache_lookup.
  destruct (_ && _); [|frame_ret]. destruct Hc as [Hf Hg]; [done|].
  frame_bind; [by apply preserves_cache_get | intros []; frame_ret].
Qed.

Lemma preserves_request_and_store self over url hdrs params use_cache :
  ignores_clock R → ignores_pending R →
  (∀ d, accepts R (Slept d)) →
  (∀ req, follows (wire_request self url hdrs params) req → accepts R (Sent req)) →
  (use_cache && SECHttpClient.enable_cache self = true →
   ignores_files R ∧ accepts R (CacheSet (SECHttpClient.cache_key url params))) →
  preserves R (SECHttpClient.request_and_store self over url hdrs params use_cache).
Proof.
  intros Hc Hp Hs He Hw. unfold SECHttpClient.request_and_store.
  frame_try.
  - frame_bind; [by apply preserves_session_get | intros response].
    frame_bind; [apply preserves_raise_for_status; apply _ | intros _].
    frame_bind; [|intros _; frame_ret].
    destruct (use_cache && _); simpl; [|frame_ret].
    destruct (_ =? _)%Z; [|frame_ret]. destruct Hw as [Hf Hw]; [done|].
    frame_try.
    + frame_bind; [apply preserves_response_json; apply _ | intros j].
      by apply preserves_cache_set.
    + intros e h Hh. destruct e; simplify_eq; frame_ret.
  - intros e h Hh. destruct e; simplify_eq. frame_raise.
Qed.

(** A fetch touches the clock, the limiter and the network, and the cache
    files when the cache is in use. *)
Lemma preserves_get self over url hdrs params use_cache :
  ignores_clock R → ignores_request_times R → ignores_pending R →
  (∀ d, accepts R (Slept d)) → (∀ t, accepts R (Admission t)) →
  (∀ req, follows (wire_request self url hdrs params) req → accepts R (Sent req)) →
  (use_cache && SECHttpClient.enable_cache self = true →
   ignores_files R
   ∧ accepts R (CacheGet (SECHttpClient.cache_key url params))
   ∧ accepts R (CacheSet (SECHttpClient.cache_key url params))) →
  preserves R (SECHttpClient.get self over url hdrs params use_cache).
Proof.
  intros Hc Ht Hp Hs Ha He Hw. unfold SECHttpClient.get.
  frame_bind.
  { apply preserves_cache_lookup. intros Hu. by destruct (Hw Hu) as (? & ? & ?). }
  intros [r|]; [frame_ret|].
  frame_bind; [by apply preserves_wait_if_needed | intros _].
  apply preserves_request_and_store; try done.
  intros Hu. by destruct (Hw Hu) as (? & ? & ?).
Qed.

End ClientFootprints.

Lemma filter_snoc_false {A : Type} (f : A → bool) l x :
  f x = false → List.filter f (l ++ [x]) = List.filter f l.
Proof. intros E. rewrite List.filter_app. simpl. rewrite E. apply app_nil_r. Qed.

Lemma filter_snoc_true {A : Type} (f : A → bool) l x :
  f x = true → List.filter f (l ++ [x]) = List.filter f l ++ [x].
Proof. intros E. rewrite List.filter_app. simpl. by rewrite E. Qed.

(** ** Reading and writing cache entries, step by step *)

Ltac run_monad :=
  unfold SimpleCache.get, SimpleCache.set, load_json, unlink, write_file,
    path_exists, time_time, emit, gets, modify, lift, raise, try_except,
    mbind, M_bind, mret, M_ret;
  simpl.

Section CacheSteps.
Context `{Runtime}.

Lemma cache_get_absent key s :
  files s !! SimpleCache._get_cache_path key = None →
  SimpleCache.get key s = (Ok JNull, after_get key s).
Proof.
  intros E. run_monad. rewrite E.
  rewrite bool_decide_false by (by intros [? ?]). done.
Qed.

(** A file that cannot be opened is deleted, where the disk lets it. *)
Lemma cache_get_unreadable key s f :
  files s !! SimpleCache._get_cache_path key = Some f →
  readable f = false →
  SimpleCache.get key s
  = if disk_writable s
    then (Ok JNull, with_files (delete (SimpleCache._get_cache_path key) (files s))
                      (after_get key s))
    else (Raise IOError, after_get key s).
Proof.
  intros E Hr. run_monad. rewrite E, bool_decide_true by eauto.
  simpl. rewrite E, Hr. simpl. rewrite E.
  by destruct (disk_writable s).
Qed.

(** So is a file of text that is no JSON. *)
Lemma cache_get_not_json key s f :
  files s !! SimpleCache._get_cache_path key = Some f →
  readable f = true →
  as_json (data f) = None →
  decodes_as_text (bytes (data f)) = true →
  SimpleCache.get key s
  = if disk_writable s
    then (Ok JNull, with_files (delete (SimpleCache._get_cache_path key) (files s))
                      (after_get key s))
    else (Raise IOError, after_get key s).
Proof.
  intros E Hr Hj Ht. run_monad. rewrite E, bool_decide_true by eauto.
  simpl. rewrite E, Hr, Hj, Ht. simpl. rewrite E.
  by destruct (disk_writable s).
Qed.

(** A file whose bytes are no text is left where it is: [get] raises. *)
Lemma cache_get_not_text key s f :
  files s !! SimpleCache._get_cache_path key = Some f →
  readable f = true →
  as_json (data f) = None →
  decodes_as_text (bytes (data f)) = false →
  SimpleCache.get key s = (Raise UnicodeDecodeError, after_get key s).
Proof.
  intros E Hr Hj Ht. run_monad. rewrite E, bool_decide_true by eauto.
  simpl. by rewrite E, Hr, Hj, Ht.
Qed.

Lemma cache_get_not_a_dict key s f j :
  files s !! SimpleCache._get_cache_path key = Some f →
  readable f = true →
  as_json (data f) = Some j →
  (∀ members, j ≠ JObj members) →
  SimpleCache.get key s = (Raise AttributeError, after_get key s).
Proof.
  intros E Hr Hj Hn. run_monad. rewrite E, bool_decide_true by eauto.
  simpl. rewrite E, Hr, Hj.
  destruct j; try done. by destruct (Hn members).
Qed.

Lemma cache_get_record key s f members expired :
  files s !! SimpleCache._get_cache_path key = Some f →
  readable f = true →
  as_json (data f) = Some (JObj members) →
  float_gt (clock s) (default (JInt 0) (assoc "expires_at" members)) = Ok expired →
  SimpleCache.get key s
  = if expired
    then if disk_writable s
         then (Ok JNull,
               with_files (delete (SimpleCache._get_cache_path key) (files s))
                 (after_get key s))
         else (Raise IOError, after_get key s)
    else (Ok (default JNull (assoc "value" members)), after_get key s).
Proof.
  intros E Hr Hj Hx. run_monad. rewrite E, bool_decide_true by eauto.
  simpl. rewrite E, Hr, Hj. simpl. rewrite Hx.
  destruct expired; simpl; [|done]. rewrite E.
  destruct (disk_writable s) eqn:Hw; simpl; [done|]. by rewrite E, Hw.
Qed.

Lemma cache_get_bad_expiry key s f members :
  files s !! SimpleCache._get_cache_path key = Some f →
  readable f = true →
  as_json (data f) = Some (JObj members) →
  float_gt (clock s) (default (JInt 0) (assoc "expires_at" members)) = Raise TypeError →
  SimpleCache.get key s = (Raise TypeError, after_get key s).
Proof.
  intros E Hr Hj Hx. run_monad. rewrite E, bool_decide_true by eauto.
  simpl. rewrite E, Hr, Hj. simpl. by rewrite Hx.
Qed.

Lemma cache_set_written key value ttl s :
  disk_writable s = true →
  SimpleCache.set key value ttl s
  = (Ok tt,
     with_files
       (<[SimpleCache._get_cache_path key :=
            File true (clock s)
              (blob_of_json (SimpleCache.entry value (clock s + ttl)))]> (files s))
       (after_set key s)).
Proof. intros E. run_monad. by rewrite E. Qed.

Lemma cache_set_unwritable key value ttl s :
  disk_writable s = false →
  SimpleCache.set key value ttl s = (Ok tt, after_set key s).
Proof. intros E. run_monad. by rewrite E. Qed.

(** Making a directory: nothing happens where it is there, it is made with
    those above it where the disk takes writes, and [OSError] is raised
    otherwise. *)
Lemma mkdir_parents_run d s :
  mkdir_parents d s
  = if can_mkdir d s then (Ok tt, after_mkdir d s) else (Raise IOError, s).
Proof.
  unfold mkdir_parents, can_mkdir, after_mkdir, gets, modify, raise, mbind,
    M_bind, mret, M_ret.
  destruct (bool_decide (d ∈ dirs s)); simpl; [done|].
  by destruct (disk_writable s).
Qed.

End CacheSteps.

Lemma Qltb_true (x y : Q) : (x < y)%Q → Qltb x y = true.
Proof.
  intros Hlt. unfold Qltb. destruct (Qle_bool y x) eqn:E; [|done].
  apply Qle_bool_iff in E. lra.
Qed.

Lemma Qltb_false (x y : Q) : (y <= x)%Q → Qltb x y = false.
Proof. intros Hle. unfold Qltb. apply Qle_bool_iff in Hle. by rewrite Hle. Qed.

Section Claims.
Context `{Runtime}.

(** A value other than [None] that the cache returns is what the fetch
    answers with. *)
Lemma get_served_from_cache self over url hdrs params s payload s1 :
  SECHttpClient.enable_cache self = true →
  SimpleCache.get (SECHttpClient.cache_key url params) s = (Ok payload, s1) →
  payload ≠ JNull →
  SECHttpClient.get self over url hdrs params true s
    = (Ok (SECHttpClient.mock_response payload), s1).
Proof.
  intros He Hg Hn.
  unfold SECHttpClient.get, SECHttpClient.cache_lookup. rewrite He. simpl.
  rewrite (bind_ok _ _ _ (Some (SECHttpClient.mock_response payload)) s1);
    [done|].
  erewrite bind_ok by exact Hg. by destruct payload.
Qed.

(** C8. A [download] with [use_cache] to a destination that exists returns
    the absolute destination at once, whatever the file holds or however old
    it is, and leaves the whole state as it was: the limiter records no
    admission and nothing goes on the wire. *)
Theorem download_existing_is_immediate self over url dest_path f s :
  files s !! dest_path = Some f →
  SECHttpClient.download self over url dest_path true s
    = (Ok (path_absolute dest_path), s).
Proof.
  intros E. unfold SECHttpClient.download, path_exists, gets, mbind, M_bind.
  rewrite E, bool_decide_true by eauto. done.
Qed.

(** C9. A fetch with [use_cache=false] neither reads nor writes the cache:
    the files are the same before and after, and the call enters neither
    [SimpleCache.get] nor [SimpleCache.set], whatever the cache held and
    however the request ends. *)
Theorem fetch_uncached_leaves_cache self over url hdrs params s :
  files (SECHttpClient.get self over url hdrs params false s).2 = files s
  ∧ cache_events (SECHttpClient.get self over url hdrs params false s).2
    = cache_events s.
Proof.
  destruct (SECHttpClient.get self over url hdrs params false s)
    as [r s'] eqn:E. simpl. split.
  - revert E. apply (preserves_get (keeps files)); by intros.
  - revert E. apply (preserves_get (keeps cache_events));
      intros; try done; intros ?; unfold keeps, cache_events; simpl;
      try done; by apply filter_snoc_false.
Qed.

(** C3, as the code has it.  After [set key value ttl] on a writable disk, a
    [get key] made [elapsed] later returns [value] and keeps the entry when
    [elapsed <= ttl]; it returns nothing and deletes the entry when
    [elapsed > ttl].  An entry exactly [ttl] old is still served. *)
Theorem cache_read_after_write key value ttl elapsed s :
  disk_writable s = true →
  ((elapsed <= ttl)%Q →
     ((SimpleCache.set key value ttl;; elapse elapsed;; SimpleCache.get key) s).1
       = Ok value
     ∧ is_Some (files ((SimpleCache.set key value ttl;; elapse elapsed;;
                         SimpleCache.get key) s).2
                !! SimpleCache._get_cache_path key))
  ∧ ((ttl < elapsed)%Q →
     ((SimpleCache.set key value ttl;; elapse elapsed;; SimpleCache.get key) s).1
       = Ok JNull
     ∧ files ((SimpleCache.set key value ttl;; elapse elapsed;;
                SimpleCache.get key) s).2
         !! SimpleCache._get_cache_path key = None).
Proof.
  intros Hw.
  rewrite (bind_ok _ _ _ _ _ (cache_set_written key value ttl s Hw)).
  erewrite bind_ok by reflexivity.
  match goal with |- context [SimpleCache.get key ?s2] => set (s2' := s2) end.
  assert (Hf : files s2' !! SimpleCache._get_cache_path key
               = Some (File true (clock s)
                         (blob_of_json (SimpleCache.entry value (clock s + ttl))))).
  { unfold s2'. simpl. apply lookup_insert_eq. }
  assert (Hc : clock s2' = (clock s + elapsed)%Q) by done.
  assert (Hw2 : disk_writable s2' = true) by done.
  clearbody s2'. split; intros Hcmp.
  - rewrite (cache_get_record key s2' _ _ false Hf eq_refl eq_refl).
    + simpl. split; [done | by rewrite Hf].
    + simpl. rewrite Hc. f_equal. apply Qltb_false. lra.
  - rewrite (cache_get_record key s2' _ _ true Hf eq_refl eq_refl).
    + rewrite Hw2. simpl. split; [done | apply lookup_delete_eq].
    + simpl. rewrite Hc. f_equal. apply Qltb_true. lra.
Qed.

(** C7, for a payload other than [None].  With [use_cache] and the cache
    enabled, a readable entry for the request's key whose [expires_at] is a
    number not yet passed and whose [value] is not [None] is served as a
    made-up response built from that value: nothing is sent, the limiter's
    timestamps stay as they were, and no file changes.  *)
Theorem fetch_hit_spares_network_and_limiter
    self over url hdrs params s f members payload :
  SECHttpClient.enable_cache self = true →
  files s !! SimpleCache._get_cache_path (SECHttpClient.cache_key url params) = Some f →
  readable f = true →
  as_json (data f) = Some (JObj members) →
  float_gt (clock s) (default (JInt 0) (assoc "expires_at" members)) = Ok false →
  assoc "value" members = Some payload →
  payload ≠ JNull →
  (SECHttpClient.get self over url hdrs params true s).1
    = Ok (SECHttpClient.mock_response payload)
  ∧ sent (SECHttpClient.get self over url hdrs params true s).2 = sent s
  ∧ pending (SECHttpClient.get self over url hdrs params true s).2 = pending s
  ∧ request_times (SECHttpClient.get self over url hdrs params true s).2
    = request_times s
  ∧ admissions (SECHttpClient.get self over url hdrs params true s).2
    = admissions s
  ∧ files (SECHttpClient.get self over url hdrs params true s).2 = files s.
Proof.
  intros He Hf Hr Hj Hx Hv Hn.
  rewrite (get_served_from_cache self over url hdrs params s payload
             (after_get (SECHttpClient.cache_key url params) s)); try done.
  - simpl. unfold sent, admissions. simpl.
    by rewrite !filter_snoc_false.
  - rewrite (cache_get_record _ _ _ _ false Hf Hr Hj Hx). by rewrite Hv.
Qed.

(** C10. A fetch served from the cache returns status [200], the single
    header [Content-Type: application/json] and, as body, [json.dumps] of the
    cached payload.  Nothing else of the response that was cached comes
    back: the made-up response is a function of the payload alone. *)
Theorem cached_response_shape self over url hdrs params s payload s1 :
  SECHttpClient.enable_cache self = true →
  SimpleCache.get (SECHttpClient.cache_key url params) s = (Ok payload, s1) →
  payload ≠ JNull →
  SECHttpClient.get self over url hdrs params true s
    = (Ok (SECHttpClient.mock_response payload), s1)
  ∧ status_code (SECHttpClient.mock_response payload) = 200%Z
  ∧ headers (SECHttpClient.mock_response payload)
    = [("Content-Type", "application/json")]
  ∧ bytes (content (SECHttpClient.mock_response payload))
    = json_dumps false payload.
Proof.
  intros He Hg Hn. split; [|done]. by apply get_served_from_cache.
Qed.

End Claims.

(** ** Case-insensitive header dictionaries *)

Lemma ci_get_set k k' v d :
  ci_get k (ci_set k' v d)
  = if String.eqb (lower k') (lower k) then Some v else ci_get k d.
Proof.
  induction d as [|[k0 v0] d IH]; simpl.
  - done.
  - destruct (String.eqb (lower k0) (lower k')) eqn:E0; simpl.
    + apply String.eqb_eq in E0. rewrite E0.
      by destruct (String.eqb (lower k') (lower k)).
    + rewrite IH. destruct (String.eqb (lower k0) (lower k)) eqn:E1; [|done].
      apply String.eqb_eq in E1. rewrite <- E1.
      rewrite String.eqb_sym in E0. by rewrite E0.
Qed.

Lemma ci_get_snoc k d x :
  ci_get k (d ++ [x])
  = match ci_get k d with
    | Some v => Some v
    | None => if String.eqb (lower x.1) (lower k) then Some x.2 else None
    end.
Proof.
  induction d as [|[k0 v0] d IH]; simpl.
  - by destruct x.
  - by destruct (String.eqb (lower k0) (lower k)).
Qed.

(** After [d.update(new)] a key reads as its last setting in [new], and as
    before when [new] does not set it. *)
Lemma ci_get_update k new d :
  ci_get k (ci_update d new)
  = match ci_get k (rev new) with
    | Some v => Some v
    | None => ci_get k d
    end.
Proof.
  unfold ci_update. revert d. induction new as [|x new IH]; intros d; simpl.
  - done.
  - rewrite IH, ci_get_snoc, ci_get_set.
    destruct (ci_get k (rev new)); [done|].
    by destruct (String.eqb (lower x.1) (lower k)).
Qed.

Lemma ci_set_keys_old k v d :
  lower k ∈ map (λ kv, lower kv.1) d →
  map (λ kv, lower kv.1) (ci_set k v d) = map (λ kv, lower kv.1) d.
Proof.
  induction d as [|[k0 v0] d IH]; simpl; intros Hin.
  - by apply elem_of_nil in Hin.
  - destruct (String.eqb (lower k0) (lower k)) eqn:E0; simpl.
    + apply String.eqb_eq in E0. by rewrite E0.
    + apply String.eqb_neq in E0. rewrite IH; [done|].
      apply elem_of_cons in Hin as [?|?]; [congruence | done].
Qed.

Lemma ci_set_keys_new k v d :
  lower k ∉ map (λ kv, lower kv.1) d →
  map (λ kv, lower kv.1) (ci_set k v d) = map (λ kv, lower kv.1) d ++ [lower k].
Proof.
  induction d as [|[k0 v0] d IH]; simpl; intros Hnin; [done|].
  apply not_elem_of_cons in Hnin as [Hne Hnin].
  destruct (String.eqb (lower k0) (lower k)) eqn:E0; simpl.
  - apply String.eqb_eq in E0. congruence.
  - by rewrite IH.
Qed.

Lemma ci_set_wf k v d : ci_wf d → ci_wf (ci_set k v d).
Proof.
  unfold ci_wf. intros Hd.
  destruct (decide (lower k ∈ map (λ kv, lower kv.1) d)) as [Hin|Hnin].
  - by rewrite ci_set_keys_old.
  - rewrite ci_set_keys_new by done.
    apply NoDup_app. split_and!; [done| |apply NoDup_singleton].
    intros x Hx Hx'. apply list_elem_of_singleton in Hx'. by subst.
Qed.

Lemma ci_update_wf d new : ci_wf d → ci_wf (ci_update d new).
Proof.
  unfold ci_update. revert d. induction new as [|x new IH]; intros d Hd; simpl.
  - done.
  - apply IH. by apply ci_set_wf.
Qed.

Lemma ci_get_unset k d :
  lower k ∉ map (λ kv, lower kv.1) d → ci_get k d = None.
Proof.
  induction d as [|[k0 v0] d IH]; simpl; intros Hnin; [done|].
  destruct (String.eqb (lower k0) (lower k)) eqn:E0.
  - apply String.eqb_eq in E0. destruct Hnin. rewrite E0. apply list_elem_of_here.
  - apply IH. intros Hin. apply Hnin. by apply list_elem_of_further.
Qed.

(** In a dictionary the first and the last entry for a key are the same. *)
Lemma ci_get_rev k d : ci_wf d → ci_get k (rev d) = ci_get k d.
Proof.
  unfold ci_wf. induction d as [|[k0 v0] d IH]; simpl; intros Hd; [done|].
  apply NoDup_cons in Hd as [Hk0 Hd]. rewrite ci_get_snoc, IH by done. simpl.
  destruct (String.eqb (lower k0) (lower k)) eqn:E0; [|by destruct (ci_get k d)].
  apply String.eqb_eq in E0. rewrite ci_get_unset; [done|]. by rewrite <- E0.
Qed.

(** Taking a key out leaves the others as they read. *)
Lemma ci_get_pop k k' d :
  lower k' ≠ lower k → ci_get k (ci_pop k' d) = ci_get k d.
Proof.
  intros Hne. induction d as [|[k0 v0] d IH]; simpl; [done|].
  destruct (String.eqb (lower k0) (lower k')) eqn:E0; simpl.
  - apply String.eqb_eq in E0. rewrite IH.
    destruct (String.eqb (lower k0) (lower k)) eqn:E1; [|done].
    apply String.eqb_eq in E1. congruence.
  - by rewrite IH.
Qed.

Lemma ci_get_pop_same k d : ci_get k (ci_pop k d) = None.
Proof.
  induction d as [|[k0 v0] d IH]; simpl; [done|].
  destruct (String.eqb (lower k0) (lower k)) eqn:E0; simpl; [done|].
  by rewrite E0.
Qed.

(** A redirect leaves the [User-Agent] of a request as it is. *)
Lemma redirect_headers_user_agent strip_auth status d :
  ci_get "User-Agent" (redirect_headers strip_auth status d)
  = ci_get "User-Agent" d.
Proof.
  unfold redirect_headers.
  destruct strip_auth, (mem_Z status [307; 308]%Z);
    by rewrite !ci_get_pop by done.
Qed.

#[local] Arguments ci_update : simpl never.

Section Headers.
Context `{Runtime}.

Lemma follows_user_agent req req' :
  follows req req' →
  ci_get "User-Agent" (req_headers req') = ci_get "User-Agent" (req_headers req).
Proof.
  induction 1 as [|req' r location _ IH]; [done|].
  simpl. by rewrite redirect_headers_user_agent.
Qed.

Lemma follows_trans req1 req2 req3 :
  follows req1 req2 → follows req2 req3 → follows req1 req3.
Proof.
  intros H12 H23. induction H23 as [|req3 r location _ IH]; [done|].
  by apply follows_step.
Qed.

(** What [__init__] builds. *)
Lemma init_inv ua C tmo ttl ec self :
  SECHttpClient.init ua C tmo ttl ec = Ok self →
  self = SECHttpClient.mk ua tmo ttl ec (RateLimiter.mk C (1 / C))
           (mkRetry 3 1 [429; 500; 502; 503; 504]%Z ["GET"; "HEAD"])
           (ci_update default_headers
              [("User-Agent", ua);
               ("Accept", "application/json, text/html, */*");
               ("Accept-Encoding", "gzip, deflate")])
  ∧ Qeq_bool C 0 = false.
Proof.
  unfold SECHttpClient.init, RateLimiter.init.
  destruct (Qeq_bool C 0); [done|]. intros E. by injection E as <-.
Qed.

(** The headers put on the wire carry the [User-Agent] of [user_agent_sent]. *)
Lemma wire_request_user_agent ua C tmo ttl ec self url hdrs params :
  ci_wf default_headers →
  SECHttpClient.init ua C tmo ttl ec = Ok self →
  ci_get "User-Agent" (req_headers (wire_request self url hdrs params))
  = Some (user_agent_sent ua hdrs).
Proof.
  intros Hwf Hinit. apply init_inv in Hinit as [-> _].
  unfold wire_request, SECHttpClient.prepare_request. simpl.
  set (sess := ci_update default_headers _).
  assert (Hsess : ci_wf sess) by (by apply ci_update_wf).
  assert (Hua : ci_get "User-Agent" sess = Some ua).
  { unfold sess. by rewrite ci_get_update. }
  rewrite ci_get_update, ci_get_rev by (by apply ci_update_wf).
  rewrite ci_get_update, Hua. unfold user_agent_sent.
  by destruct (ci_get "User-Agent" (rev (default [] hdrs))).
Qed.

End Headers.

Lemma logs_ignores (P : event → Prop) (f : state → state) :
  (∀ s, trace (f s) = trace s) → ∀ s, logs P s (f s).
Proof. intros Hf s. exists []. by rewrite Hf, app_nil_r. Qed.

Lemma logs_accepts (P : event → Prop) e : P e → accepts (logs P) e.
Proof. intros He s. exists [e]. split; [done | by constructor]. Qed.

Lemma logs_ignores_clock P : ignores_clock (logs P).
Proof. intros s t. by apply (logs_ignores P (with_clock t)). Qed.

Lemma logs_ignores_request_times P : ignores_request_times (logs P).
Proof. intros s l. by apply (logs_ignores P (with_request_times l)). Qed.

Lemma logs_ignores_pending P : ignores_pending (logs P).
Proof. intros s l. by apply (logs_ignores P (with_pending l)). Qed.

Lemma logs_ignores_files P : ignores_files (logs P).
Proof. intros s fs. by apply (logs_ignores P (with_files fs)). Qed.

Lemma logs_ignores_dirs P : ignores_dirs (logs P).
Proof. intros s ds. by apply (logs_ignores P (with_dirs ds)). Qed.

Create HintDb frame.
#[global] Hint Resolve logs_ignores_clock logs_ignores_request_times
  logs_ignores_pending logs_ignores_files logs_ignores_dirs : frame.

Lemma ci_get_Some k d v :
  ci_get k d = Some v → ∃ k', (k', v) ∈ d ∧ lower k' = lower k.
Proof.
  induction d as [|[k0 v0] d IH]; simpl; [done|].
  destruct (String.eqb (lower k0) (lower k)) eqn:E0.
  - intros [= ->]. apply String.eqb_eq in E0. exists k0.
    split; [apply list_elem_of_here | done].
  - intros Hd. destruct (IH Hd) as (k' & Hin & Hk). exists k'.
    split; [by apply list_elem_of_further | done].
Qed.

Section HeaderClaim.
Context `{Runtime}.

(** C5, as the code has it.  Every request a fetch puts on the wire carries
    a [User-Agent] header: merging never removes it.  Its value is the one
    the caller passes under any capitalisation of the name, and the client's
    own otherwise; so it is non-empty whenever the client's is and the caller
    passes no empty one.  A caller who passes an empty [User-Agent] gets it
    sent as such. *)
Theorem fetch_sends_user_agent ua C tmo ttl ec self over url hdrs params use_cache s :
  ci_wf default_headers →
  SECHttpClient.init ua C tmo ttl ec = Ok self →
  logs (λ e, is_sent e = true →
             sent_header "User-Agent" e = Some (user_agent_sent ua hdrs))
    s (SECHttpClient.get self over url hdrs params use_cache s).2
  ∧ (ua ≠ EmptyString →
     (∀ k v, (k, v) ∈ default [] hdrs → lower k = "user-agent" → v ≠ EmptyString) →
     user_agent_sent ua hdrs ≠ EmptyString).
Proof.
  intros Hwf Hinit. split.
  - destruct (SECHttpClient.get self over url hdrs params use_cache s)
      as [r s'] eqn:E. simpl. revert E.
    match goal with |- _ → logs ?P _ _ => apply (preserves_get (logs P)) end;
      auto with frame; try (intros; by apply logs_accepts).
    + intros req Hreq. apply logs_accepts. intros _. simpl.
      rewrite (follows_user_agent _ _ Hreq).
      exact (wire_request_user_agent ua C tmo ttl ec self url hdrs params Hwf Hinit).
    + intros _. split_and!; auto with frame; by apply logs_accepts.
  - intros Hua Hcaller. unfold user_agent_sent.
    destruct (ci_get "User-Agent" (rev (default [] hdrs))) as [v|] eqn:E; [|done].
    apply ci_get_Some in E as (k & Hin & Hk). simpl.
    apply (Hcaller k v); [|done].
    apply list_elem_of_In, in_rev. by apply list_elem_of_In.
Qed.

End HeaderClaim.

(** ** Cache keys *)

Lemma NoDup_fmap_eq {A B : Type} (f : A → B) (l : list A) x y :
  NoDup (f <$> l) → x ∈ l → y ∈ l → f x = f y → x = y.
Proof.
  induction l as [|a l IH]; simpl; intros Hnd Hx Hy Hf.
  - by apply elem_of_nil in Hx.
  - apply NoDup_cons in Hnd as [Ha Hnd].
    apply elem_of_cons in Hx as [->|Hx]; apply elem_of_cons in Hy as [->|Hy].
    + done.
    + destruct Ha. rewrite Hf. by apply list_elem_of_fmap_2.
    + destruct Ha. rewrite <- Hf. by apply list_elem_of_fmap_2.
    + by apply IH.
Qed.

#[global] Instance item_le_trans : Transitive item_le.
Proof. intros x y z. unfold item_le. apply transitivity. Qed.

#[global] Instance item_le_total : Total item_le.
Proof. intros x y. unfold item_le. apply (stdpp.base.total String.le). Qed.

(** Sorting by key forgets the order the items came in, as long as no key
    occurs twice. *)
Lemma sorted_items_unique (l1 l2 : list (string * string)) :
  NoDup l1.*1 → l1 ≡ₚ l2 → merge_sort item_le l1 = merge_sort item_le l2.
Proof.
  intros Hnd Hp. apply (Sorted_unique_strong item_le).
  - intros x1 x2 Hx1 Hx2 H12 H21.
    rewrite merge_sort_Permutation in Hx1.
    rewrite merge_sort_Permutation, <- Hp in Hx2.
    apply (NoDup_fmap_eq fst l1); [done..|].
    by apply (anti_symm String.le).
  - apply Sorted_merge_sort, _.
  - apply Sorted_merge_sort, _.
  - by rewrite !merge_sort_Permutation.
Qed.

Section KeyClaim.
Context `{Runtime}.

(** C6. Two parameter dicts that are equal as maps, in whatever order their
    items were inserted, give the same cache key and so the same cache
    file. *)
Theorem cache_key_order_independent url (p1 p2 : list (string * json)) :
  NoDup p1.*1 → NoDup p2.*1 →
  (list_to_map p1 : gmap string json) = list_to_map p2 →
  SECHttpClient.cache_key url (Some p1) = SECHttpClient.cache_key url (Some p2)
  ∧ SimpleCache._get_cache_path (SECHttpClient.cache_key url (Some p1))
    = SimpleCache._get_cache_path (SECHttpClient.cache_key url (Some p2)).
Proof.
  intros Hn1 Hn2 Hm.
  assert (Hp : p1 ≡ₚ p2) by (by apply (list_to_map_inj (M:=gmap string))).
  assert (Hk : SECHttpClient.cache_key url (Some p1)
               = SECHttpClient.cache_key url (Some p2)); [|by rewrite Hk].
  unfold SECHttpClient.cache_key. simpl.
  set (render := λ kv : string * json, let (k, v) := kv in (k, json_dumps true v)).
  rewrite (sorted_items_unique (map render p1) (map render p2)); [done| |].
  - replace ((map render p1).*1) with (p1.*1); [done|].
    clear. induction p1 as [|[k v] p IH]; [done|].
    change ((k :: p.*1) = k :: (map render p).*1). by rewrite IH.
  - by apply fmap_Permutation.
Qed.

End KeyClaim.

(** ** The retry loop *)



Lemma sends_at_most_keeps k s1 s2 s3 :
  keeps attempts s1 s2 → sends_at_most k s2 s3 → sends_at_most k s1 s3.
Proof. unfold keeps, sends_at_most. lia. Qed.

Lemma sends_at_most_then_keeps k s1 s2 s3 :
  sends_at_most k s1 s2 → keeps attempts s2 s3 → sends_at_most k s1 s3.
Proof. unfold keeps, sends_at_most. lia. Qed.

Lemma keeps_sends_at_most k s1 s2 : keeps attempts s1 s2 → sends_at_most k s1 s2.
Proof. unfold keeps, sends_at_most. lia. Qed.

Lemma attempts_snoc_sent s req :
  attempts (with_trace (trace s ++ [Sent req]) s) = S (attempts s).
Proof.
  unfold attempts, sent. simpl. rewrite filter_snoc_true by done.
  rewrite length_app. simpl. lia.
Qed.

(** Projections of the state that no event but a [Sent] can change. *)
Lemma keeps_attempts_ignores_clock : ignores_clock (keeps attempts).
Proof. by intros s t. Qed.
Lemma keeps_attempts_ignores_request_times : ignores_request_times (keeps attempts).
Proof. by intros s l. Qed.
Lemma keeps_attempts_ignores_pending : ignores_pending (keeps attempts).
Proof. by intros s l. Qed.
Lemma keeps_attempts_ignores_files : ignores_files (keeps attempts).
Proof. by intros s l. Qed.

Lemma keeps_net_ignores_clock : ignores_clock (keeps net).
Proof. by intros s t. Qed.
Lemma keeps_net_ignores_request_times : ignores_request_times (keeps net).
Proof. by intros s l. Qed.
Lemma keeps_net_ignores_files : ignores_files (keeps net).
Proof. by intros s l. Qed.
Lemma keeps_net_accepts e : is_sent e = false → accepts (keeps net) e.
Proof.
  intros He s. unfold keeps, net, sent. simpl. by rewrite filter_snoc_false.
Qed.

#[global] Hint Resolve keeps_attempts_ignores_clock
  keeps_attempts_ignores_request_times keeps_attempts_ignores_pending
  keeps_attempts_ignores_files keeps_net_ignores_clock
  keeps_net_ignores_request_times keeps_net_ignores_files : frame.

Section RetryLoop.
Context `{Runtime}.




End RetryLoop.

Section Attempts.
Context `{Runtime}.















Lemma transmit_answer req s rep rest :
  pending s = rep :: rest →
  ∃ s1, transmit req s = (Ok rep, s1) ∧ pending s1 = rest
        ∧ attempts s1 = S (attempts s).
Proof.
  intros Hp. unfold transmit, emit, gets, modify, mbind, M_bind, mret, M_ret.
  simpl. rewrite Hp. eexists. split; [done|].
  split; [done | apply attempts_snoc_sent].
Qed.


Lemma urlopen_done policy over left errors req s r rest :
  pending s = Answer r :: rest →
  is_retry policy left (req_method req) r = false →
  ∃ s1, urlopen policy over left errors req s = (Ok r, s1)
        ∧ pending s1 = rest ∧ attempts s1 = S (attempts s).
Proof.
  intros Hp Hr. destruct (transmit_answer req s _ _ Hp) as (s1 & E1 & Hp1 & Ha1).
  exists s1. destruct left; simpl; by rewrite (bind_ok _ _ _ _ _ E1), Hr.
Qed.



(** The request of a redirect chain that gets a reply which is none. *)
Lemma send_final policy over redirects req s r s1 :
  urlopen policy over (total policy) 0 req s = (Ok r, s1) →
  final r →
  send policy over redirects req s = (Ok r, s1).
Proof.
  intros E Hfin. unfold final in Hfin.
  destruct redirects; simpl; by rewrite (bind_ok _ _ _ _ _ E), Hfin.
Qed.



(** A reply of status [200] is no redirect. *)
Lemma final_success r : status_code r = 200%Z → final r.
Proof. intros Hs. unfold final, redirect_target. by rewrite Hs. Qed.

End Attempts.

(** ** The limiter always returns *)

Lemma wait_if_needed_ok self over s :
  (0 < RateLimiter.max_rps self)%Q →
  (RateLimiter.wait_if_needed self over s).1 = Ok tt.
Proof.
  intros HC.
  unfold RateLimiter.wait_if_needed, RateLimiter.drop_old, RateLimiter.front,
    RateLimiter.append, time_time, time_sleep, emit, gets, modify, mbind, M_bind,
    mret, M_ret.
  simpl. destruct (Qle_bool _ _) eqn:E; [|done].
  destruct (RateLimiter.purge (clock s) (request_times s)) as [|t0 l]; simpl.
  - apply Qle_bool_iff in E. cbv [length Z.of_nat inject_Z] in E.
    exfalso. lra.
  - by destruct (Qltb _ _).
Qed.

Section Scenarios.
Context `{Runtime}.

Lemma wait_if_needed_run self over s :
  (0 < RateLimiter.max_rps self)%Q →
  ∃ s1, RateLimiter.wait_if_needed self over s = (Ok tt, s1)
        ∧ keeps net s s1 ∧ keeps files s s1.
Proof.
  intros HC. destruct (RateLimiter.wait_if_needed self over s) as [res s1] eqn:E.
  pose proof (wait_if_needed_ok self over s HC) as Hok.
  rewrite E in Hok. simpl in Hok. subst res. exists s1. split; [done|]. split.
  - revert E. apply (preserves_wait_if_needed (keeps net)); auto with frame;
      intros; by apply keeps_net_accepts.
  - revert E. by apply (preserves_wait_if_needed (keeps files)).
Qed.

(** A fetch that does not find its answer in the cache goes on, through the
    limiter, to the request, with the network as it found it. *)
Lemma get_through_network self over url hdrs params use_cache s :
  (0 < RateLimiter.max_rps (SECHttpClient.rate_limiter self))%Q →
  bypasses_cache self url params use_cache s →
  ∃ s0, keeps net s s0
        ∧ SECHttpClient.get self over url hdrs params use_cache s
          = SECHttpClient.request_and_store self over url hdrs params use_cache s0.
Proof.
  intros HC Hby.
  assert (∃ sa, SECHttpClient.cache_lookup self url params use_cache s = (Ok None, sa)
                ∧ keeps net s sa) as (sa & Ea & Hka).
  { unfold SECHttpClient.cache_lookup.
    destruct (use_cache && SECHttpClient.enable_cache self) eqn:Eu.
    - destruct Hby as [?|Hnone]; [congruence|]. eexists. split.
      + by rewrite (bind_ok _ _ _ _ _ (cache_get_absent _ _ Hnone)).
      + unfold keeps, net, sent, after_get. simpl.
        by rewrite filter_snoc_false.
    - exists s. done. }
  destruct (wait_if_needed_run (SECHttpClient.rate_limiter self) over sa HC)
    as (s0 & E0 & Hk0 & _).
  exists s0. split; [by etransitivity|].
  unfold SECHttpClient.get.
  by rewrite (bind_ok _ _ _ _ _ Ea), (bind_ok _ _ _ _ _ E0).
Qed.

(** Storing a reply in the cache returns, whatever the body and the disk. *)
Lemma store_run self url params use_cache response s :
  ∃ s1,
    (if use_cache && SECHttpClient.enable_cache self
        && (status_code response =? 200)%Z
     then
       try_except
         (json_data ← response_json response;
          SimpleCache.set (SECHttpClient.cache_key url params) json_data
            (SECHttpClient.cache_ttl self))
         (λ e, match e with
               | JSONDecodeError | UnicodeDecodeError => Some (mret tt)
               | _ => None
               end)
     else mret tt) s = (Ok tt, s1)
    ∧ keeps net s s1.
Proof.
  destruct (_ && _); [|by exists s].
  unfold response_json, try_except, mbind, M_bind.
  destruct (as_json (content response)) as [j|]; simpl; [|by exists s].
  destruct (disk_writable s) eqn:Ew.
  - rewrite cache_set_written by done. eexists. split; [done|].
    unfold keeps, net, sent, after_set. simpl. by rewrite filter_snoc_false.
  - rewrite cache_set_unwritable by done. eexists. split; [done|].
    unfold keeps, net, sent, after_set. simpl. by rewrite filter_snoc_false.
Qed.

(** How [request_and_store] ends once the adapter has the final reply. *)
Lemma request_and_store_reply self over url hdrs params use_cache s response s1 :
  SECHttpClient.session_get self over url
    (Some (ci_update (SECHttpClient.session_headers self) (default [] hdrs)))
    params false s = (Ok response, s1) →
  ∃ s2, keeps net s1 s2
        ∧ SECHttpClient.request_and_store self over url hdrs params use_cache s
          = (if ((400 <=? status_code response) && (status_code response <? 600))%Z
             then Raise (RequestFailed (HTTPError (status_code response)))
             else Ok response, s2).
Proof.
  intros E. unfold SECHttpClient.request_and_store, try_except.
  rewrite (bind_ok _ _ _ _ _ E). unfold raise_for_status.
  destruct ((400 <=? status_code response) && (status_code response <? 600))%Z
    eqn:Es.
  - exists s1. split; [done|].
    by rewrite (bind_raise _ _ _
                  (RequestException (HTTPError (status_code response))) s1).
  - destruct (store_run self url params use_cache response s1) as (s2 & E2 & Hk).
    exists s2. split; [done|].
    erewrite bind_ok by reflexivity. by rewrite (bind_ok _ _ _ _ _ E2).
Qed.


End Scenarios.

(** ** What the mounted policy retries *)







Lemma is_retry_success left r :
  status_code r = 200%Z → is_retry mounted_policy left "GET" r = false.
Proof.
  intros Hs. unfold is_retry.
  cbn [mounted_policy allowed_methods status_forcelist]. rewrite Hs.
  by destruct (negb _), (has_retry_after r).
Qed.


Section RetryClaim.
Context `{Runtime}.

Lemma init_policy ua C tmo ttl ec self :
  SECHttpClient.init ua C tmo ttl ec = Ok self →
  SECHttpClient.retry_strategy self = mounted_policy
  ∧ (RateLimiter.max_rps (SECHttpClient.rate_limiter self) = C).
Proof. intros Hinit. by apply init_inv in Hinit as [-> _]. Qed.

(** The adapter's loop on the first replies of the origin, for a client as
    [__init__] builds it: a reply that is not retried ends it, a fourth
    transient one exhausts it. *)
Lemma session_get_first self over url hdrs params stream s r rest :
  SECHttpClient.retry_strategy self = mounted_policy →
  pending s = Answer r :: rest →
  is_retry mounted_policy 3 "GET" r = false →
  final r →
  ∃ s1, SECHttpClient.session_get self over url hdrs params stream s = (Ok r, s1)
        ∧ pending s1 = rest ∧ attempts s1 = attempts s + 1.
Proof.
  intros Hpol Hp Hr Hfin. unfold SECHttpClient.session_get. rewrite Hpol.
  destruct (urlopen_done mounted_policy over 3 0
              (SECHttpClient.prepare_request self url hdrs params stream)
              s r rest Hp Hr) as (s1 & E1 & Hp1 & Ha1).
  exists s1. rewrite (send_final _ _ _ _ _ _ _ E1 Hfin).
  split_and!; [done | done | lia].
Qed.






End RetryClaim.

Lemma keeps_net_inv s s' :
  keeps net s s' → pending s' = pending s ∧ attempts s' = attempts s.
Proof.
  unfold keeps, net, attempts. intros E. injection E as Hp Hs. by rewrite Hs.
Qed.

Section GetOutcomes.
Context `{Runtime}.

(** A fetch that goes to the network ends as the adapter's loop ends. *)
Lemma get_reply self over url hdrs params use_cache s response rest k :
  (0 < RateLimiter.max_rps (SECHttpClient.rate_limiter self))%Q →
  bypasses_cache self url params use_cache s →
  (∀ s0, pending s0 = pending s →
     ∃ s1, SECHttpClient.session_get self over url
             (Some (ci_update (SECHttpClient.session_headers self) (default [] hdrs)))
             params false s0 = (Ok response, s1)
           ∧ pending s1 = rest ∧ attempts s1 = attempts s0 + k) →
  (SECHttpClient.get self over url hdrs params use_cache s).1
    = (if ((400 <=? status_code response) && (status_code response <? 600))%Z
       then Raise (RequestFailed (HTTPError (status_code response)))
       else Ok response)
  ∧ pending (SECHttpClient.get self over url hdrs params use_cache s).2 = rest
  ∧ attempts (SECHttpClient.get self over url hdrs params use_cache s).2
    = attempts s + k.
Proof.
  intros HC Hby Hloop.
  destruct (get_through_network self over url hdrs params use_cache s HC Hby)
    as (s0 & Hk0 & ->).
  apply keeps_net_inv in Hk0 as [Hp0 Ha0].
  destruct (Hloop s0 Hp0) as (s1 & E1 & Hp1 & Ha1).
  destruct (request_and_store_reply self over url hdrs params use_cache
              s0 response s1 E1) as (s2 & Hk2 & ->).
  apply keeps_net_inv in Hk2 as [Hp2 Ha2]. simpl.
  split_and!; [done | congruence | lia].
Qed.


End GetOutcomes.

(** ** The sliding window *)

Lemma Qltb_spec (x y : Q) : Qltb x y = true ↔ (x < y)%Q.
Proof.
  unfold Qltb. destruct (Qle_bool y x) eqn:E; simpl.
  - apply Qle_bool_iff in E. split; [done | lra].
  - split; [intros _ | done]. destruct (Qlt_le_dec x y) as [?|Hle]; [done|].
    apply Qle_bool_iff in Hle. congruence.
Qed.

Lemma Qltb_false_spec (x y : Q) : Qltb x y = false ↔ (y <= x)%Q.
Proof.
  split.
  - intros E. destruct (Qlt_le_dec x y) as [Hlt|?]; [|done].
    apply Qltb_spec in Hlt. congruence.
  - apply Qltb_false.
Qed.

Lemma later_than_app x l1 l2 :
  later_than x (l1 ++ l2) = later_than x l1 + later_than x l2.
Proof. unfold later_than. by rewrite List.filter_app, length_app. Qed.

Lemma later_than_le_length x l : later_than x l ≤ length l.
Proof. apply List.filter_length_le. Qed.

Lemma later_than_all x l :
  Forall (λ t, (x < t)%Q) l → later_than x l = length l.
Proof.
  unfold later_than. induction 1 as [|t l Ht _ IH]; simpl; [done|].
  apply Qltb_spec in Ht. rewrite Ht. simpl. by rewrite IH.
Qed.

Lemma later_than_cons_old x t l : (t <= x)%Q → later_than x (t :: l) = later_than x l.
Proof. intros Ht. unfold later_than. simpl. by rewrite Qltb_false. Qed.

Lemma later_than_mono x y l : (x <= y)%Q → later_than y l ≤ later_than x l.
Proof.
  intros Hxy. unfold later_than. induction l as [|t l IH]; simpl; [done|].
  destruct (Qltb y t) eqn:Ey.
  - apply Qltb_spec in Ey. rewrite Qltb_true by lra. simpl. lia.
  - destruct (Qltb x t); simpl; lia.
Qed.

Lemma window_count_old c l :
  Forall (λ t, (t < c - 1)%Q) l → window_count c l = 0.
Proof.
  unfold window_count. induction 1 as [|t l Ht _ IH]; simpl; [done|].
  unfold in_window at 1. by rewrite Qltb_false by lra.
Qed.

Lemma window_count_past c l :
  Forall (λ t, (t <= c)%Q) l → window_count c l = later_than (c - 1) l.
Proof.
  unfold window_count, later_than. induction 1 as [|t l Ht _ IH]; simpl; [done|].
  unfold in_window at 1. apply Qle_bool_iff in Ht. rewrite Ht, andb_true_r.
  destruct (Qltb (c - 1) t); simpl; by rewrite IH.
Qed.

Lemma window_count_app c l1 l2 :
  window_count c (l1 ++ l2) = window_count c l1 + window_count c l2.
Proof. unfold window_count. by rewrite List.filter_app, length_app. Qed.

(** The purge drops a prefix of the deque, all of it more than a second
    old; from a deque in time order it leaves nothing that old. *)
Lemma purge_split now l :
  ∃ dropped, l = dropped ++ RateLimiter.purge now l
             ∧ Forall (λ t, (t < now - 1)%Q) dropped.
Proof.
  induction l as [|t0 l (dropped & E & Hd)]; simpl.
  - by exists [].
  - destruct (Qltb 1 (now - t0)) eqn:E0.
    + exists (t0 :: dropped). split; [simpl; congruence|].
      apply Qltb_spec in E0. constructor; [lra | done].
    + by exists [].
Qed.

Lemma purge_recent now l :
  StronglySorted Qle l → Forall (λ t, (now - 1 <= t)%Q) (RateLimiter.purge now l).
Proof.
  induction 1 as [|t0 l Hs IH Hall]; simpl; [done|].
  destruct (Qltb 1 (now - t0)) eqn:E0; [done|].
  apply Qltb_false_spec in E0. constructor; [lra|].
  eapply Forall_impl; [exact Hall|]. simpl. intros t Ht. lra.
Qed.

Lemma sorted_snoc (l : list Q) x :
  StronglySorted Qle l → Forall (λ t, (t <= x)%Q) l → StronglySorted Qle (l ++ [x]).
Proof.
  intros Hs Hall. apply StronglySorted_app.
  split; [|split; [exact Hs | repeat constructor]].
  intros x1 x2 H1 H2. apply list_elem_of_singleton in H2 as ->.
  by apply (proj1 (Forall_forall _ _) Hall).
Qed.

Lemma sorted_suffix (l1 l2 : list Q) :
  StronglySorted Qle (l1 ++ l2) → StronglySorted Qle l2.
Proof. intros Hs. by apply StronglySorted_app in Hs as (_ & _ & ?). Qed.

Lemma inject_nat_le (n m : nat) :
  n ≤ m → (inject_Z (Z.of_nat n) <= inject_Z (Z.of_nat m))%Q.
Proof. intros Hle. rewrite <- Zle_Qle. lia. Qed.

Lemma inject_nat_S (n : nat) :
  (inject_Z (Z.of_nat (S n)) == inject_Z (Z.of_nat n) + 1)%Q.
Proof. rewrite Nat2Z.inj_succ, <- Z.add_1_r, inject_Z_plus. reflexivity. Qed.

(** One call keeps the invariant, and the window that ends at its
    completion holds what the invariant counts. *)
Lemma admit_step_inv C over gap hist clk times :
  (0 < C)%Q → (0 < gap)%Q → (0 <= over)%Q →
  limiter_inv C hist clk times →
  limiter_inv C (hist ++ [(admit_step C over (clk + gap) times).1])
    (admit_step C over (clk + gap) times).1
    (admit_step C over (clk + gap) times).2.
Proof.
  intros HC Hgap Hover [(old & Hhist & Hold) Hsorted Hpast Hroom].
  set (now := (clk + gap)%Q).
  assert (Hclk : (now == clk + gap)%Q) by reflexivity.
  destruct (purge_split now times) as (dropped & Hsplit & Hdropped).
  pose proof (purge_recent now times Hsorted) as Hrecent.
  unfold admit_step. fold now.
  set (times1 := RateLimiter.purge now times) in *.
  assert (Hsorted1 : StronglySorted Qle times1).
  { apply (sorted_suffix dropped). by rewrite <- Hsplit. }
  assert (Hpast1 : Forall (λ t, (t <= clk)%Q) times1).
  { rewrite Hsplit in Hpast. by apply Forall_app in Hpast as [_ ?]. }
  assert (Hlen1 : (inject_Z (Z.of_nat (length times1)) < C + 1)%Q).
  { eapply Qle_lt_trans; [|exact Hroom]. apply inject_nat_le.
    rewrite Hsplit, later_than_app.
    rewrite (later_than_all _ times1); [lia|].
    eapply Forall_impl; [exact Hrecent|]. simpl. intros t Ht. lra. }
  assert (Hold1 : Forall (λ t, (t < now - 1)%Q) (old ++ dropped)).
  { apply Forall_app. split; [|done].
    eapply Forall_impl; [exact Hold|]. simpl. intros t Ht. lra. }
  assert (Hnow : ∀ room : nat,
             later_than (now - 1) times1 ≤ room →
             (inject_Z (Z.of_nat (S room)) < C + 1)%Q →
             limiter_inv C (hist ++ [now]) now (times1 ++ [now])).
  { intros room Hle Hlt. split.
    - exists (old ++ dropped). split; [|done].
      by rewrite Hhist, Hsplit, !app_assoc.
    - apply sorted_snoc; [done|].
      eapply Forall_impl; [exact Hpast1|]. simpl. intros t Ht. lra.
    - apply Forall_app. split; [|constructor; [lra | done]].
      eapply Forall_impl; [exact Hpast1|]. simpl. intros t Ht. lra.
    - rewrite later_than_app.
      eapply Qle_lt_trans; [apply (inject_nat_le _ (S room))|exact Hlt].
      pose proof (later_than_le_length (now - 1) [now]) as Hone.
      change (length [now]) with 1%nat in Hone. lia. }
  destruct (Qle_bool C (inject_Z (Z.of_nat (length times1)))) eqn:Efull.
  2: { simpl. apply (Hnow (length times1)); [apply later_than_le_length|].
       rewrite inject_nat_S.
       destruct (Qlt_le_dec (inject_Z (Z.of_nat (length times1))) C) as [?|Hle];
         [lra|]. apply Qle_bool_iff in Hle. congruence. }
  apply Qle_bool_iff in Efull.
  destruct times1 as [|t0 rest] eqn:Etimes1.
  { simpl in Efull. cbv [Z.of_nat inject_Z] in Efull. exfalso. lra. }
  assert (Ht0 : (now - 1 <= t0)%Q) by (by apply Forall_cons in Hrecent as [? _]).
  destruct (Qltb 0 (1 - (now - t0))) eqn:Esleep; cbn [fst snd].
  - (* the call sleeps until the oldest timestamp is a second old *)
    apply Qltb_spec in Esleep.
    set (now' := (now + (1 - (now - t0)) + over)%Q).
    assert (Hnow' : (t0 + 1 <= now')%Q) by (unfold now'; lra).
    destruct (purge_split now' (t0 :: rest)) as (dropped' & Hsplit' & Hdropped').
    set (times2 := RateLimiter.purge now' (t0 :: rest)) in *.
    assert (Hpast2 : Forall (λ t, (t <= now')%Q) times2).
    { rewrite Hsplit' in Hpast1. apply Forall_app in Hpast1 as [_ Hp].
      eapply Forall_impl; [exact Hp|]. simpl. intros t Ht. unfold now'. lra. }
    split.
    + exists ((old ++ dropped) ++ dropped'). split.
      * rewrite Hhist, Hsplit. rewrite Hsplit' at 1. by rewrite !app_assoc.
      * apply Forall_app. split; [|done].
        eapply Forall_impl; [exact Hold1|]. simpl. intros t Ht. lra.
    + apply sorted_snoc; [|done].
      apply (sorted_suffix dropped'). by rewrite <- Hsplit'.
    + apply Forall_app. split; [done | constructor; [lra | done]].
    + rewrite later_than_app.
      eapply Qle_lt_trans; [apply (inject_nat_le _ (S (length rest)))|].
      * pose proof (later_than_le_length (now' - 1) [now']) as Hone.
        change (length [now']) with 1%nat in Hone.
        assert (later_than (now' - 1) times2 ≤ length rest); [|lia].
        transitivity (later_than (now' - 1) (t0 :: rest)).
        { rewrite Hsplit' at 1. rewrite later_than_app. lia. }
        rewrite later_than_cons_old by lra. apply later_than_le_length.
      * exact Hlen1.
  - (* the oldest timestamp is exactly a second old: no sleep *)
    apply Qltb_false_spec in Esleep.
    apply (Hnow (length rest)); [|exact Hlen1].
    rewrite later_than_cons_old by lra. apply later_than_le_length.
Qed.

Lemma wait_if_needed_step self over s :
  (0 < RateLimiter.max_rps self)%Q →
  ∃ s', RateLimiter.wait_if_needed self over s = (Ok tt, s')
        ∧ clock s'
          = (admit_step (RateLimiter.max_rps self) over (clock s) (request_times s)).1
        ∧ request_times s'
          = (admit_step (RateLimiter.max_rps self) over (clock s) (request_times s)).2.
Proof.
  intros HC.
  unfold RateLimiter.wait_if_needed, RateLimiter.drop_old, RateLimiter.front,
    RateLimiter.append, time_time, time_sleep, emit, gets, modify, mbind, M_bind,
    mret, M_ret, admit_step.
  simpl. destruct (Qle_bool _ _) eqn:E; [|by eexists].
  destruct (RateLimiter.purge (clock s) (request_times s)) as [|t0 l] eqn:Ep; simpl.
  - apply Qle_bool_iff in E. cbv [length Z.of_nat inject_Z] in E. exfalso. lra.
  - destruct (Qltb _ _); simpl; by eexists.
Qed.

(** The invariant bounds the window that ends now. *)
Lemma limiter_inv_window C hist clk times :
  limiter_inv C hist clk times →
  (inject_Z (Z.of_nat (window_count clk hist)) < C + 1)%Q.
Proof.
  intros [(old & -> & Hold) _ Hpast Hroom].
  by rewrite window_count_app, window_count_old, window_count_past.
Qed.

Lemma admits_inv self calls :
  (0 < RateLimiter.max_rps self)%Q →
  Forall (λ c, (0 < c.1)%Q ∧ (0 <= c.2)%Q) calls →
  ∀ hist s,
    limiter_inv (RateLimiter.max_rps self) hist (clock s) (request_times s) →
    ∃ done s',
      admits self calls s = (Ok done, s')
      ∧ length done = length calls
      ∧ ∀ n c, done !! n = Some c →
          (inject_Z (Z.of_nat (window_count c (hist ++ take (S n) done)))
           < RateLimiter.max_rps self + 1)%Q.
Proof.
  intros HC. induction 1 as [|[gap over] calls [Hgap Hover] _ IH]; intros hist s Hinv.
  - exists [], s. split_and!; [done | done | by intros n c].
  - simpl in Hgap, Hover.
    set (s1 := with_clock (clock s + gap) s).
    destruct (wait_if_needed_step self over s1 HC) as (s2 & E2 & Hc2 & Ht2).
    pose proof (admit_step_inv _ over gap hist (clock s) (request_times s)
                  HC Hgap Hover Hinv) as Hinv2.
    change (clock s + gap)%Q with (clock s1) in Hinv2.
    change (request_times s) with (request_times s1) in Hinv2.
    rewrite <- Hc2, <- Ht2 in Hinv2.
    destruct (IH _ _ Hinv2) as (done & s' & E & Hlen & Hbound).
    exists (clock s2 :: done), s'. split_and!.
    + simpl. unfold elapse, modify, time_time, gets.
      erewrite bind_ok by reflexivity. fold s1.
      rewrite (bind_ok _ _ _ _ _ E2). erewrite bind_ok by reflexivity.
      by rewrite (bind_ok _ _ _ _ _ E).
    + simpl. by rewrite Hlen.
    + intros [|n] c Hn; simpl in Hn.
      * injection Hn as <-. simpl. by apply (limiter_inv_window _ _ _ _ Hinv2).
      * specialize (Hbound n c Hn). by rewrite <- app_assoc in Hbound.
Qed.

(** Away from the edge of the window the limiter keeps its ceiling.  On a
    fresh limiter with ceiling [C > 0], when every call starts at a later
    clock reading than the one before ended and no sleep ends early, every
    call returns and the last second [(c - 1, c]] before each completion [c]
    holds fewer than [C + 1] completions: at most [C] of them when [C] is a
    whole number. *)
Theorem limiter_window_bound self calls s :
  (0 < RateLimiter.max_rps self)%Q →
  Forall (λ c, (0 < c.1)%Q ∧ (0 <= c.2)%Q) calls →
  request_times s = [] →
  ∃ done,
    (admits self calls s).1 = Ok done
    ∧ length done = length calls
    ∧ (∀ n c, done !! n = Some c →
         (inject_Z (Z.of_nat (window_count c (take (S n) done)))
          < RateLimiter.max_rps self + 1)%Q)
    ∧ (∀ k n c, (RateLimiter.max_rps self == inject_Z (Z.of_nat k))%Q →
         done !! n = Some c → window_count c (take (S n) done) ≤ k).
Proof.
  intros HC Hcalls Hfresh.
  destruct (admits_inv self calls HC Hcalls [] s) as (done & s' & E & Hlen & Hbound).
  { rewrite Hfresh. split.
    - by exists [].
    - constructor.
    - constructor.
    - change (inject_Z (Z.of_nat (later_than (clock s - 1) []))) with 0%Q. lra. }
  exists done. rewrite E. split_and!; [done | done | exact Hbound |].
  intros k n c Hk Hn. specialize (Hbound n c Hn). simpl in Hbound.
  rewrite Hk, <- inject_nat_S, <- Zlt_Qlt in Hbound. lia.
Qed.

Section CacheLaws.
Context `{Runtime}.

(** What [get] makes of a cache file it cannot use.  On a disk that takes
    writes, a file that cannot be opened, or that holds text which is not
    JSON, is a miss: [get] returns [None] without raising and deletes that
    file, and no other.  On a disk that does not let the file go, the
    [unlink] of the handler raises and [get] raises with it.  A file whose
    bytes are no text is no miss either: [get] raises [UnicodeDecodeError],
    which no clause catches, and the file stays. *)
Theorem unusable_cache_file key s f :
  files s !! SimpleCache._get_cache_path key = Some f →
  (readable f = false
   ∨ (as_json (data f) = None ∧ decodes_as_text (bytes (data f)) = true) →
   if disk_writable s
   then (SimpleCache.get key s).1 = Ok JNull
        ∧ files (SimpleCache.get key s).2
          = delete (SimpleCache._get_cache_path key) (files s)
   else (SimpleCache.get key s).1 = Raise IOError
        ∧ files (SimpleCache.get key s).2 = files s)
  ∧ (readable f = true → as_json (data f) = None →
     decodes_as_text (bytes (data f)) = false →
     (SimpleCache.get key s).1 = Raise UnicodeDecodeError
     ∧ files (SimpleCache.get key s).2 = files s).
Proof.
  intros Hf. split.
  - intros Hcase.
    assert (E : SimpleCache.get key s
                = if disk_writable s
                  then (Ok JNull,
                        with_files
                          (delete (SimpleCache._get_cache_path key) (files s))
                          (after_get key s))
                  else (Raise IOError, after_get key s)).
    { destruct (readable f) eqn:Hr.
      - destruct Hcase as [?|[Hj Ht]]; [done|]. by apply cache_get_not_json with f.
      - by apply cache_get_unreadable with f. }
    rewrite E. by destruct (disk_writable s).
  - intros Hr Hj Ht. by rewrite (cache_get_not_text key s f).
Qed.

(** A second [set] under the same key replaces the first: a [get] made no
    more than the second [ttl] later returns the second value. *)
Theorem cache_overwrite key v1 ttl1 v2 ttl2 elapsed s :
  disk_writable s = true →
  (elapsed <= ttl2)%Q →
  ((SimpleCache.set key v1 ttl1;; SimpleCache.set key v2 ttl2;;
    elapse elapsed;; SimpleCache.get key) s).1 = Ok v2.
Proof.
  intros Hw Hle.
  rewrite (bind_ok _ _ _ _ _ (cache_set_written key v1 ttl1 s Hw)).
  erewrite bind_ok by (by apply cache_set_written).
  erewrite bind_ok by reflexivity.
  match goal with |- context [SimpleCache.get key ?s2] => set (s2' := s2) end.
  assert (Hf : files s2' !! SimpleCache._get_cache_path key
               = Some (File true (clock s)
                         (blob_of_json (SimpleCache.entry v2 (clock s + ttl2))))).
  { unfold s2'. simpl. apply lookup_insert_eq. }
  assert (Hc : clock s2' = (clock s + elapsed)%Q) by done.
  clearbody s2'.
  rewrite (cache_get_record key s2' _ _ false Hf eq_refl eq_refl); [done|].
  simpl. rewrite Hc. f_equal. apply Qltb_false. lra.
Qed.

End CacheLaws.

Section RoundTrip.
Context `{Runtime}.

Lemma transmit_state req s rep rest :
  pending s = rep :: rest →
  transmit req s
  = (Ok rep, with_pending rest (with_trace (trace s ++ [Sent req]) s)).
Proof.
  intros Hp. unfold transmit, emit, gets, modify, mbind, M_bind, mret, M_ret.
  simpl. by rewrite Hp.
Qed.

Lemma urlopen_first_state policy over left errors req s r rest :
  pending s = Answer r :: rest →
  is_retry policy left (req_method req) r = false →
  urlopen policy over left errors req s
  = (Ok r, with_pending rest (with_trace (trace s ++ [Sent req]) s)).
Proof.
  intros Hp Hr.
  destruct left; simpl;
    by rewrite (bind_ok _ _ _ _ _ (transmit_state _ s _ _ Hp)), Hr.
Qed.

Lemma session_get_first_state self over url hdrs params stream s r rest :
  SECHttpClient.retry_strategy self = mounted_policy →
  pending s = Answer r :: rest →
  is_retry mounted_policy 3 "GET" r = false →
  final r →
  SECHttpClient.session_get self over url hdrs params stream s
  = (Ok r, with_pending rest
             (with_trace
                (trace s ++ [Sent (SECHttpClient.prepare_request self url hdrs
                                     params stream)]) s)).
Proof.
  intros Hpol Hp Hr Hfin. unfold SECHttpClient.session_get. rewrite Hpol.
  apply send_final; [|done]. by apply urlopen_first_state.
Qed.

(** A first fetch that is answered [200] with a JSON body leaves the body in
    the cache, to expire [cache_ttl] after the moment it was stored. *)
Lemma get_stores ua C tmo ttl self over url hdrs params s r rest j :
  SECHttpClient.init ua C tmo ttl true = Ok self →
  (0 < C)%Q →
  disk_writable s = true →
  files s !! SimpleCache._get_cache_path (SECHttpClient.cache_key url params) = None →
  pending s = Answer r :: rest →
  status_code r = 200%Z →
  as_json (content r) = Some j →
  ∃ s2,
    SECHttpClient.get self over url hdrs params true s = (Ok r, s2)
    ∧ files s2 !! SimpleCache._get_cache_path (SECHttpClient.cache_key url params)
      = Some (File true (clock s2)
                (blob_of_json (SimpleCache.entry j (clock s2 + ttl)))).
Proof.
  intros Hinit HC Hw Hnone Hp Hs Hj.
  destruct (init_policy _ _ _ _ _ _ Hinit) as [Hpol Hrps].
  assert (Hen : SECHttpClient.enable_cache self = true
                ∧ SECHttpClient.cache_ttl self = ttl)
    by (by apply init_inv in Hinit as [-> _]).
  destruct Hen as [Hen Httl].
  unfold SECHttpClient.get, SECHttpClient.cache_lookup. rewrite Hen. simpl.
  erewrite bind_ok; cycle 1.
  { by rewrite (bind_ok _ _ _ _ _ (cache_get_absent _ _ Hnone)). }
  simpl.
  set (sa := after_get (SECHttpClient.cache_key url params) s).
  destruct (RateLimiter.wait_if_needed (SECHttpClient.rate_limiter self) over sa)
    as [res s0] eqn:E0.
  assert (res = Ok tt) as ->.
  { pose proof (wait_if_needed_ok (SECHttpClient.rate_limiter self) over sa) as Hok.
    rewrite E0 in Hok. apply Hok. by rewrite Hrps. }
  assert (Hf0 : files s0 = files s).
  { revert E0. by apply (preserves_wait_if_needed (keeps files)). }
  assert (Hw0 : disk_writable s0 = true).
  { rewrite <- Hw. revert E0.
    by apply (preserves_wait_if_needed (keeps disk_writable)). }
  assert (Hp0 : pending s0 = Answer r :: rest).
  { rewrite <- Hp. revert E0.
    by apply (preserves_wait_if_needed (keeps pending)). }
  rewrite (bind_ok _ _ _ _ _ E0).
  unfold SECHttpClient.request_and_store, try_except.
  rewrite (bind_ok _ _ _ _ _
             (session_get_first_state self over url _ params false s0 r rest Hpol
                Hp0 (is_retry_success 3 r Hs) (final_success r Hs))).
  unfold raise_for_status. rewrite Hs. simpl.
  erewrite bind_ok by reflexivity. rewrite Hen. simpl.
  unfold response_json. rewrite Hj. simpl.
  erewrite bind_ok; cycle 1.
  { unfold try_except. erewrite bind_ok by reflexivity.
    rewrite cache_set_written by done. reflexivity. }
  eexists. split; [reflexivity|]. simpl. rewrite Httl. apply lookup_insert_eq.
Qed.

(** The cache keeps the body and nothing else of a reply.  After a fetch
    answered [200] with a JSON body other than [null], the same fetch made
    again within the time to live is answered from the cache, with the
    made-up response of that body: the status, the headers and the bytes the
    origin sent are not kept. *)
Theorem second_fetch_is_made_up
    ua C tmo ttl self over over' url hdrs hdrs' params s r rest j elapsed :
  SECHttpClient.init ua C tmo ttl true = Ok self →
  (0 < C)%Q →
  disk_writable s = true →
  files s !! SimpleCache._get_cache_path (SECHttpClient.cache_key url params) = None →
  pending s = Answer r :: rest →
  status_code r = 200%Z →
  as_json (content r) = Some j →
  j ≠ JNull →
  (elapsed <= ttl)%Q →
  (SECHttpClient.get self over url hdrs params true s).1 = Ok r
  ∧ ((SECHttpClient.get self over url hdrs params true;;
      elapse elapsed;;
      SECHttpClient.get self over' url hdrs' params true) s).1
    = Ok (SECHttpClient.mock_response j).
Proof.
  intros Hinit HC Hw Hnone Hp Hs Hj Hn Hle.
  destruct (get_stores ua C tmo ttl self over url hdrs params s r rest j
              Hinit HC Hw Hnone Hp Hs Hj) as (s2 & E2 & Hf2).
  split; [by rewrite E2|].
  rewrite (bind_ok _ _ _ _ _ E2). erewrite bind_ok by reflexivity.
  set (s3 := with_clock (clock s2 + elapsed) s2).
  assert (Hen : SECHttpClient.enable_cache self = true)
    by (by apply init_inv in Hinit as [-> _]).
  rewrite (get_served_from_cache self over' url hdrs' params s3 j
             (after_get (SECHttpClient.cache_key url params) s3)); try done.
  rewrite (cache_get_record _ s3 _ _ false Hf2 eq_refl eq_refl); [done|].
  simpl. f_equal. apply Qltb_false. lra.
Qed.

End RoundTrip.

(** ** Pacing: when the limiter waits, and for how long *)

Lemma purge_length now l : length (RateLimiter.purge now l) ≤ length l.
Proof.
  destruct (purge_split now l) as (dropped & E & _).
  apply (f_equal length) in E. rewrite length_app in E. lia.
Qed.

Lemma purge_past now clk l :
  Forall (λ t, (t <= clk)%Q) l → Forall (λ t, (t <= clk)%Q) (RateLimiter.purge now l).
Proof.
  intros Hall. destruct (purge_split now l) as (dropped & E & _).
  rewrite E in Hall. by apply Forall_app in Hall as [_ ?].
Qed.

(** Below the ceiling a call records the clock reading and returns. *)
Lemma wait_if_needed_free self over s :
  (inject_Z (Z.of_nat (length (RateLimiter.purge (clock s) (request_times s))))
   < RateLimiter.max_rps self)%Q →
  RateLimiter.wait_if_needed self over s
  = (Ok tt,
     with_trace (trace s ++ [Admission (clock s)])
       (with_request_times
          (RateLimiter.purge (clock s) (request_times s) ++ [clock s]) s)).
Proof.
  intros Hlt.
  unfold RateLimiter.wait_if_needed, RateLimiter.drop_old, RateLimiter.front,
    RateLimiter.append, time_time, time_sleep, emit, gets, modify, mbind, M_bind,
    mret, M_ret.
  simpl. destruct (Qle_bool _ _) eqn:E; [|done].
  apply Qle_bool_iff in E. lra.
Qed.

(** The limiter spaces nothing out below its ceiling.  As long as the deque
    and the calls to come together stay within the ceiling, every call
    returns at the clock reading it started at, however close the calls are:
    no call sleeps, and [min_interval] plays no part. *)
Theorem burst_under_ceiling_is_not_delayed self calls s :
  (inject_Z (Z.of_nat (length (request_times s) + length calls))
   <= RateLimiter.max_rps self)%Q →
  (admits self calls s).1 = Ok (arrivals (clock s) calls.*1)
  ∧ sleeps (admits self calls s).2 = sleeps s.
Proof.
  revert s. induction calls as [|[gap over] calls IH]; intros s Hroom; [done|].
  simpl in Hroom.
  set (s1 := with_clock (clock s + gap) s).
  set (times1 := RateLimiter.purge (clock s1) (request_times s1)).
  set (s2 := with_trace (trace s1 ++ [Admission (clock s1)])
               (with_request_times (times1 ++ [clock s1]) s1)).
  assert (Hlen : length times1 ≤ length (request_times s)) by apply purge_length.
  assert (E2 : RateLimiter.wait_if_needed self over s1 = (Ok tt, s2)).
  { apply wait_if_needed_free. fold times1.
    eapply Qlt_le_trans; [|exact Hroom]. rewrite <- Zlt_Qlt. lia. }
  destruct (IH s2) as [Hres Hsl].
  { eapply Qle_trans; [|exact Hroom]. apply inject_nat_le.
    unfold s2. simpl. rewrite length_app. simpl. lia. }
  assert (E : admits self ((gap, over) :: calls) s
              = match admits self calls s2 with
                | (Ok later, s') => (Ok (clock s1 :: later), s')
                | (Raise e, s') => (Raise e, s')
                end).
  { simpl. unfold elapse, modify, time_time, gets.
    erewrite bind_ok by reflexivity. fold s1.
    rewrite (bind_ok _ _ _ _ _ E2). erewrite bind_ok by reflexivity.
    unfold mbind, M_bind. by destruct (admits self calls s2) as [[later|e] s']. }
  rewrite E. destruct (admits self calls s2) as [[later|e] s'];
    simpl in Hres; [|done].
  injection Hres as ->. simpl. split; [done|].
  simpl in Hsl. rewrite Hsl. unfold sleeps, s2. simpl.
  by apply filter_snoc_false.
Qed.

(** One call holds its caller up for at most a second, on top of what the
    scheduler adds.  On a limiter with a positive ceiling whose deque holds
    nothing from the future, [wait_if_needed] returns; it sleeps at most
    once, for more than nothing and no more than a second; and the deque it
    leaves again holds nothing from the future. *)
Theorem wait_if_needed_delay_bound self over s :
  (0 < RateLimiter.max_rps self)%Q →
  (0 <= over)%Q →
  Forall (λ t, (t <= clock s)%Q) (request_times s) →
  (RateLimiter.wait_if_needed self over s).1 = Ok tt
  ∧ (clock s <= clock (RateLimiter.wait_if_needed self over s).2)%Q
  ∧ (clock (RateLimiter.wait_if_needed self over s).2 <= clock s + 1 + over)%Q
  ∧ Forall (λ t, (t <= clock (RateLimiter.wait_if_needed self over s).2)%Q)
      (request_times (RateLimiter.wait_if_needed self over s).2)
  ∧ (sleeps (RateLimiter.wait_if_needed self over s).2 = sleeps s
     ∨ ∃ d, (0 < d)%Q ∧ (d <= 1)%Q
            ∧ sleeps (RateLimiter.wait_if_needed self over s).2
              = sleeps s ++ [Slept d]
            ∧ clock (RateLimiter.wait_if_needed self over s).2
              = (clock s + d + over)%Q).
Proof.
  intros HC Hover Hpast.
  pose proof (purge_past (clock s) _ _ Hpast) as Hpast1.
  assert (Hfree :
    Forall (λ t, (t <= clock s)%Q)
      (RateLimiter.purge (clock s) (request_times s) ++ [clock s])).
  { apply Forall_app. split; [done|]. constructor; [lra | done]. }
  unfold RateLimiter.wait_if_needed, RateLimiter.drop_old, RateLimiter.front,
    RateLimiter.append, time_time, time_sleep, emit, gets, modify, mbind, M_bind,
    mret, M_ret.
  simpl. destruct (Qle_bool _ _) eqn:E.
  2: { simpl. split_and!; [done | lra | lra | done |].
       left. unfold sleeps. simpl. by apply filter_snoc_false. }
  destruct (RateLimiter.purge (clock s) (request_times s)) as [|t0 l] eqn:Ep; simpl.
  { apply Qle_bool_iff in E. cbv [length Z.of_nat inject_Z] in E. exfalso. lra. }
  assert (Ht0 : (t0 <= clock s)%Q) by (by apply Forall_cons in Hpast1 as [? _]).
  destruct (Qltb 0 (1 - (clock s - t0))) eqn:Esleep; simpl.
  - apply Qltb_spec in Esleep. split_and!; [done | lra | lra | |].
    + apply Forall_app. split; [|constructor; [lra | done]].
      apply (purge_past (clock s + (1 - (clock s - t0)) + over) _ (t0 :: l)).
      eapply Forall_impl; [exact Hpast1|]. simpl. intros t Ht. lra.
    + right. exists (1 - (clock s - t0))%Q. split_and!; [lra | lra | | done].
      unfold sleeps. simpl.
      rewrite filter_snoc_false by done. by rewrite filter_snoc_true.
  - split_and!; [done | lra | lra | done |].
    left. unfold sleeps. simpl. by apply filter_snoc_false.
Qed.


Section Ceiling.
Context `{Runtime}.


End Ceiling.

(** ** Downloads *)

#[global] Instance keeps_files_but_preorder p : PreOrder (keeps_files_but p).
Proof.
  split; unfold keeps_files_but; [by intros s | intros s1 s2 s3 E1 E2; congruence].
Qed.


Lemma keeps_attempts_ignores_dirs : ignores_dirs (keeps attempts).
Proof. by intros s ds. Qed.
Lemma keeps_net_ignores_dirs : ignores_dirs (keeps net).
Proof. by intros s ds. Qed.

#[global] Hint Resolve keeps_attempts_ignores_dirs keeps_net_ignores_dirs : frame.

Lemma makes_dirs_within_keeps ds s s' :
  dirs s' = dirs s → makes_dirs_within ds s s'.
Proof.
  intros Hd. unfold makes_dirs_within. rewrite Hd.
  split; [done | apply union_subseteq_l].
Qed.

#[global] Instance makes_dirs_within_preorder ds : PreOrder (makes_dirs_within ds).
Proof.
  split; [intros s; by apply makes_dirs_within_keeps|].
  intros s1 s2 s3 [Ha Hb] [Hc Hd]. split; [by etrans|].
  etrans; [exact Hd|]. apply union_least; [done | apply union_subseteq_r].
Qed.

Section DownloadFootprint.
Context `{Runtime} (R : relation state) `{!PreOrder R}.



End DownloadFootprint.

Section Downloads.
Context `{Runtime}.









(** A pause before a retry raises nothing but [InvalidHeader]. *)
Lemma retry_sleep_raises policy over errors r s e s' :
  retry_sleep policy over errors r s = (Raise e, s') →
  e = RequestException InvalidHeader.
Proof.
  unfold retry_sleep, sleep_backoff, time_sleep, time_time, emit, gets, modify,
    raise, mbind, M_bind, mret, M_ret.
  destruct r as [r|]; simpl;
    [destruct (ci_get _ _) as [v|]; [destruct (parse_retry_after v)|]|]; simpl;
    try destruct (Qeq_bool _ _); try destruct (Qle_bool _ _); by intros [= <-].
Qed.

(** The adapter's loop raises nothing but [RequestException]s. *)
Lemma urlopen_raises policy over left errors req s e s' :
  urlopen policy over left errors req s = (Raise e, s') →
  ∃ cause, e = RequestException cause.
Proof.
  revert errors s. induction left as [|left IH]; intros errors s E; simpl in E;
    apply bind_inv in E as [(rep & s1 & E1 & E2)|(e0 & E1 & _)].
  - destruct rep as [response|]; [destruct (is_retry _ _ _ _)|];
      inversion E2; eauto.
  - unfold transmit, emit, gets, modify, mbind, M_bind, mret, M_ret in E1.
    simpl in E1. by destruct (pending s).
  - assert (Hrec : ∀ o, (retry_sleep policy over (S errors) o;;
                          urlopen policy over left (S errors) req) s1 = (Raise e, s') →
                        ∃ cause, e = RequestException cause).
    { intros o Eo.
      apply bind_inv in Eo as [([] & s2 & Ea & Eb)|(e0 & Ea & [= <-])].
      - by apply IH in Eb.
      - apply retry_sleep_raises in Ea. eauto. }
    destruct rep as [response|]; [destruct (is_retry _ _ _ _)|].
    + by apply Hrec in E2.
    + inversion E2.
    + by apply Hrec in E2.
  - unfold transmit, emit, gets, modify, mbind, M_bind, mret, M_ret in E1.
    simpl in E1. by destruct (pending s).
Qed.

(** So does a redirect chain. *)
Lemma send_raises_request_exception policy over redirects req s e s' :
  send policy over redirects req s = (Raise e, s') →
  ∃ cause, e = RequestException cause.
Proof.
  revert req s. induction redirects as [|redirects IH]; intros req s E;
    simpl in E;
    apply bind_inv in E as [(response & s1 & E1 & E2)|(e0 & E1 & [= <-])];
    try (by apply urlopen_raises in E1).
  - destruct (redirect_target response); inversion E2; eauto.
  - destruct (redirect_target response); [by apply IH in E2 | inversion E2].
Qed.

(** What is left of a download that raises: the request failed, or the
    destination could not be written. *)
Lemma download_body_raises self over url dest_path s e s' :
  (response ← SECHttpClient.session_get self over url None None true;
   raise_for_status response;;
   write_file dest_path (content response);;
   mret (path_absolute dest_path)) s = (Raise e, s') →
  files s' = files s
  ∧ ((∃ cause, e = RequestException cause)
     ∨ (e = IOError ∧ disk_writable s = false)).
Proof.
  intros E.
  apply bind_inv in E as [(response & s1 & E1 & E2)|(e0 & E1 & [= <-])].
  2: { split.
       - revert E1. by apply (preserves_session_get (keeps files)).
       - left. by apply send_raises_request_exception in E1. }
  assert (Hf1 : files s1 = files s).
  { revert E1. by apply (preserves_session_get (keeps files)). }
  assert (Hw1 : disk_writable s1 = disk_writable s).
  { revert E1. by apply (preserves_session_get (keeps disk_writable)). }
  apply bind_inv in E2 as [([] & s2 & E2 & E3)|(e0 & E2 & [= <-])].
  2: { unfold raise_for_status in E2. destruct (_ && _); inversion E2; subst.
       split; [done | left; eauto]. }
  assert (s2 = s1) as ->.
  { unfold raise_for_status in E2. by destruct (_ && _); inversion E2. }
  apply bind_inv in E3 as [([] & s3 & E3 & E4)|(e0 & E3 & [= <-])];
    [inversion E4|].
  unfold write_file, gets, modify, mbind, M_bind in E3. simpl in E3.
  destruct (disk_writable s1) eqn:Ew; inversion E3; subst.
  split; [done | right]. split; [done | congruence].
Qed.

(** A download whose request is refused leaves the files alone.  When
    [download] raises [Exception("Download failed: ...")] for an error
    status, for retries that ran out on a status the policy retries, for a
    [Retry-After] header that cannot be read or for a redirect chain that is
    too long, the failure came before the destination was opened: nothing
    was written there, a file that was there is still there, and every other
    file is as it was.  A connection that fails is left out, since it can
    also fail while the body is read, after the destination was opened. *)
Theorem refused_download_writes_nothing self over url dest_path use_cache s cause :
  (SECHttpClient.download self over url dest_path use_cache s).1
  = Raise (DownloadFailed cause) →
  cause ≠ ConnectionError →
  files (SECHttpClient.download self over url dest_path use_cache s).2 = files s.
Proof.
  destruct (SECHttpClient.download self over url dest_path use_cache s)
    as [res s'] eqn:E. simpl. intros -> _.
  unfold SECHttpClient.download, path_exists, gets in E.
  erewrite bind_ok in E by reflexivity.
  destruct (use_cache && _); [inversion E|].
  apply bind_inv in E as [([] & s0 & E0 & E)|(e0 & E0 & [= <-])].
  2: { rewrite mkdir_parents_run in E0. by destruct (can_mkdir _ _). }
  assert (Hf0 : files s0 = files s).
  { revert E0. by apply (preserves_mkdir_parents (keeps files)). }
  apply bind_inv in E as [([] & s1 & E1 & E)|(e0 & E1 & [= <-])].
  2: { rewrite <- Hf0. revert E1.
       by apply (preserves_wait_if_needed (keeps files)). }
  assert (Hf1 : files s1 = files s0).
  { revert E1. by apply (preserves_wait_if_needed (keeps files)). }
  apply try_except_inv in E
    as [(a & _ & [=])|[(e0 & E2 & _ & _)|(e0 & s2 & h & E2 & Hh & E3)]];
    apply download_body_raises in E2 as [Hf2 _].
  - congruence.
  - destruct e0; simplify_eq. inversion E3; subst. congruence.
Qed.





End Downloads.

(** ** What a fetch leaves in the cache *)

Section Stored.
Context `{Runtime}.

(** The cache entry [set] writes at clock reading [t] for the body [j]. *)
Lemma store_files self url params use_cache response s :
  ∃ s1,
    (if use_cache && SECHttpClient.enable_cache self
        && (status_code response =? 200)%Z
     then
       try_except
         (json_data ← response_json response;
          SimpleCache.set (SECHttpClient.cache_key url params) json_data
            (SECHttpClient.cache_ttl self))
         (λ e, match e with
               | JSONDecodeError | UnicodeDecodeError => Some (mret tt)
               | _ => None
               end)
     else mret tt) s = (Ok tt, s1)
    ∧ clock s1 = clock s
    ∧ (files s1 = files s
       ∨ ∃ j, use_cache && SECHttpClient.enable_cache self = true
              ∧ status_code response = 200%Z
              ∧ as_json (content response) = Some j
              ∧ disk_writable s = true
              ∧ files s1
                = <[SimpleCache._get_cache_path (SECHttpClient.cache_key url params) :=
                      File true (clock s)
                        (blob_of_json
                           (SimpleCache.entry j
                              (clock s + SECHttpClient.cache_ttl self)))]> (files s)).
Proof.
  destruct (use_cache && SECHttpClient.enable_cache self) eqn:Eu; simpl;
    [|exists s; by eauto].
  destruct (status_code response =? 200)%Z eqn:Es; [|exists s; by eauto].
  apply Z.eqb_eq in Es.
  unfold response_json, try_except, mbind, M_bind.
  destruct (as_json (content response)) as [j|] eqn:Ej; simpl;
    [|exists s; by eauto].
  destruct (disk_writable s) eqn:Ew.
  - rewrite cache_set_written by done. eexists. split; [done|].
    split; [done|]. right. exists j. by split_and!.
  - rewrite cache_set_unwritable by done. eexists. split; [done|].
    split; [done|]. by left.
Qed.

Lemma drops_at_most_keeps p s s' : files s' = files s → drops_at_most p s s'.
Proof. by left. Qed.

#[local] Instance drops_at_most_preorder p : PreOrder (drops_at_most p).
Proof.
  split; [by left|].
  intros s1 s2 s3 [E1|E1] [E2|E2]; unfold drops_at_most; rewrite E2, E1;
    [by left | by right | by right | right; apply delete_delete_eq].
Qed.

Lemma unlink_drops p : preserves (drops_at_most p) (unlink p).
Proof.
  intros s r s'. unfold unlink, gets, modify, raise, mbind, M_bind, mret, M_ret.
  simpl. destruct (files s !! p); [destruct (disk_writable s)|];
    intros [= _ <-]; [by right | by left | by left].
Qed.

(** A lookup leaves the files as they were, or drops the entry it looked
    at. *)
Lemma cache_get_drops key :
  preserves (drops_at_most (SimpleCache._get_cache_path key)) (SimpleCache.get key).
Proof.
  unfold SimpleCache.get.
  frame_bind; [apply preserves_emit; intros s; by left | intros _].
  frame_bind; [frame_gets | intros found].
  destruct (negb found); [frame_ret|].
  frame_try.
  - frame_bind; [apply preserves_load_json; apply _ | intros cached].
    frame_bind; [frame_gets | intros now].
    frame_bind; [frame_lift | intros expires_at].
    frame_bind; [frame_lift | intros [|]].
    + frame_bind; [apply unlink_drops | intros _; frame_ret].
    + frame_lift.
  - intros e h Hh. destruct e; simplify_eq;
      (frame_bind; [apply unlink_drops | intros _; frame_ret]).
Qed.

Lemma cache_lookup_drops self url params use_cache s hit sa :
  SECHttpClient.cache_lookup self url params use_cache s = (hit, sa) →
  files sa = files s
  ∨ (use_cache && SECHttpClient.enable_cache self = true
     ∧ files sa
       = delete (SimpleCache._get_cache_path (SECHttpClient.cache_key url params))
           (files s)).
Proof.
  unfold SECHttpClient.cache_lookup.
  destruct (use_cache && SECHttpClient.enable_cache self);
    [|intros [= _ <-]; by left].
  intros E.
  apply bind_inv in E as [(j & s1 & E1 & E2)|(e & E1 & _)].
  - assert (sa = s1) as -> by (by destruct j; inversion E2).
    apply cache_get_drops in E1 as [?|?]; [by left | by right].
  - apply cache_get_drops in E1 as [?|?]; [by left | by right].
Qed.

(** What [request_and_store] leaves on disk, however it ends. *)
Lemma request_and_store_files self over url hdrs params use_cache s res s' :
  SECHttpClient.request_and_store self over url hdrs params use_cache s = (res, s') →
  files s' = files s
  ∨ ∃ r j, res = Ok r
           ∧ use_cache && SECHttpClient.enable_cache self = true
           ∧ status_code r = 200%Z
           ∧ as_json (content r) = Some j
           ∧ files s'
             = <[SimpleCache._get_cache_path (SECHttpClient.cache_key url params) :=
                   File true (clock s')
                     (blob_of_json
                        (SimpleCache.entry j
                           (clock s' + SECHttpClient.cache_ttl self)))]> (files s).
Proof.
  intros E. unfold SECHttpClient.request_and_store in E.
  assert (Hbody : ∀ r0 s0,
    (response ← SECHttpClient.session_get self over url
                  (Some (ci_update (SECHttpClient.session_headers self)
                           (default [] hdrs))) params false;
     raise_for_status response;;
     (if use_cache && SECHttpClient.enable_cache self
         && (status_code response =? 200)%Z
      then
        try_except
          (json_data ← response_json response;
           SimpleCache.set (SECHttpClient.cache_key url params) json_data
             (SECHttpClient.cache_ttl self))
          (λ e, match e with
                | JSONDecodeError | UnicodeDecodeError => Some (mret tt)
                | _ => None
                end)
      else mret tt);;
     mret response) s = (r0, s0) →
    files s0 = files s
    ∨ ∃ r j, r0 = Ok r
             ∧ use_cache && SECHttpClient.enable_cache self = true
             ∧ status_code r = 200%Z
             ∧ as_json (content r) = Some j
             ∧ files s0
               = <[SimpleCache._get_cache_path (SECHttpClient.cache_key url params) :=
                     File true (clock s0)
                       (blob_of_json
                          (SimpleCache.entry j
                             (clock s0 + SECHttpClient.cache_ttl self)))]> (files s)).
  { intros r0 s0 E0.
    apply bind_inv in E0 as [(response & s1 & E1 & E2)|(e0 & E1 & _)].
    2: { left. revert E1. by apply (preserves_session_get (keeps files)). }
    assert (Hf1 : files s1 = files s).
    { revert E1. by apply (preserves_session_get (keeps files)). }
    apply bind_inv in E2 as [([] & s2 & E2 & E3)|(e0 & E2 & _)].
    2: { left. unfold raise_for_status in E2.
         destruct ((400 <=? status_code response)
                   && (status_code response <? 600))%Z; inversion E2; by subst. }
    assert (s2 = s1) as ->.
    { unfold raise_for_status in E2.
      by destruct ((400 <=? status_code response)
                   && (status_code response <? 600))%Z; inversion E2. }
    destruct (store_files self url params use_cache response s1)
      as (s3 & E4 & Hc3 & Hf3).
    rewrite (bind_ok _ _ _ _ _ E4) in E3. inversion E3; subst.
    destruct Hf3 as [Hf3|(j & Hu & Hs & Hj & _ & Hf3)]; [left; congruence|].
    right. exists response, j. split_and!; try done.
    by rewrite Hf3, Hc3, Hf1. }
  apply try_except_inv in E
    as [(a & E1 & ->)|[(e0 & E1 & _ & ->)|(e0 & s1 & h & E1 & Hh & E2)]].
  - by apply Hbody in E1.
  - apply Hbody in E1 as [?|(r & j & [=] & _)]. by left.
  - apply Hbody in E1 as [Hf1|(r & j & [=] & _)].
    destruct e0; simplify_eq. inversion E2; subst. by left.
Qed.

(** Only the JSON body of a [200] reply is ever cached.  Whatever the
    state and however a fetch ends, every file but the entry of the
    request's key is as it was, and of that entry one of three things is
    true.  It is as it was.  Or the cache is in use, the lookup has dropped
    it and nothing took its place.  Or the fetch returned a reply of status
    [200] whose body is JSON, and the entry holds that body and expires
    [cache_ttl] after the moment it was stored.  A failed request, a reply
    of another status and a body that is not JSON store nothing. *)
Theorem fetch_stores_only_ok_json self over url hdrs params use_cache s :
  files (SECHttpClient.get self over url hdrs params use_cache s).2 = files s
  ∨ (use_cache && SECHttpClient.enable_cache self = true
     ∧ files (SECHttpClient.get self over url hdrs params use_cache s).2
       = delete (SimpleCache._get_cache_path (SECHttpClient.cache_key url params))
           (files s))
  ∨ ∃ r j,
      (SECHttpClient.get self over url hdrs params use_cache s).1 = Ok r
      ∧ use_cache && SECHttpClient.enable_cache self = true
      ∧ status_code r = 200%Z
      ∧ as_json (content r) = Some j
      ∧ files (SECHttpClient.get self over url hdrs params use_cache s).2
        = <[SimpleCache._get_cache_path (SECHttpClient.cache_key url params) :=
              File true
                (clock (SECHttpClient.get self over url hdrs params use_cache s).2)
                (blob_of_json
                   (SimpleCache.entry j
                      (clock (SECHttpClient.get self over url hdrs params
                                use_cache s).2
                       + SECHttpClient.cache_ttl self)))]> (files s).
Proof.
  unfold SECHttpClient.get.
  destruct (SECHttpClient.cache_lookup self url params use_cache s)
    as [hit sa] eqn:Ea.
  pose proof (cache_lookup_drops _ _ _ _ _ _ _ Ea) as Hfa.
  destruct hit as [[response|]|e].
  - rewrite (bind_ok _ _ _ _ _ Ea). simpl.
    destruct Hfa as [?|?]; [by left | by right; left].
  - rewrite (bind_ok _ _ _ _ _ Ea).
    destruct (RateLimiter.wait_if_needed (SECHttpClient.rate_limiter self) over sa)
      as [res0 s0] eqn:E0.
    assert (Hf0 : files s0 = files sa).
    { revert E0. by apply (preserves_wait_if_needed (keeps files)). }
    destruct res0 as [[]|e].
    2: { rewrite (bind_raise _ _ _ _ _ E0). simpl. rewrite Hf0.
         destruct Hfa as [?|?]; [by left | by right; left]. }
    rewrite (bind_ok _ _ _ _ _ E0).
    destruct (SECHttpClient.request_and_store self over url hdrs params
                use_cache s0) as [res s'] eqn:E.
    apply request_and_store_files in E as [Hf|(r & j & -> & Hu & Hs & Hj & Hf)].
    + simpl. rewrite Hf, Hf0.
      destruct Hfa as [?|?]; [by left | by right; left].
    + right; right. exists r, j. simpl. split_and!; try done.
      rewrite Hf, Hf0. destruct Hfa as [->|[_ ->]]; [done|].
      apply insert_delete_eq.
  - rewrite (bind_raise _ _ _ _ _ Ea). simpl.
    destruct Hfa as [?|?]; [by left | by right; left].
Qed.



End Stored.

(** ** Text *)

Section Text.
#[local] Arguments String.append !_ _ / : simpl nomatch.

Lemma str_app_nil_r (s : string) : s +:+ EmptyString = s.
Proof. induction s as [|c s IH]; simpl; [done | by rewrite IH]. Qed.

Lemma str_app_assoc (s1 s2 s3 : string) : (s1 +:+ s2) +:+ s3 = s1 +:+ (s2 +:+ s3).
Proof. induction s1 as [|c s1 IH]; simpl; [done | by rewrite IH]. Qed.

Lemma str_length_app (s1 s2 : string) :
  String.length (s1 +:+ s2) = String.length s1 + String.length s2.
Proof. induction s1 as [|c s1 IH]; simpl; [done | by rewrite IH]. Qed.

Lemma zeros_length n : String.length (zeros n) = n.
Proof. induction n as [|n IH]; simpl; [done | by rewrite IH]. Qed.

Lemma zeros_add n m : zeros (n + m) = zeros n +:+ zeros m.
Proof. induction n as [|n IH]; simpl; [done | by rewrite IH]. Qed.

Lemma all_chars_app f s1 s2 :
  all_chars f (s1 +:+ s2) = all_chars f s1 && all_chars f s2.
Proof.
  induction s1 as [|c s1 IH]; simpl; [done|]. by rewrite IH, andb_assoc.
Qed.

Lemma is_digit_not_space c : is_digit c = true → isspace c = false.
Proof. by destruct c as [[] [] [] [] [] [] [] []]. Qed.

Lemma is_digit_not_sign c : is_digit c = true → is_sign c = false.
Proof. by destruct c as [[] [] [] [] [] [] [] []]. Qed.

Lemma is_digit_zeros n : all_chars is_digit (zeros n) = true.
Proof. induction n as [|n IH]; simpl; [done | exact IH]. Qed.

Section Strip.
Context (drop : ascii → bool).

Lemma lstrip_of_idemp s : lstrip_of drop (lstrip_of drop s) = lstrip_of drop s.
Proof.
  induction s as [|c s IH]; simpl; [done|].
  destruct (drop c) eqn:E; [done|]. simpl. by rewrite E.
Qed.

Lemma lstrip_of_dropped w s :
  all_chars drop w = true → lstrip_of drop (w +:+ s) = lstrip_of drop s.
Proof.
  induction w as [|c w IH]; simpl; [done|].
  intros [-> Hw]%andb_true_iff. by apply IH.
Qed.

Lemma rstrip_of_dropped w : all_chars drop w = true → rstrip_of drop w = EmptyString.
Proof.
  induction w as [|c w IH]; simpl; [done|].
  intros [-> Hw]%andb_true_iff. by rewrite IH.
Qed.

Lemma rstrip_of_app a b :
  rstrip_of drop (a +:+ b)
  = match rstrip_of drop b with
    | EmptyString => rstrip_of drop a
    | kept => a +:+ kept
    end.
Proof.
  induction a as [|c a IH]; simpl.
  - by destruct (rstrip_of drop b).
  - rewrite IH. destruct (rstrip_of drop b) as [|c' kept]; [done|].
    by destruct a.
Qed.

(** A text that [rstrip] leaves alone stays so when characters are taken
    off its front. *)
Lemma rstrip_of_tail c s :
  rstrip_of drop (String c s) = String c s → rstrip_of drop s = s.
Proof.
  simpl. destruct (rstrip_of drop s) as [|c' kept] eqn:E.
  - destruct (drop c); [done|]. by intros [= <-].
  - by intros [= <-].
Qed.

Lemma rstrip_of_lstrip_of s :
  rstrip_of drop s = s → rstrip_of drop (lstrip_of drop s) = lstrip_of drop s.
Proof.
  induction s as [|c s IH]; [done|]. intros E. simpl.
  destruct (drop c); [|done]. apply IH. by apply rstrip_of_tail in E.
Qed.

Lemma rstrip_of_idemp s : rstrip_of drop (rstrip_of drop s) = rstrip_of drop s.
Proof.
  induction s as [|c s IH]; simpl; [done|].
  destruct (rstrip_of drop s) as [|c' kept] eqn:E.
  - destruct (drop c) eqn:Ec; [done|]. simpl. by rewrite Ec.
  - simpl in *. by rewrite IH.
Qed.

Lemma rstrip_of_kept s :
  all_chars (λ c, negb (drop c)) s = true → rstrip_of drop s = s.
Proof.
  induction s as [|c s IH]; simpl; [done|].
  intros [Hc Hs]%andb_true_iff. rewrite IH by done.
  destruct s; [|done]. by apply negb_true_iff in Hc as ->.
Qed.

End Strip.

Lemma strip_trimmed s :
  lstrip_of isspace (strip s) = strip s ∧ rstrip_of isspace (strip s) = strip s.
Proof.
  unfold strip. split; [apply lstrip_of_idemp|].
  apply rstrip_of_lstrip_of, rstrip_of_idemp.
Qed.

Lemma strip_id s :
  lstrip_of isspace s = s → rstrip_of isspace s = s → strip s = s.
Proof. intros Hl Hr. unfold strip. by rewrite Hr. Qed.

Lemma strip_idemp s : strip (strip s) = strip s.
Proof. destruct (strip_trimmed s). by apply strip_id. Qed.

Lemma digits_kept s :
  all_chars is_digit s = true → all_chars (λ c, negb (isspace c)) s = true.
Proof.
  induction s as [|c s IH]; simpl; [done|].
  intros [Hc Hs]%andb_true_iff. by rewrite (is_digit_not_space c Hc), IH.
Qed.

(** Digits between white space: [strip] returns the digits. *)
Lemma strip_digits w1 d w2 :
  all_chars isspace w1 = true → all_chars isspace w2 = true →
  all_chars is_digit d = true →
  strip (w1 +:+ d +:+ w2) = d.
Proof.
  intros Hw1 Hw2 Hd. unfold strip.
  assert (Hkeep : rstrip_of isspace d = d) by (by apply rstrip_of_kept, digits_kept).
  rewrite rstrip_of_app, rstrip_of_app, (rstrip_of_dropped _ w2), Hkeep by done.
  destruct d as [|c d].
  - by rewrite rstrip_of_dropped.
  - rewrite lstrip_of_dropped by done. simpl in *.
    apply andb_true_iff in Hd as [Hc _]. by rewrite (is_digit_not_space c Hc).
Qed.

Lemma zfill_length width s :
  String.length (zfill width s) = Nat.max width (String.length s).
Proof.
  unfold zfill. destruct s as [|c s]; simpl.
  - rewrite zeros_length. lia.
  - destruct (is_sign c); simpl; rewrite str_length_app, zeros_length; simpl; lia.
Qed.

Lemma zfill_long width s : width ≤ String.length s → zfill width s = s.
Proof.
  intros Hle. unfold zfill. replace (width - String.length s) with 0 by lia.
  destruct s as [|c s]; simpl; [done|]. by destruct (is_sign c).
Qed.

Lemma zfill_digits width d :
  all_chars is_digit d = true →
  zfill width d = zeros (width - String.length d) +:+ d.
Proof.
  intros Hd. unfold zfill. destruct d as [|c d]; simpl.
  - by rewrite str_app_nil_r.
  - simpl in Hd. apply andb_true_iff in Hd as [Hc _].
    by rewrite (is_digit_not_sign c Hc).
Qed.

(** [zfill] keeps a text free of white space at both ends that way. *)
Lemma zfill_trimmed width s :
  lstrip_of isspace s = s → rstrip_of isspace s = s →
  lstrip_of isspace (zfill width s) = zfill width s
  ∧ rstrip_of isspace (zfill width s) = zfill width s.
Proof.
  intros Hl Hr.
  destruct (decide (width ≤ String.length s)) as [Hle|Hgt].
  { by rewrite zfill_long. }
  assert (Hfill : ∃ n, width - String.length s = S n) by (exists (width - String.length s - 1); lia).
  destruct Hfill as [n Hn].
  assert (Hz : rstrip_of isspace (zeros (S n)) = zeros (S n)).
  { apply rstrip_of_kept. generalize (S n). intros m.
    induction m as [|m IH]; simpl; [done | exact IH]. }
  unfold zfill. rewrite Hn. destruct s as [|c s].
  { split; [done | exact Hz]. }
  assert (Hc : isspace c = false).
  { simpl in Hl. destruct (isspace c) eqn:Ec; [|done]. exfalso.
    assert (Hlen : String.length (lstrip_of isspace s) ≤ String.length s).
    { clear. induction s as [|c s IH]; simpl; [done|].
      destruct (isspace c); simpl; lia. }
    rewrite Hl in Hlen. simpl in Hlen. lia. }
  assert (Htail : rstrip_of isspace (zeros (S n) +:+ s) = zeros (S n) +:+ s).
  { rewrite rstrip_of_app, (rstrip_of_tail _ _ _ Hr).
    destruct s; [|done]. by rewrite str_app_nil_r. }
  destruct (is_sign c).
  - split; [simpl; by rewrite Hc|].
    change (rstrip_of isspace (String c (zeros (S n) +:+ s)))
      with (match rstrip_of isspace (zeros (S n) +:+ s) with
            | EmptyString => if isspace c then EmptyString else str1 c
            | kept => String c kept
            end).
    by rewrite Htail.
  - split; [done|]. rewrite rstrip_of_app, Hr. done.
Qed.

Lemma replace_char_app old s1 s2 :
  replace_char old EmptyString (s1 +:+ s2)
  = replace_char old EmptyString s1 +:+ replace_char old EmptyString s2.
Proof.
  induction s1 as [|c s1 IH]; simpl; [done|].
  rewrite IH. by destruct (Ascii.eqb c old).
Qed.

Lemma replace_char_free old s :
  all_chars (λ c, negb (Ascii.eqb c old)) (replace_char old EmptyString s) = true.
Proof.
  induction s as [|c s IH]; simpl; [done|].
  destruct (Ascii.eqb c old) eqn:E; simpl; [done|]. by rewrite E.
Qed.

Lemma replace_char_id old s :
  all_chars (λ c, negb (Ascii.eqb c old)) s = true → replace_char old EmptyString s = s.
Proof.
  induction s as [|c s IH]; simpl; [done|].
  intros [Hc Hs]%andb_true_iff. apply negb_true_iff in Hc as ->.
  simpl. by rewrite IH.
Qed.

End Text.

(** ** The URLs the tools build *)

Section Urls.
#[local] Arguments String.append !_ _ / : simpl nomatch.

Lemma cik_padded_trimmed cik :
  lstrip_of isspace (cik_padded cik) = cik_padded cik
  ∧ rstrip_of isspace (cik_padded cik) = cik_padded cik.
Proof. destruct (strip_trimmed cik). by apply zfill_trimmed. Qed.

Lemma cik_padded_length cik : 10 ≤ String.length (cik_padded cik).
Proof. unfold cik_padded. rewrite zfill_length. lia. Qed.

Lemma cik_padded_idemp cik : cik_padded (cik_padded cik) = cik_padded cik.
Proof.
  destruct (cik_padded_trimmed cik) as [Hl Hr].
  unfold cik_padded at 1. rewrite (strip_id _ Hl Hr).
  apply zfill_long, cik_padded_length.
Qed.

(** A padded CIK is a fixed point of the padding.  What a tool reports as
    [cik] can be handed to any tool that takes a CIK: it is padded to itself
    and names the same URLs.  It is never shorter than ten characters, and a
    CIK of ten characters or more, once stripped, is passed on as it is,
    without truncation. *)
Theorem padded_cik_is_a_fixed_point cik accession :
  cik_padded (cik_padded cik) = cik_padded cik
  ∧ 10 ≤ String.length (cik_padded cik)
  ∧ (if decide (10 ≤ String.length (strip cik))
     then cik_padded cik = strip cik
     else String.length (cik_padded cik) = 10)
  ∧ GetCompanySubmissionsTool.url (cik_padded cik)
    = GetCompanySubmissionsTool.url cik
  ∧ BuildFilingIndexUrlTool.url (cik_padded cik) accession
    = BuildFilingIndexUrlTool.url cik accession
  ∧ BuildCompleteSubmissionTxtUrlTool.url (cik_padded cik) accession
    = BuildCompleteSubmissionTxtUrlTool.url cik accession
  ∧ BuildFilingFolderUrlTool.url (cik_padded cik) accession
    = BuildFilingFolderUrlTool.url cik accession.
Proof.
  pose proof (cik_padded_idemp cik) as Hid.
  split_and!; [done | apply cik_padded_length | | | | |].
  - destruct (decide _) as [Hle|Hgt].
    + by apply zfill_long.
    + unfold cik_padded. rewrite zfill_length. lia.
  - unfold GetCompanySubmissionsTool.url. by rewrite Hid.
  - unfold BuildFilingIndexUrlTool.url. by rewrite Hid.
  - unfold BuildCompleteSubmissionTxtUrlTool.url. by rewrite Hid.
  - unfold BuildFilingFolderUrlTool.url. by rewrite Hid.
Qed.

(** A numeric CIK has one padded form.  However a CIK of at most ten
    digits is written, with or without leading zeros and with white space
    around it, the tools pad it to the same ten digits and fetch the same
    submissions URL. *)
Theorem numeric_cik_has_one_form w1 w2 k d :
  all_chars isspace w1 = true →
  all_chars isspace w2 = true →
  all_chars is_digit d = true →
  k + String.length d ≤ 10 →
  cik_padded (w1 +:+ (zeros k +:+ d) +:+ w2) = zeros (10 - String.length d) +:+ d
  ∧ cik_padded d = zeros (10 - String.length d) +:+ d
  ∧ String.length (zeros (10 - String.length d) +:+ d) = 10
  ∧ all_chars is_digit (zeros (10 - String.length d) +:+ d) = true
  ∧ GetCompanySubmissionsTool.url (w1 +:+ (zeros k +:+ d) +:+ w2)
    = GetCompanySubmissionsTool.url d.
Proof.
  intros Hw1 Hw2 Hd Hlen.
  assert (Hzd : all_chars is_digit (zeros k +:+ d) = true).
  { by rewrite all_chars_app, is_digit_zeros, Hd. }
  assert (E1 : cik_padded (w1 +:+ (zeros k +:+ d) +:+ w2)
               = zeros (10 - String.length d) +:+ d).
  { unfold cik_padded. rewrite strip_digits by done.
    rewrite zfill_digits by done.
    rewrite str_length_app, zeros_length, <- str_app_assoc, <- zeros_add.
    f_equal. f_equal. lia. }
  assert (E2 : cik_padded d = zeros (10 - String.length d) +:+ d).
  { unfold cik_padded.
    rewrite <- (str_app_nil_r d) at 1.
    change (d +:+ EmptyString) with (EmptyString +:+ d +:+ EmptyString).
    rewrite strip_digits by done. by apply zfill_digits. }
  split_and!; [done | done | | |].
  - rewrite str_length_app, zeros_length. lia.
  - by rewrite all_chars_app, is_digit_zeros, Hd.
  - unfold GetCompanySubmissionsTool.url. by rewrite E1, E2.
Qed.

(** An accession number may be given with or without its dashes where the
    folder of a filing is asked for.  Taking the dashes out leaves none,
    changes nothing when done again, works part by part, and the folder URL
    of the result is the folder URL of the original. *)
Theorem filing_folder_url_ignores_dashes cik accession p1 p2 p3 :
  all_chars (λ c, negb (Ascii.eqb c "-")) (accession_no_dashes accession) = true
  ∧ accession_no_dashes (accession_no_dashes accession)
    = accession_no_dashes accession
  ∧ accession_no_dashes (p1 +:+ "-" +:+ p2 +:+ "-" +:+ p3)
    = accession_no_dashes p1 +:+ accession_no_dashes p2 +:+ accession_no_dashes p3
  ∧ BuildFilingFolderUrlTool.url cik (accession_no_dashes accession)
    = BuildFilingFolderUrlTool.url cik accession.
Proof.
  assert (Hid : accession_no_dashes (accession_no_dashes accession)
                = accession_no_dashes accession).
  { apply replace_char_id, replace_char_free. }
  split_and!; [apply replace_char_free | done | |].
  - unfold accession_no_dashes. by rewrite !replace_char_app.
  - unfold BuildFilingFolderUrlTool.url. by rewrite Hid.
Qed.

Lemma prefix_empty s : String.prefix EmptyString s = true.
Proof. by destruct s. Qed.

Lemma prefix_app_false a b s :
  String.prefix a s = false → String.prefix (a +:+ b) s = false.
Proof.
  revert s. induction a as [|c a IH]; intros s.
  - by rewrite prefix_empty.
  - destruct s as [|d s]; [done|]. simpl.
    destruct (ascii_dec c d); [apply IH | done].
Qed.

(** The spellings of an EDGAR path agree.  A path from an index file may
    start with any number of slashes and with [edgar/data/] or not: the
    document URL is the same.  A path that starts with [edgar/] and goes on
    with something other than [data/] loses that [edgar/]. *)
Theorem edgar_path_spellings_agree w p :
  all_chars (Ascii.eqb "/") w = true →
  EdgarPathToDocUrlTool.url (w +:+ "edgar/data/" +:+ p)
    = "https://www.sec.gov/Archives/edgar/data/" +:+ p
  ∧ (String.prefix "data/" p = false →
     EdgarPathToDocUrlTool.url (w +:+ "edgar/" +:+ p)
       = "https://www.sec.gov/Archives/edgar/data/" +:+ p)
  ∧ (String.prefix "/" p = false → String.prefix "edgar/" p = false →
     EdgarPathToDocUrlTool.url (w +:+ p)
       = "https://www.sec.gov/Archives/edgar/data/" +:+ p).
Proof.
  intros Hw.
  unfold EdgarPathToDocUrlTool.url, EdgarPathToDocUrlTool.path. split_and!.
  - rewrite (lstrip_of_dropped _ w) by done. f_equal. simpl.
    by rewrite prefix_empty.
  - intros Hd. rewrite (lstrip_of_dropped _ w) by done. f_equal. simpl.
    by rewrite Hd, prefix_empty.
  - intros Hs Hp. rewrite (lstrip_of_dropped _ w) by done. f_equal.
    assert (Hl : lstrip_of (Ascii.eqb "/") p = p).
    { destruct p as [|c p]; [done|].
      change (lstrip_of (Ascii.eqb "/") (String c p))
        with (if Ascii.eqb "/" c then lstrip_of (Ascii.eqb "/") p else String c p).
      destruct (Ascii.eqb "/" c) eqn:Ec; [|done].
      apply Ascii.eqb_eq in Ec as <-. simpl in Hs.
      by rewrite prefix_empty in Hs. }
    assert (Hdata : String.prefix "edgar/data/" p = false).
    { by apply (prefix_app_false "edgar/" "data/"). }
    by rewrite Hl, Hdata, Hp.
Qed.

(** The paths the listing tool enumerates.  For a quarter other than [0]
    they are six: for each of the three months that end at three times the
    quarter, in order, the file [master.MM.idx] and then [master.MM.idx.gz]
    under [https://www.sec.gov/Archives/edgar/daily-index/YEAR/QTRq], with
    the month in two digits.  For a year they are the paths of its four
    quarters one after the other, twenty-four in all.  A quarter of [0]
    counts as none. *)
Theorem daily_index_paths_listing year quarter :
  (∀ q, q ≠ 0%Z →
     ListDailyIndexPathsTool.paths year (Some q)
     = flat_map
         (λ month,
            ["https://www.sec.gov/Archives/edgar/daily-index/" +:+ pretty year
               +:+ "/QTR" +:+ pretty q +:+ "/master." +:+ format_02d month
               +:+ ".idx";
             "https://www.sec.gov/Archives/edgar/daily-index/" +:+ pretty year
               +:+ "/QTR" +:+ pretty q +:+ "/master." +:+ format_02d month
               +:+ ".idx.gz"])
         [(q - 1) * 3 + 1; (q - 1) * 3 + 2; (q - 1) * 3 + 3]%Z)
  ∧ length (ListDailyIndexPathsTool.paths year quarter)
    = (match quarter with
       | Some q => if (q =? 0)%Z then 24 else 6
       | None => 24
       end)
  ∧ ListDailyIndexPathsTool.paths year None
    = ListDailyIndexPathsTool.paths year (Some 1%Z)
      ++ ListDailyIndexPathsTool.paths year (Some 2%Z)
      ++ ListDailyIndexPathsTool.paths year (Some 3%Z)
      ++ ListDailyIndexPathsTool.paths year (Some 4%Z)
  ∧ ListDailyIndexPathsTool.paths year (Some 0%Z)
    = ListDailyIndexPathsTool.paths year None.
Proof.
  assert (Hr : ∀ q, range ((q - 1) * 3 + 1) (q * 3 + 1)
                    = [(q - 1) * 3 + 1; (q - 1) * 3 + 2; (q - 1) * 3 + 3]%Z).
  { intros q. unfold range.
    replace (q * 3 + 1 - ((q - 1) * 3 + 1))%Z with 3%Z by lia.
    unfold seqZ. change (Z.to_nat 3) with 3. simpl.
    replace (Z.of_nat 0 + ((q - 1) * 3 + 1))%Z with ((q - 1) * 3 + 1)%Z by lia.
    replace (Z.of_nat 1 + ((q - 1) * 3 + 1))%Z with ((q - 1) * 3 + 2)%Z by lia.
    by replace (Z.of_nat 2 + ((q - 1) * 3 + 1))%Z with ((q - 1) * 3 + 3)%Z by lia. }
  assert (Hq : ∀ q, length (ListDailyIndexPathsTool.quarter_paths year q) = 6).
  { intros q. unfold ListDailyIndexPathsTool.quarter_paths. by rewrite Hr. }
  assert (Hall : length (flat_map (ListDailyIndexPathsTool.quarter_paths year)
                           (range 1 5)) = 24).
  { change (range 1 5) with [1; 2; 3; 4]%Z. simpl.
    rewrite ?length_app, ?Hq. done. }
  split_and!.
  - intros q Hq0. unfold ListDailyIndexPathsTool.paths.
    apply Z.eqb_neq in Hq0. rewrite Hq0.
    unfold ListDailyIndexPathsTool.quarter_paths. rewrite Hr.
    unfold month_paths, base_url. simpl.
    reflexivity.
  - unfold ListDailyIndexPathsTool.paths.
    destruct quarter as [q|]; [destruct (q =? 0)%Z|]; done.
  - unfold ListDailyIndexPathsTool.paths.
    change (range 1 5) with [1; 2; 3; 4]%Z. reflexivity.
  - done.
Qed.

(** The download tool asks for files the listing tool names.  For a month
    from 1 to 12 the quarter the download tool computes is one of 1 to 4,
    and the two URLs it tries are among the paths listed for that year and
    quarter, and for the year as a whole. *)
Theorem master_index_urls_are_listed year month :
  (1 ≤ month ≤ 12)%Z →
  (1 ≤ (month - 1) / 3 + 1 ≤ 4)%Z
  ∧ DownloadDailyMasterIndexTool.urls_to_try year month
    ⊆ ListDailyIndexPathsTool.paths year (Some ((month - 1) / 3 + 1)%Z)
  ∧ DownloadDailyMasterIndexTool.urls_to_try year month
    ⊆ ListDailyIndexPathsTool.paths year None.
Proof.
  intros Hm. set (q := ((month - 1) / 3 + 1)%Z).
  assert (Hq : (1 ≤ q ≤ 4)%Z).
  { unfold q. split.
    - assert (0 ≤ (month - 1) / 3)%Z by (apply Z.div_pos; lia). lia.
    - assert ((month - 1) / 3 < 4)%Z by (apply Z.div_lt_upper_bound; lia). lia. }
  assert (Hin : DownloadDailyMasterIndexTool.urls_to_try year month
                ⊆ ListDailyIndexPathsTool.quarter_paths year q).
  { intros u Hu. apply list_elem_of_In.
    unfold ListDailyIndexPathsTool.quarter_paths. apply in_flat_map.
    exists month. split; [|by apply list_elem_of_In].
    apply list_elem_of_In, elem_of_seqZ. unfold q.
    pose proof (Z.div_mod (month - 1) 3 ltac:(lia)) as Hdm.
    pose proof (Z.mod_pos_bound (month - 1) 3 ltac:(lia)). lia. }
  split; [done|]. split.
  - unfold ListDailyIndexPathsTool.paths.
    destruct (q =? 0)%Z eqn:E0; [apply Z.eqb_eq in E0; lia | done].
  - intros u Hu. apply list_elem_of_In.
    unfold ListDailyIndexPathsTool.paths. apply in_flat_map.
    exists q. split.
    + apply list_elem_of_In, elem_of_seqZ. lia.
    + by apply list_elem_of_In, Hin.
Qed.

End Urls.

(** ** The tools that fetch *)




Section Tools.
Context `{Runtime} `{Builtins}.

Lemma after_mkdir_inv d s :
  after_mkdir d s = s ∨ ∃ ds, after_mkdir d s = with_dirs ds s.
Proof. unfold after_mkdir. destruct (bool_decide _); eauto. Qed.

(** Asking for the default client touches nothing but the directories. *)
Lemma after_default_client_keeps {X : Type} (proj : state → X) g s :
  (∀ ds s, proj (with_dirs ds s) = proj s) →
  proj (after_default_client g s) = proj s.
Proof.
  intros Hd. destruct g as [client|]; [done|]. simpl.
  destruct (after_mkdir_inv cache_dir s) as [->|[ds ->]]; [done | apply Hd].
Qed.

(** [SECHttpClient()] with its default arguments, whatever the run time:
    the client is built where its cache directory is there or can be
    made. *)
Lemma get_default_client_run g s :
  ∃ client,
    match g with
    | Some c => client = c
    | None =>
        SECHttpClient.init "flow_researcher bryan@example.com" 10 30 3600 true
        = Ok client
    end
    ∧ get_default_client g s
      = if client_ready g s
        then (Ok (client, Some client), after_default_client g s)
        else (Raise IOError, s).
Proof.
  destruct g as [client|].
  - by exists client.
  - unfold get_default_client, SECHttpClient.__init__, SimpleCache.__init__, lift.
    destruct (SECHttpClient.init _ _ _ _ _) as [client|e] eqn:E; [|done].
    exists client. split; [done|]. simpl.
    unfold mbind, M_bind at 1. unfold mbind, M_bind at 1.
    unfold mbind, M_bind at 1. unfold mret, M_ret at 1.
    rewrite mkdir_parents_run. by destruct (can_mkdir cache_dir s).
Qed.





(** How [_run] of the submissions tool ends once the fetch has returned. *)
Lemma submissions_run_ok cik over g s s0 client g' response data s1 :
  get_default_client g s = (Ok (client, g'), s0) →
  SECHttpClient.get client over (GetCompanySubmissionsTool.url cik) None None true s0
    = (Ok response, s1) →
  as_json (content response) = Some data →
  GetCompanySubmissionsTool._run cik over g s
  = (Ok (json_dumps false (GetCompanySubmissionsTool.fetched cik data), g'), s1).
Proof.
  intros Eg E1 Hj. unfold GetCompanySubmissionsTool._run.
  rewrite (bind_ok _ _ _ _ _ Eg).
  unfold try_except, mbind, M_bind at 1. unfold mbind, M_bind at 1.
  rewrite E1. unfold response_json. by rewrite Hj.
Qed.

(** The submissions tool answers a repeated question from the cache.  On a
    fresh process, when the submissions of a company are not cached and the
    origin answers [200] with a JSON body other than [null], the tool
    returns that body as [data]; and asked again within the hour, for the
    same CIK in any spelling that pads to the same ten characters, it
    returns the same text without sending anything: one request went out in
    all. *)
Theorem submissions_tool_answers_again_from_cache
    cik cik' over over' s r rest j elapsed :
  cik_padded cik' = cik_padded cik →
  disk_writable s = true →
  files s !! SimpleCache._get_cache_path
               (SECHttpClient.cache_key (GetCompanySubmissionsTool.url cik) None)
    = None →
  pending s = Answer r :: rest →
  status_code r = 200%Z →
  as_json (content r) = Some j →
  j ≠ JNull →
  (elapsed <= 3600)%Q →
  ∃ client,
    ((first ← GetCompanySubmissionsTool._run cik over None;
      elapse elapsed;;
      second ← GetCompanySubmissionsTool._run cik' over' first.2;
      mret (first.1, second.1, second.2)) s).1
    = Ok (json_dumps false (GetCompanySubmissionsTool.fetched cik j),
          json_dumps false (GetCompanySubmissionsTool.fetched cik j),
          Some client)
    ∧ attempts
        ((first ← GetCompanySubmissionsTool._run cik over None;
          elapse elapsed;;
          second ← GetCompanySubmissionsTool._run cik' over' first.2;
          mret (first.1, second.1, second.2)) s).2
      = attempts s + 1.
Proof.
  intros Hcik Hw Hnone Hp Hs Hj Hn Hle.
  destruct (get_default_client_run None s) as (client & Hinit & Eg).
  assert (client_ready None s = true) as Hready.
  { unfold client_ready, can_mkdir. rewrite Hw. apply orb_true_r. }
  rewrite Hready in Eg. clear Hready.
  set (s0 := after_default_client None s) in *.
  assert (Hw0 : disk_writable s0 = true)
    by (unfold s0; by rewrite (after_default_client_keeps disk_writable None s)).
  assert (Hnone0 : files s0 !! SimpleCache._get_cache_path
                                 (SECHttpClient.cache_key
                                    (GetCompanySubmissionsTool.url cik) None)
                   = None)
    by (unfold s0; by rewrite (after_default_client_keeps files None s)).
  assert (Hp0 : pending s0 = Answer r :: rest)
    by (unfold s0; by rewrite (after_default_client_keeps pending None s)).
  assert (Ha0 : attempts s0 = attempts s)
    by (by apply (after_default_client_keeps attempts)).
  clearbody s0. exists client.
  destruct (init_policy _ _ _ _ _ _ Hinit) as [Hpol Hrps].
  assert (HC : (0 < RateLimiter.max_rps (SECHttpClient.rate_limiter client))%Q)
    by (by rewrite Hrps).
  assert (Hen : SECHttpClient.enable_cache client = true)
    by (by apply init_inv in Hinit as [-> _]).
  set (url := GetCompanySubmissionsTool.url cik) in *.
  assert (Hurl : GetCompanySubmissionsTool.url cik' = url).
  { unfold url, GetCompanySubmissionsTool.url. by rewrite Hcik. }
  destruct (get_stores _ _ _ _ client over url None None s0 r rest j
              Hinit eq_refl Hw0 Hnone0 Hp0 Hs Hj) as (s2 & E2 & Hf2).
  assert (Ha2 : attempts s2 = attempts s + 1).
  { destruct (get_reply client over url None None true s0 r rest 1 HC)
      as (_ & _ & Ha).
    - by right.
    - intros sb Hpb. apply session_get_first; [done | congruence | |].
      + by apply is_retry_success.
      + by apply final_success.
    - rewrite E2 in Ha. simpl in Ha. lia. }
  rewrite (bind_ok _ _ _ _ _
             (submissions_run_ok cik over None s s0 client _ r j s2 Eg E2 Hj)).
  erewrite bind_ok by reflexivity. simpl.
  set (s3 := with_clock (clock s2 + elapsed) s2).
  assert (Hf3 : files s3 !! SimpleCache._get_cache_path
                               (SECHttpClient.cache_key url None)
                = Some (File true (clock s2)
                          (blob_of_json (SimpleCache.entry j (clock s2 + 3600)))))
    by exact Hf2.
  assert (Hc3 : clock s3 = (clock s2 + elapsed)%Q) by done.
  assert (Ha3 : attempts s3 = attempts s2) by done.
  clearbody s3.
  assert (E3 : SECHttpClient.get client over' url None None true s3
               = (Ok (SECHttpClient.mock_response j),
                  after_get (SECHttpClient.cache_key url None) s3)).
  { apply get_served_from_cache; [done | | done].
    rewrite (cache_get_record _ s3 _ _ false Hf3 eq_refl eq_refl); [done|].
    simpl. rewrite Hc3. f_equal. apply Qltb_false. lra. }
  assert (E4 : GetCompanySubmissionsTool._run cik' over' (Some client) s3
               = (Ok (json_dumps false (GetCompanySubmissionsTool.fetched cik' j),
                      Some client),
                  after_get (SECHttpClient.cache_key url None) s3)).
  { apply (submissions_run_ok cik' over' (Some client) s3 s3 client (Some client)
             (SECHttpClient.mock_response j)); [done | by rewrite Hurl | done]. }
  rewrite (bind_ok _ _ _ _ _ E4). simpl. split.
  - unfold GetCompanySubmissionsTool.fetched. by rewrite Hurl.
  - unfold attempts, sent in *. simpl. rewrite filter_snoc_false by done.
    congruence.
Qed.








End Tools.

(** ** Listing recent filings *)

Section Filings.
Import ListRecentFilingsTool.


Lemma attempt_bind_got {A B : Type} (a : A) (f : A → attempt B) : Got a ≫= f = f a.
Proof. reflexivity. Qed.

Lemma py_index_or_none_list column i :
  py_index_or_none (JArr column) i = Got (cell column i).
Proof.
  unfold py_index_or_none, cell. simpl.
  destruct (i <? length column) eqn:E; simpl.
  - apply Nat.ltb_lt in E. apply lookup_lt_is_Some in E as [x Hx]. by rewrite Hx.
  - apply Nat.ltb_ge in E. by rewrite lookup_ge_None_2.
Qed.


Lemma row_limit_reached limit n :
  0 < n → (limit <=? Z.of_nat n)%Z = true ↔ row_limit limit ≤ n.
Proof. intros Hn. unfold row_limit. rewrite Z.leb_le. lia. Qed.




Lemma wanted_meta forms form filing_date report_date acceptance accession primary :
  wanted forms
    (filing_meta form filing_date report_date acceptance accession primary)
  = negb (filtered_out forms form).
Proof. reflexivity. Qed.

(** The loop on columns that are lists, against the table of their rows. *)
Lemma loop_table accessions forms_column dates reports acceptances documents
    forms limit k rest normalized :
  length normalized < row_limit limit →
  accessions = take k accessions ++ rest →
  k = length (take k accessions) →
  loop (Columns (JArr accessions) (JArr forms_column) (JArr dates) (JArr reports)
          (JArr acceptances) (JArr documents))
    forms limit (seq k (length rest)) normalized
  = Got (take (row_limit limit)
           (normalized
            ++ List.filter (wanted forms)
                 (imap (λ i accession,
                          filing_meta (cell forms_column (k + i)) (cell dates (k + i))
                            (cell reports (k + i)) (cell acceptances (k + i))
                            accession (cell documents (k + i)))
                       rest))).
Proof.
  revert k normalized. induction rest as [|acc rest IH]; intros k normalized Hlt Hsplit Hk.
  { simpl. rewrite app_nil_r, take_ge by lia. done. }
  assert (Hacc : accessions !! k = Some acc).
  { rewrite Hsplit, lookup_app_r by lia. by replace (k - length (take k accessions)) with 0 by lia. }
  assert (Hrow : row (Columns (JArr accessions) (JArr forms_column) (JArr dates)
                        (JArr reports) (JArr acceptances) (JArr documents)) forms k
                 = Got (if filtered_out forms (cell forms_column k) then None
                        else Some (filing_meta (cell forms_column k) (cell dates k)
                                     (cell reports k) (cell acceptances k) acc
                                     (cell documents k)))).
  { unfold row. cbn [form_types filing_dates report_dates acceptance_dates
                     accession_numbers primary_docs].
    rewrite !py_index_or_none_list. simpl.
    destruct (filtered_out forms (cell forms_column k)); [done|].
    by rewrite Hacc. }
  assert (Hnext : accessions = take (S k) accessions ++ rest
                  ∧ S k = length (take (S k) accessions)).
  { rewrite (take_S_r _ _ _ Hacc), <- app_assoc. split; [done|].
    rewrite length_app. simpl. lia. }
  destruct Hnext as [Hsplit' Hk'].
  assert (Htail : ∀ normalized',
    length normalized' < row_limit limit →
    loop (Columns (JArr accessions) (JArr forms_column) (JArr dates) (JArr reports)
            (JArr acceptances) (JArr documents))
      forms limit (seq (S k) (length rest)) normalized'
    = Got (take (row_limit limit)
             (normalized'
              ++ List.filter (wanted forms)
                   (imap ((λ i accession,
                             filing_meta (cell forms_column (k + i)) (cell dates (k + i))
                               (cell reports (k + i)) (cell acceptances (k + i))
                               accession (cell documents (k + i))) ∘ S)
                         rest)))).
  { intros normalized' Hlt'. rewrite (IH (S k) normalized' Hlt' Hsplit' Hk').
    do 4 f_equal. apply imap_ext. intros i x _. simpl.
    by replace (k + S i) with (S (k + i)) by lia. }
  cbn [length seq loop imap List.filter]. rewrite Hrow.
  replace (k + 0) with k by lia. rewrite wanted_meta.
  destruct (filtered_out forms (cell forms_column k));
    cbn [negb mbind attempt_bind].
  - by apply Htail.
  - set (meta := filing_meta _ _ _ _ _ _).
    assert (Hlen : length (normalized ++ [meta]) = S (length normalized)).
    { rewrite length_app. simpl. lia. }
    destruct (limit <=? Z.of_nat (length (normalized ++ [meta])))%Z eqn:Estop.
    + apply row_limit_reached in Estop; [|lia].
      set (tail := List.filter _ _).
      replace (normalized ++ meta :: tail) with ((normalized ++ [meta]) ++ tail)
        by (by rewrite <- app_assoc).
      rewrite take_app_le by lia. by rewrite take_ge by lia.
    + rewrite Htail.
      * by rewrite <- app_assoc.
      * destruct (decide (row_limit limit ≤ length (normalized ++ [meta])))
          as [Hge|]; [|lia].
        apply row_limit_reached in Hge; [congruence | lia].
Qed.

Section Listed.
Context `{Runtime} `{Builtins}.


(** [_run] in one piece: the text of what the reply is made into. *)
Lemma run_outcome cik forms limit over g s s0 client g' :
  get_default_client g s = (Ok (client, g'), s0) →
  _run cik forms limit over g s
  = (Ok (json_dumps false
           (match (SECHttpClient.get client over (url cik) None None true s0).1 with
            | Ok response =>
                match as_json (content response) with
                | Some submissions => listed cik forms limit submissions
                | None => failed cik (exception_str JSONDecodeError)
                end
            | Raise e => failed cik (exception_str e)
            end), g'),
     (SECHttpClient.get client over (url cik) None None true s0).2).
Proof.
  intros Eg. unfold _run. rewrite (bind_ok _ _ _ _ _ Eg).
  unfold try_except, mbind, M_bind at 1. unfold mbind, M_bind at 1.
  destruct (SECHttpClient.get client over (url cik) None None true s0)
    as [[response|e] s1]; [|done].
  cbn [fst snd]. unfold response_json.
  by destruct (as_json (content response)).
Qed.


(** The list of recent filings is the head of the wanted rows.  When the
    default client is there or has been built, the fetch returns a reply
    whose body is a dict with [filings.recent], and the columns of that are
    lists, a column that is missing counting as an empty one, the tool reads
    them row by row, one row for each accession number with [null] where a
    column is too short; it keeps the rows of the forms asked for, all rows
    when none were; and it answers with the first [limit] of those, in the
    order of the reply. *)
Theorem recent_filings_are_the_first_wanted_rows
    cik forms limit over g s s0 client g' response s1 members filings recent
    accessions forms_column dates reports acceptances documents :
  get_default_client g s = (Ok (client, g'), s0) →
  SECHttpClient.get client over (ListRecentFilingsTool.url cik) None None true s0
    = (Ok response, s1) →
  as_json (content response) = Some (JObj members) →
  assoc "filings" members = Some (JObj filings) →
  assoc "recent" filings = Some (JObj recent) →
  assoc "accessionNumber" recent = Some (JArr accessions) →
  default (JArr []) (assoc "form" recent) = JArr forms_column →
  default (JArr []) (assoc "filingDate" recent) = JArr dates →
  default (JArr []) (assoc "reportDate" recent) = JArr reports →
  default (JArr []) (assoc "acceptanceDateTime" recent) = JArr acceptances →
  default (JArr []) (assoc "primaryDocument" recent) = JArr documents →
  ListRecentFilingsTool._run cik forms limit over g s
  = (Ok (json_dumps false
           (tool_result
              (JArr (take (row_limit limit)
                       (List.filter (wanted forms)
                          (table accessions forms_column dates reports
                             acceptances documents))))
              [ListRecentFilingsTool.url cik] []), g'),
     s1).
Proof.
  intros Eg Eget Hj Hf Hr Ha Hft Hfd Hrd Had Hpd.
  assert (Hget : ∀ m key d, py_get (JObj m) key d = Got (default d (assoc key m)))
    by done.
  assert (Hlisted : listed cik forms limit (JObj members)
                    = tool_result
                        (JArr (take (row_limit limit)
                                 (List.filter (wanted forms)
                                    (table accessions forms_column dates reports
                                       acceptances documents))))
                        [url cik] []).
  { unfold listed, normalize.
    rewrite Hget, Hf, attempt_bind_got. cbn [default from_option id].
    rewrite Hget, Hr, attempt_bind_got. cbn [default from_option id].
    assert (truthy (JObj recent) = true) as -> by (by destruct recent).
    cbn [negb py_in]. rewrite Ha, bool_decide_true, attempt_bind_got by eauto.
    cbn [negb]. rewrite !Hget, Ha, Hft, Hfd, Hrd, Had, Hpd.
    cbn [default from_option id]. rewrite !attempt_bind_got.
    change (py_len (JArr accessions)) with (Got (length accessions)).
    rewrite attempt_bind_got.
    rewrite (loop_table accessions forms_column dates reports acceptances
               documents forms limit 0 accessions []).
    - done.
    - unfold row_limit. simpl. lia.
    - done.
    - done. }
  rewrite (run_outcome cik forms limit over g s s0 client g' Eg), Eget.
  cbn [fst snd]. by rewrite Hj, Hlisted.
Qed.

End Listed.
End Filings.

(** ** Retries, the limiter and the backoff *)



Section Backoff.
Context `{Runtime}.










End Backoff.
(** ** The retry policy *)

Section RetryTheorem.
Context `{Runtime}.



End RetryTheorem.

(** * The properties at concrete inputs

    Each property above that has premises is applied once to a concrete
    run, and each statement of the specification that the code does not
    meet is evaluated on a run that shows it. *)

Local Open Scope Q_scope.

(** ** C1: the limiter *)

(** C1 fails at the edge of the window.  A timestamp exactly one second old
    is neither purged (the purge asks for more than [1.0]) nor waited for
    (the wait asks for a sleep longer than [0]), so the call is recorded on
    top of a full window.  With a ceiling of 1 and calls at times 0, 1 and 1
    the limiter records all three: two of them fall in the last second
    [(0, 1]], three in [[0, 1]].  With a ceiling of 2 the same happens to
    every call made at time 1 after two calls at time 0. *)
Theorem limiter_overruns_at_window_edge :
  RateLimiter.init 1 = Ok (RateLimiter.mk 1 (1 / 1))
  ∧ (admits (RateLimiter.mk 1 (1 / 1)) [(0, 0); (1, 0); (0, 0)] fresh).1
    = Ok [0; 1; 1]
  ∧ window_count 1 [0; 1; 1] = 2%nat
  ∧ closed_window_count 1 [0; 1; 1] = 3%nat
  ∧ (admits (RateLimiter.mk 2 (1 / 2)) [(0, 0); (0, 0); (1, 0); (0, 0); (0, 0)]
       fresh).1
    = Ok [0; 0; 1; 1; 1]
  ∧ window_count 1 [0; 0; 1; 1; 1] = 3%nat.
Proof. split_and!; reflexivity. Qed.

(** The window bound on three calls a tenth of a second apart, ceiling 2. *)
Lemma limiter_window_bound_witness :
  ∃ done,
    (admits (RateLimiter.mk 2 (1 / 2)) [(1 # 10, 0); (1 # 10, 0); (1 # 10, 1 # 100)]
       fresh).1 = Ok done
    ∧ length done = 3%nat
    ∧ (∀ n c, done !! n = Some c →
         inject_Z (Z.of_nat (window_count c (take (S n) done))) < 2 + 1)
    ∧ (∀ k n c, 2 == inject_Z (Z.of_nat k) →
         done !! n = Some c → (window_count c (take (S n) done) ≤ k)%nat).
Proof.
  apply (limiter_window_bound (RateLimiter.mk 2 (1 / 2))
           [(1 # 10, 0); (1 # 10, 0); (1 # 10, 1 # 100)] fresh).
  - reflexivity.
  - repeat constructor; discriminate.
  - reflexivity.
Defined.

(** ** C2: retries *)



(** ** C3 and C4: the cache *)

(** C3 as stated fails at the boundary: an entry written with [ttl = 5] and
    read exactly [5] later is returned, and stays on disk. *)
Lemma read_at_ttl_is_still_served :
  ((SimpleCache.set "k" (JInt 7) 5;; elapse 5;; SimpleCache.get "k") fresh).1
    = Ok (JInt 7)
  ∧ is_Some (files ((SimpleCache.set "k" (JInt 7) 5;; elapse 5;;
                      SimpleCache.get "k") fresh).2
             !! SimpleCache._get_cache_path "k").
Proof. vm_compute. eauto. Qed.

(** Read after write with [ttl = 5]: served after 3, gone after 6. *)
Lemma cache_read_after_write_witness :
  disk_writable fresh = true
  ∧ ((SimpleCache.set "k" (JInt 7) 5;; elapse 3;; SimpleCache.get "k") fresh).1
    = Ok (JInt 7)
  ∧ ((SimpleCache.set "k" (JInt 7) 5;; elapse 6;; SimpleCache.get "k") fresh).1
    = Ok JNull.
Proof.
  split; [reflexivity|]. split.
  - apply (cache_read_after_write "k" (JInt 7) 5 3 fresh eq_refl). lra.
  - apply (cache_read_after_write "k" (JInt 7) 5 6 fresh eq_refl). lra.
Defined.

(** C4 fails on a cache file that is valid JSON without being a record.  A
    file holding [[]] makes [get] raise [AttributeError], one whose
    [expires_at] is text makes it raise [TypeError]; the file stays where it
    is and the fetch that consulted the cache fails with the same
    exception. *)
Theorem wrong_shaped_entry_fails_the_fetch :
  SimpleCache.get ticker_key holds_list
    = (Raise AttributeError, after_get ticker_key holds_list)
  ∧ is_Some (files (after_get ticker_key holds_list) !! ticker_path)
  ∧ (SECHttpClient.get default_client 0 ticker_url None None true holds_list).1
    = Raise AttributeError
  ∧ SimpleCache.get ticker_key holds_text_expiry
    = (Raise TypeError, after_get ticker_key holds_text_expiry)
  ∧ is_Some (files (after_get ticker_key holds_text_expiry) !! ticker_path)
  ∧ (SECHttpClient.get default_client 0 ticker_url None None true
       holds_text_expiry).1
    = Raise TypeError.
Proof. vm_compute. eauto 10. Qed.

(** A cache file holding HTML is a miss and is deleted. *)
Lemma unusable_cache_file_witness :
  (SimpleCache.get ticker_key (cached_as (Blob "<html>" None))).1 = Ok JNull
  ∧ files (SimpleCache.get ticker_key (cached_as (Blob "<html>" None))).2
    = delete ticker_path (files (cached_as (Blob "<html>" None))).
Proof.
  destruct (unusable_cache_file ticker_key (cached_as (Blob "<html>" None))
              (File true 0 (Blob "<html>" None))) as [Hmiss _].
  - reflexivity.
  - apply Hmiss. right. split; reflexivity.
Defined.

(** The second of two writes is the one read back. *)
Lemma cache_overwrite_witness :
  ((SimpleCache.set "k" (JInt 1) 5;; SimpleCache.set "k" (JInt 2) 5;;
    elapse 3;; SimpleCache.get "k") fresh).1 = Ok (JInt 2).
Proof.
  apply (cache_overwrite "k" (JInt 1) 5 (JInt 2) 5 3 fresh eq_refl). discriminate.
Defined.

(** ** C5 and C6: headers and keys *)

(** C5 as stated fails when the caller passes an empty [User-Agent]: the one
    request that goes out carries it, empty. *)
Lemma empty_user_agent_is_sent :
  SECHttpClient.user_agent default_client ≠ EmptyString
  ∧ map (sent_header "User-Agent")
      (sent (SECHttpClient.get default_client 0 ticker_url
               (Some [("User-Agent", EmptyString)]) None false
               (with_pending [fine] fresh)).2)
    = [Some EmptyString].
Proof. split; [discriminate | reflexivity]. Qed.

(** The headers of a fresh [requests] session form a dictionary. *)
Lemma plain_default_headers_wf : ci_wf default_headers.
Proof. apply (bool_decide_unpack _). reflexivity. Defined.

(** A caller who passes only [Accept] sends the client's [User-Agent]. *)
Lemma fetch_sends_user_agent_witness :
  logs (λ e, is_sent e = true →
             sent_header "User-Agent" e
             = Some (user_agent_sent "flow_researcher bryan@example.com"
                       (Some [("Accept", "text/html")])))
    (with_pending [fine] fresh)
    (SECHttpClient.get default_client 0 ticker_url
       (Some [("Accept", "text/html")]) None false (with_pending [fine] fresh)).2
  ∧ user_agent_sent "flow_researcher bryan@example.com"
      (Some [("Accept", "text/html")])
    = "flow_researcher bryan@example.com".
Proof.
  split; [|reflexivity].
  apply (fetch_sends_user_agent "flow_researcher bryan@example.com" 10 30 3600 true
           default_client 0 ticker_url (Some [("Accept", "text/html")]) None false
           (with_pending [fine] fresh) plain_default_headers_wf eq_refl).
Defined.

(** The parameters [{a: 1, b: 2}] and [{b: 2, a: 1}] give one key. *)
Lemma cache_key_order_independent_witness :
  SECHttpClient.cache_key ticker_url (Some [("a", JInt 1); ("b", JInt 2)])
  = SECHttpClient.cache_key ticker_url (Some [("b", JInt 2); ("a", JInt 1)])
  ∧ SimpleCache._get_cache_path
      (SECHttpClient.cache_key ticker_url (Some [("a", JInt 1); ("b", JInt 2)]))
    = SimpleCache._get_cache_path
        (SECHttpClient.cache_key ticker_url (Some [("b", JInt 2); ("a", JInt 1)])).
Proof.
  apply (cache_key_order_independent ticker_url
           [("a", JInt 1); ("b", JInt 2)] [("b", JInt 2); ("a", JInt 1)]).
  - apply (bool_decide_unpack _). reflexivity.
  - apply (bool_decide_unpack _). reflexivity.
  - reflexivity.
Defined.

(** ** C7 to C10: cache hits and downloads *)

(** C7 as stated fails for a cached [null]: the entry is there and not
    expired, yet the fetch is recorded by the limiter and sends a
    request. *)
Lemma fetch_of_cached_null_goes_to_network :
  is_Some (files warm_null !! ticker_path)
  ∧ request_times warm_null = []
  ∧ attempts warm_null = 0%nat
  ∧ request_times
      (SECHttpClient.get default_client 0 ticker_url None None true warm_null).2
    = [0]
  ∧ attempts
      (SECHttpClient.get default_client 0 ticker_url None None true warm_null).2
    = 1%nat.
Proof. vm_compute. eauto 10. Qed.

(** A hit on the entry of [warm]: nothing is sent, nothing is recorded. *)
Lemma fetch_hit_witness :
  (SECHttpClient.get default_client 0 ticker_url None None true warm).1
    = Ok (SECHttpClient.mock_response tickers)
  ∧ sent (SECHttpClient.get default_client 0 ticker_url None None true warm).2
    = sent warm
  ∧ pending (SECHttpClient.get default_client 0 ticker_url None None true warm).2
    = pending warm
  ∧ request_times
      (SECHttpClient.get default_client 0 ticker_url None None true warm).2
    = request_times warm
  ∧ admissions (SECHttpClient.get default_client 0 ticker_url None None true warm).2
    = admissions warm
  ∧ files (SECHttpClient.get default_client 0 ticker_url None None true warm).2
    = files warm.
Proof.
  apply (fetch_hit_spares_network_and_limiter default_client 0 ticker_url None None
           warm (File true 0 (blob_of_json (SimpleCache.entry tickers 100)))
           [("value", tickers); ("expires_at", JFloat 100)] tickers);
    first [reflexivity | discriminate].
Defined.

(** A day-old filing on disk is returned as it is. *)
Lemma download_existing_witness :
  SECHttpClient.download default_client 0 filing_url filing_path true with_filing
  = (Ok (path_absolute filing_path), with_filing).
Proof.
  apply (download_existing_is_immediate default_client 0 filing_url filing_path
           old_filing with_filing).
  reflexivity.
Defined.

(** The response made up for the entry of [warm]. *)
Lemma cached_response_shape_witness :
  SECHttpClient.get default_client 0 ticker_url None None true warm
    = (Ok (SECHttpClient.mock_response tickers), after_get ticker_key warm)
  ∧ status_code (SECHttpClient.mock_response tickers) = 200%Z
  ∧ headers (SECHttpClient.mock_response tickers)
    = [("Content-Type", "application/json")]
  ∧ bytes (content (SECHttpClient.mock_response tickers))
    = json_dumps false tickers.
Proof.
  apply (cached_response_shape default_client 0 ticker_url None None warm tickers
           (after_get ticker_key warm));
    first [reflexivity | discriminate].
Defined.

(** The reply [fine] comes back with its own headers the first time and as
    the made-up response a minute later. *)
Lemma second_fetch_is_made_up_witness :
  (SECHttpClient.get default_client 0 ticker_url None None true
     (with_pending [fine] fresh)).1 = Ok fine_response
  ∧ ((SECHttpClient.get default_client 0 ticker_url None None true;;
      elapse 60;;
      SECHttpClient.get default_client 0 ticker_url None None true)
       (with_pending [fine] fresh)).1
    = Ok (SECHttpClient.mock_response tickers).
Proof.
  apply (second_fetch_is_made_up "flow_researcher bryan@example.com" 10 30 3600
           default_client 0 0 ticker_url None None None
           (with_pending [fine] fresh) fine_response [] tickers 60);
    first [reflexivity | discriminate].
Defined.

(** ** Pacing *)

(** Three calls a hundredth of a second apart on a limiter with a ceiling
    of three. *)
Lemma burst_under_ceiling_witness :
  (admits (RateLimiter.mk 3 (1 / 3)) [(1 # 100, 0); (1 # 100, 0); (1 # 100, 0)]
     fresh).1
    = Ok (arrivals 0 [1 # 100; 1 # 100; 1 # 100])
  ∧ sleeps (admits (RateLimiter.mk 3 (1 / 3))
              [(1 # 100, 0); (1 # 100, 0); (1 # 100, 0)] fresh).2 = [].
Proof.
  apply (burst_under_ceiling_is_not_delayed (RateLimiter.mk 3 (1 / 3))
           [(1 # 100, 0); (1 # 100, 0); (1 # 100, 0)] fresh).
  discriminate.
Defined.

(** A call at the ceiling, half a second after the one before. *)
Lemma wait_if_needed_delay_bound_witness :
  (RateLimiter.wait_if_needed (RateLimiter.mk 1 (1 / 1)) 0 half_second_on).1 = Ok tt
  ∧ clock half_second_on
    <= clock (RateLimiter.wait_if_needed (RateLimiter.mk 1 (1 / 1)) 0
                half_second_on).2
  ∧ clock (RateLimiter.wait_if_needed (RateLimiter.mk 1 (1 / 1)) 0
             half_second_on).2
    <= clock half_second_on + 1 + 0
  ∧ Forall (λ t, t <= clock (RateLimiter.wait_if_needed (RateLimiter.mk 1 (1 / 1)) 0
                               half_second_on).2)
      (request_times
         (RateLimiter.wait_if_needed (RateLimiter.mk 1 (1 / 1)) 0 half_second_on).2)
  ∧ (sleeps (RateLimiter.wait_if_needed (RateLimiter.mk 1 (1 / 1)) 0
               half_second_on).2 = sleeps half_second_on
     ∨ ∃ d, 0 < d ∧ d <= 1
            ∧ sleeps (RateLimiter.wait_if_needed (RateLimiter.mk 1 (1 / 1)) 0
                        half_second_on).2
              = sleeps half_second_on ++ [Slept d]
            ∧ clock (RateLimiter.wait_if_needed (RateLimiter.mk 1 (1 / 1)) 0
                       half_second_on).2
              = clock half_second_on + d + 0).
Proof.
  apply (wait_if_needed_delay_bound (RateLimiter.mk 1 (1 / 1)) 0 half_second_on).
  - reflexivity.
  - discriminate.
  - repeat constructor. discriminate.
Defined.


(** ** Downloads *)

(** A download the origin answers with [404]. *)
Lemma refused_download_witness :
  files (SECHttpClient.download default_client 0 index_url index_path true
           (with_pending [not_found] fresh)).2
  = files (with_pending [not_found] fresh).
Proof.
  apply (refused_download_writes_nothing default_client 0 index_url index_path true
           (with_pending [not_found] fresh) (HTTPError 404));
    [reflexivity | discriminate].
Defined.



(** ** What a fetch leaves in the cache *)


(** ** The URLs of the tools *)

(** Apple's CIK, written short and with blanks around it. *)
Lemma numeric_cik_has_one_form_witness :
  cik_padded (" " +:+ (zeros 2 +:+ "320193") +:+ " ")
    = zeros (10 - String.length "320193") +:+ "320193"
  ∧ cik_padded "320193" = zeros (10 - String.length "320193") +:+ "320193"
  ∧ String.length (zeros (10 - String.length "320193") +:+ "320193") = 10%nat
  ∧ all_chars is_digit (zeros (10 - String.length "320193") +:+ "320193") = true
  ∧ GetCompanySubmissionsTool.url (" " +:+ (zeros 2 +:+ "320193") +:+ " ")
    = GetCompanySubmissionsTool.url "320193".
Proof.
  apply (numeric_cik_has_one_form " " " " 2 "320193");
    first [reflexivity | simpl; lia].
Defined.

(** A path of an index file, with and without what comes before the CIK. *)
Lemma edgar_path_spellings_agree_witness :
  EdgarPathToDocUrlTool.url ("/" +:+ "edgar/data/" +:+ "320193/0000320193-24-000123.txt")
    = "https://www.sec.gov/Archives/edgar/data/" +:+ "320193/0000320193-24-000123.txt"
  ∧ (String.prefix "data/" "320193/0000320193-24-000123.txt" = false →
     EdgarPathToDocUrlTool.url ("/" +:+ "edgar/" +:+ "320193/0000320193-24-000123.txt")
       = "https://www.sec.gov/Archives/edgar/data/"
         +:+ "320193/0000320193-24-000123.txt")
  ∧ (String.prefix "/" "320193/0000320193-24-000123.txt" = false →
     String.prefix "edgar/" "320193/0000320193-24-000123.txt" = false →
     EdgarPathToDocUrlTool.url ("/" +:+ "320193/0000320193-24-000123.txt")
       = "https://www.sec.gov/Archives/edgar/data/"
         +:+ "320193/0000320193-24-000123.txt").
Proof.
  apply (edgar_path_spellings_agree "/" "320193/0000320193-24-000123.txt").
  reflexivity.
Defined.

(** May 2024 is in the second quarter. *)
Lemma master_index_urls_are_listed_witness :
  (1 ≤ (5 - 1) / 3 + 1 ≤ 4)%Z
  ∧ DownloadDailyMasterIndexTool.urls_to_try 2024 5
    ⊆ ListDailyIndexPathsTool.paths 2024 (Some ((5 - 1) / 3 + 1)%Z)
  ∧ DownloadDailyMasterIndexTool.urls_to_try 2024 5
    ⊆ ListDailyIndexPathsTool.paths 2024 None.
Proof. apply (master_index_urls_are_listed 2024 5). lia. Defined.

(** ** The tools *)

(** Apple's submissions, asked for twice a minute apart, the second time
    with the padded CIK. *)
Lemma submissions_tool_witness :
  ∃ client,
    ((first ← GetCompanySubmissionsTool._run "320193" 0 None;
      elapse 60;;
      second ← GetCompanySubmissionsTool._run "0000320193" 0 first.2;
      mret (first.1, second.1, second.2))
       (with_pending [Answer apple_response] fresh)).1
    = Ok (json_dumps false (GetCompanySubmissionsTool.fetched "320193" apple),
          json_dumps false (GetCompanySubmissionsTool.fetched "320193" apple),
          Some client)
    ∧ attempts
        ((first ← GetCompanySubmissionsTool._run "320193" 0 None;
          elapse 60;;
          second ← GetCompanySubmissionsTool._run "0000320193" 0 first.2;
          mret (first.1, second.1, second.2))
           (with_pending [Answer apple_response] fresh)).2
      = (attempts (with_pending [Answer apple_response] fresh) + 1)%nat.
Proof.
  apply (submissions_tool_answers_again_from_cache "320193" "0000320193" 0 0
           (with_pending [Answer apple_response] fresh) apple_response [] apple 60);
    first [reflexivity | discriminate].
Defined.



(** ** Listing recent filings *)

(** The annual and quarterly reports among Apple's three filings: the
    report date of the third is missing from its column. *)
Lemma recent_filings_witness :
  ListRecentFilingsTool._run "320193" (Some ["10-K"; "10-Q"]) 100 0 None
    (with_pending [Answer apple_response] fresh)
  = (Ok (json_dumps false
           (tool_result
              (JArr [ListRecentFilingsTool.filing_meta (JStr "10-K") (JStr "2024-11-01")
                       (JStr "2024-09-28") JNull (JStr "0000320193-24-000123")
                       (JStr "aapl-10k.htm");
                     ListRecentFilingsTool.filing_meta (JStr "10-Q") (JStr "2024-08-02")
                       JNull JNull (JStr "0000320193-24-000081")
                       (JStr "aapl-10q.htm")])
              [ListRecentFilingsTool.url "320193"] []), Some default_client),
     (SECHttpClient.get default_client 0 (ListRecentFilingsTool.url "320193")
        None None true
        (after_mkdir cache_dir (with_pending [Answer apple_response] fresh))).2).
Proof.
  apply (recent_filings_are_the_first_wanted_rows "320193" (Some ["10-K"; "10-Q"])
           100 0 None (with_pending [Answer apple_response] fresh)
           (after_mkdir cache_dir (with_pending [Answer apple_response] fresh))
           default_client (Some default_client) apple_response
           (SECHttpClient.get default_client 0 (ListRecentFilingsTool.url "320193")
              None None true
              (after_mkdir cache_dir
                 (with_pending [Answer apple_response] fresh))).2
           [("cik", JStr "320193"); ("name", JStr "Apple Inc.");
            ("filings", JObj [("recent", JObj apple_recent)])]
           [("recent", JObj apple_recent)] apple_recent
           [JStr "0000320193-24-000123"; JStr "0000320193-24-000101";
            JStr "0000320193-24-000081"]
           [JStr "10-K"; JStr "8-K"; JStr "10-Q"]
           [JStr "2024-11-01"; JStr "2024-08-01"; JStr "2024-08-02"]
           [JStr "2024-09-28"; JStr "2024-08-01"]
           []
           [JStr "aapl-10k.htm"; JStr "aapl-8k.htm"; JStr "aapl-10q.htm"]);
    reflexivity.
Defined.

(** ** Backoff *)

